(** * bili-cloud-bot: the check-in database and the reply workflow

    A shallow embedding of [src/database.ts] (class [CloudDatabase]) and of
    the workflow functions of [src/main.ts] ([checkAndComment],
    [processAtMessage], [checkIfUserCommentedAndPost], [postComment]),
    followed by the properties of the specification stated over them, and
    by further properties of the same code: of the helpers of [src/main.ts]
    ([getCsrfToken], [extractCsrfFromCookie], [checkImagesInDynamicCard],
    [extractAuthorId]) and of the listings of [src/database.ts]
    ([getActiveUsersRanking], [listProcessedAtMessages]).

    Conventions of the embedding:
    - a JavaScript [number] that holds a count, an id or a millisecond
      timestamp is a [Z];
    - the Level store is a finite map from string keys to JSON values; the
      keys are built exactly as the template strings of the source build
      them. The store is reliable: [get] of a missing key is its only
      rejection, so a [catch] block that guards [put] or [del] is kept in
      the text of a method but is never entered;
    - a JSON value has the shape that its writer gave it; a [user:] key that
      holds a value of another shape makes the methods fail the way the
      missing [checkInRecords] array makes the source fail;
    - an [async] method that can reject is a computation in the state and
      exception monad [M]; [try]/[catch] is [try_catch];
    - ambient inputs (the clock, the answers of the remote services) are
      explicit arguments;
    - the histogram [cloudTypeStats] is a plain JavaScript object: a label
      that is no key of its own is read through [Object.prototype], so a
      count can be a number, a text or [NaN];
    - log statements are left out. *)

From stdpp Require Import base strings gmap list pretty sorting.
From Stdlib Require QArith.
From Stdlib Require Import Ascii.

(** ** The values of a plain object used as a map

    [cloudTypeStats] is a plain object ([{}], or what [JSON.parse] builds):
    a key that is none of its own is looked up in [Object.prototype]. *)

(** What [Object.prototype] holds under a name: one of its functions, or,
    under [__proto__], the accessor whose getter answers [Object.prototype]
    itself. *)
Inductive Inherited : Type :=
  | NativeFunction (member : string)
  | ObjectPrototype.

(** What the source can write under a key of [cloudTypeStats]: a number;
    the text of an inherited value followed by [ones] characters [1] (what
    [+ 1] makes of a function, of an object, and then of such a text);
    [NaN] (what [-= 1] makes of such a text or of an inherited value);
    [null] (what the store gives back for a [NaN]). *)
Inductive Count : Type :=
  | CountNumber (n : Z)
  | CountText (source : Inherited) (ones : nat)
  | CountNaN
  | CountNull.

(** What reading a key of the object gives. *)
Inductive Property : Type :=
  | Own (count : Count)
  | FromPrototype (inherited : Inherited)
  | Undefined.

(** ** JavaScript primitives used by the source *)

Module Js.

(** [`${n}`] and [n.toString()] for an integer-valued number (below
    [10^21] in absolute value, where JavaScript prints all the digits). *)
Definition toString (n : Z) : string := pretty n.

Fixpoint repeat_char (c : ascii) (n : nat) : string :=
  match n with
  | O => EmptyString
  | S k => String c (repeat_char c k)
  end.

(** [s.padStart(target, c)] for a one-character pad string. *)
Definition padStart (target : nat) (c : ascii) (s : string) : string :=
  repeat_char c (target - String.length s) +:+ s.

(** Truthiness of a number and of a string. *)
Definition truthy (n : Z) : bool := negb (n =? 0)%Z.
Definition truthy_str (s : string) : bool := negb (String.eqb s "").

(** [arr.slice(start)]: a negative [start] counts from the end, and both
    directions are clamped to the array. *)
Definition slice_from {A} (start : Z) (arr : list A) : list A :=
  let len := Z.of_nat (length arr) in
  let k := if (start <? 0)%Z then Z.max (len + start) 0 else Z.min start len in
  drop (Z.to_nat k) arr.

(** [arr.slice(0, end)]: a negative [end] counts from the end, and both
    directions are clamped to the array. *)
Definition slice_to {A} (endIndex : Z) (arr : list A) : list A :=
  let len := Z.of_nat (length arr) in
  let k := if (endIndex <? 0)%Z then Z.max (len + endIndex) 0
           else Z.min endIndex len in
  take (Z.to_nat k) arr.

(** [arr.sort(compare)] for a consistent comparator. The sort is stable,
    which fixes its result: that of the insertion sort that puts each
    element, from the last to the first, before the first element that it
    does not have to follow. *)
Fixpoint sort_insert {A} (compare : A → A → Z) (x : A) (sorted : list A)
  : list A :=
  match sorted with
  | [] => [x]
  | y :: rest =>
      if (compare x y <=? 0)%Z then x :: y :: rest
      else y :: sort_insert compare x rest
  end.

Definition sort {A} (compare : A → A → Z) (arr : list A) : list A :=
  foldr (sort_insert compare) [] arr.

(** [s.replace(needle, '')]: [s] without the first occurrence of
    [needle]. *)
Fixpoint drop_chars (n : nat) (s : string) : string :=
  match n, s with
  | O, _ => s
  | S k, EmptyString => EmptyString
  | S k, String _ s' => drop_chars k s'
  end.

Fixpoint remove_first (needle s : string) : string :=
  if String.prefix needle s then drop_chars (String.length needle) s
  else match s with
       | EmptyString => EmptyString
       | String c s' => String c (remove_first needle s')
       end.

(** [parseInt(s)] without a radix: leading white space, a sign, the
    prefix [0x] of a hexadecimal numeral, then the digits up to the first
    character that is none; [None] is [NaN]. The white space is that of
    ASCII (the keys of the store hold no other), and the result is exact
    (the ids of the store are below [2^53]). *)
Definition is_white_space (c : ascii) : bool :=
  let n := nat_of_ascii c in
  ((9 <=? n)%nat && (n <=? 13)%nat) || (n =? 32)%nat.

Fixpoint trim_start (s : string) : string :=
  match s with
  | EmptyString => s
  | String c s' => if is_white_space c then trim_start s' else s
  end.

Definition digit_value (c : ascii) : option Z :=
  let n := Z.of_nat (nat_of_ascii c) in
  if (48 <=? n)%Z && (n <=? 57)%Z then Some (n - 48)%Z
  else if (97 <=? n)%Z && (n <=? 122)%Z then Some (n - 87)%Z
  else if (65 <=? n)%Z && (n <=? 90)%Z then Some (n - 55)%Z
  else None.

Fixpoint parse_digits (radix : Z) (acc : option Z) (s : string) : option Z :=
  match s with
  | EmptyString => acc
  | String c s' =>
      match digit_value c with
      | Some d =>
          if (d <? radix)%Z
          then parse_digits radix (Some (default 0%Z acc * radix + d)%Z) s'
          else acc
      | None => acc
      end
  end.

Definition parseInt (s : string) : option Z :=
  let trimmed := trim_start s in
  let '(sign, unsigned) :=
    match trimmed with
    | EmptyString => (1%Z, trimmed)
    | String c rest =>
        if Ascii.eqb c "-" then ((-1)%Z, rest)
        else if Ascii.eqb c "+" then (1%Z, rest)
        else (1%Z, trimmed)
    end in
  let '(radix, digits) :=
    if String.prefix "0x" unsigned || String.prefix "0X" unsigned
    then (16%Z, drop_chars 2 unsigned)
    else (10%Z, unsigned) in
  (λ n, sign * n)%Z <$> parse_digits radix None digits.


(** The names of the functions of [Object.prototype]. *)
Definition functionMembers : list string :=
  [ "constructor"; "__defineGetter__"; "__defineSetter__"; "hasOwnProperty";
    "__lookupGetter__"; "__lookupSetter__"; "isPrototypeOf";
    "propertyIsEnumerable"; "toString"; "valueOf"; "toLocaleString" ].

(** [Object.prototype[key]]. *)
Definition prototype_get (key : string) : option Inherited :=
  if bool_decide (key ∈ functionMembers) then Some (NativeFunction key)
  else if bool_decide (key = "__proto__") then Some ObjectPrototype
  else None.

(** [object[key]], read: the own key first, then the prototype. *)
Definition object_get (object : gmap string Count) (key : string) : Property :=
  match object !! key with
  | Some count => Own count
  | None =>
      match prototype_get key with
      | Some inherited => FromPrototype inherited
      | None => Undefined
      end
  end.

(** [object[key] = count]: an own key is overwritten and a missing key is
    created, but for [__proto__], where the assignment runs the setter of
    [Object.prototype], which ignores a value that is no object. *)
Definition object_set (object : gmap string Count) (key : string)
    (count : Count) : gmap string Count :=
  match object !! key with
  | Some _ => <[key := count]> object
  | None =>
      if bool_decide (key = "__proto__") then object
      else <[key := count]> object
  end.

(** Truthiness of what a read gives; a text of a [Count] is never empty. *)
Definition truthy_property (p : Property) : bool :=
  match p with
  | Own (CountNumber n) => truthy n
  | Own (CountText _ _) => true
  | Own CountNaN | Own CountNull => false
  | FromPrototype _ => true
  | Undefined => false
  end.

(** [x || 0]. *)
Definition or_zero (p : Property) : Property :=
  if truthy_property p then p else Own (CountNumber 0).

(** [x + 1]: the sum of numbers, and the concatenation with the text of a
    function or of an object. *)
Definition plus_one (p : Property) : Count :=
  match p with
  | Own (CountNumber n) => CountNumber (n + 1)
  | Own (CountText source ones) => CountText source (S ones)
  | Own CountNaN => CountNaN
  | Own CountNull => CountNumber 1
  | FromPrototype inherited => CountText inherited 1
  | Undefined => CountNaN
  end.

(** [x - 1]: the text of a function or of an object is no numeral. *)
Definition minus_one (p : Property) : Count :=
  match p with
  | Own (CountNumber n) => CountNumber (n - 1)
  | Own CountNull => CountNumber (-1)
  | Own (CountText _ _) | Own CountNaN | FromPrototype _ | Undefined => CountNaN
  end.

(** [x <= 0]: false when [x] is no number. *)
Definition le_zero (p : Property) : bool :=
  match p with
  | Own (CountNumber n) => (n <=? 0)%Z
  | Own CountNull => true
  | Own (CountText _ _) | Own CountNaN | FromPrototype _ | Undefined => false
  end.

(** A count as [get] reads it after [put]: [JSON.stringify] writes [NaN]
    as [null]. *)
Definition json_count (count : Count) : Count :=
  match count with
  | CountNaN => CountNull
  | _ => count
  end.

(** The text that a [CountText] stands for, in the wording of V8. *)
Definition inherited_text (inherited : Inherited) : string :=
  match inherited with
  | NativeFunction member =>
      "function "
      +:+ (if String.eqb member "constructor" then "Object" else member)
      +:+ "() { [native code] }"
  | ObjectPrototype => "[object Object]"
  end.

Definition count_text (source : Inherited) (ones : nat) : string :=
  inherited_text source +:+ repeat_char "1" ones.

End Js.

(** ** Exceptions and the state-and-exception monad *)

Inductive error : Type :=
  | LEVEL_NOT_FOUND
  | TypeError
  | Failure (msg : string).

Inductive result (A : Type) : Type :=
  | Ok (a : A)
  | Throw (e : error).
Arguments Ok {A} a.
Arguments Throw {A} e.

Definition M (S A : Type) : Type := S → result A * S.

Definition ret {S A} (a : A) : M S A := λ s, (Ok a, s).

Definition throw {S A} (e : error) : M S A := λ s, (Throw e, s).

Definition bind {S A B} (m : M S A) (k : A → M S B) : M S B :=
  λ s, match m s with
       | (Ok a, s') => k a s'
       | (Throw e, s') => (Throw e, s')
       end.

Definition try_catch {S A} (m : M S A) (handler : error → M S A) : M S A :=
  λ s, match m s with
       | (Ok a, s') => (Ok a, s')
       | (Throw e, s') => handler e s'
       end.

Declare Scope prog_scope.
Delimit Scope prog_scope with prog.
Notation "'let*' x ':=' m 'in' k" := (bind m (λ x, k))
  (at level 10, x name, m at level 100, k at level 200) : prog_scope.
Notation "m ';;' k" := (bind m (λ _, k))
  (at level 100, k at level 200, right associativity) : prog_scope.
Open Scope prog_scope.

(** ** [src/database.ts] *)

Record CloudType : Type := mkCloudType {
  type : string;
  confidence : QArith_base.Q;
  description : option string
}.

Record CheckInRecord : Type := mkCheckInRecord {
  dynamicId : string;
  timestamp : Z;
  cloudTypes : list CloudType;
  imageCount : Z;
  analysis : string
}.

(** The fields [dynamicId] and [uri] of the source carry the prefix [pm_]
    here, the names being taken by [CheckInRecord] and [AtItem]. *)
Record ProcessedAtMessage : Type := mkProcessedAtMessage {
  atMessageId : Z;
  pm_dynamicId : string;
  processedAt : Z;
  fromUser : string;
  pm_uri : string
}.

Record UserStats : Type := mkUserStats {
  userName : string;
  totalCheckIns : Z;
  totalImages : Z;
  cloudTypeStats : gmap string Count;
  firstCheckIn : Z;
  lastCheckIn : Z;
  checkInRecords : list CheckInRecord
}.

(** The object literal written by [recordDailyComment]. *)
Record DailyComment : Type := mkDailyComment {
  dc_authorId : string;
  dc_date : string;
  dc_timestamp : Z
}.

(** A JSON value held by the store: one shape per key namespace. *)
Inductive value : Type :=
  | VDaily (d : DailyComment)
  | VProcessed (m : ProcessedAtMessage)
  | VUser (s : UserStats)
  | VRecord (r : CheckInRecord).

(** What [new Date()] exposes to the source: the local calendar day. *)
Record LocalDate : Type := mkLocalDate {
  getFullYear : Z;
  getMonth : Z;
  getDate : Z
}.

(** An entry of the array that [getActiveUsersRanking] returns; the
    fields [userId], [checkIns] and [cloudTypes] carry the prefix
    [rank_]. *)
Record RankedUser : Type := mkRankedUser {
  rank_userId : string;
  rank_checkIns : Z;
  rank_cloudTypes : Z
}.

Module CloudDatabase.

(** The Level store. [get] of a missing key rejects; [put] and [del]
    succeed, [del] also for a key that is not there. *)
Abbreviation DB := (gmap string value).

Definition level_get (key : string) : M DB value :=
  λ db, match db !! key with
        | Some v => (Ok v, db)
        | None => (Throw LEVEL_NOT_FOUND, db)
        end.

Definition level_put (key : string) (v : value) : M DB unit :=
  λ db, (Ok tt, <[key := v]> db).

Definition level_del (key : string) : M DB unit :=
  λ db, (Ok tt, delete key db).

(** Key construction. *)
Definition dateKey (today : LocalDate) : string :=
  Js.toString (getFullYear today) +:+ "-"
  +:+ Js.padStart 2 "0"%char (Js.toString (getMonth today + 1)) +:+ "-"
  +:+ Js.padStart 2 "0"%char (Js.toString (getDate today)).

Definition dailyKey (authorId : string) (today : LocalDate) : string :=
  "daily_comment:" +:+ authorId +:+ ":" +:+ dateKey today.

Definition processedKey (atMessageId : Z) : string :=
  "processed_at:" +:+ Js.toString atMessageId.

Definition userKey (userId : string) : string := "user:" +:+ userId.

Definition recordKey (userId : string) (ts : Z) : string :=
  "record:" +:+ userId +:+ ":" +:+ Js.toString ts.

(** [hasUserCommentedToday]; [today] is the value of [new Date()]. *)
Definition hasUserCommentedToday (today : LocalDate) (authorId : string)
  : M DB bool :=
  try_catch
    (let* result := level_get (dailyKey authorId today) in
     ret true)
    (λ _, ret false).

(** [recordDailyComment]; [now] is the value of [Date.now()]. *)
Definition recordDailyComment (today : LocalDate) (now : Z)
    (authorId : string) : M DB unit :=
  try_catch
    (let record := mkDailyComment authorId (dateKey today) now in
     level_put (dailyKey authorId today) (VDaily record))
    (λ e, throw e).

Definition recordProcessedAtMessage (processedMessage : ProcessedAtMessage)
  : M DB unit :=
  try_catch
    (level_put (processedKey (atMessageId processedMessage))
               (VProcessed processedMessage))
    (λ e, throw e).

Definition isAtMessageProcessed (atMessageId : Z) : M DB bool :=
  try_catch
    (let* result := level_get (processedKey atMessageId) in
     ret true)
    (λ _, ret false).

Definition getProcessedAtMessage (atMessageId : Z)
  : M DB (option ProcessedAtMessage) :=
  try_catch
    (let* v := level_get (processedKey atMessageId) in
     ret (match v with VProcessed m => Some m | _ => None end))
    (λ _, ret None).

Definition deleteProcessedAtMessage (atMessageId : Z) : M DB bool :=
  try_catch
    (level_del (processedKey atMessageId) ;;
     ret true)
    (λ _, ret false).

(** The statistics of a user that checks in for the first time. *)
Definition initialStats (userName : string) (record : CheckInRecord)
  : UserStats :=
  {| userName := userName;
     totalCheckIns := 0;
     totalImages := 0;
     cloudTypeStats := ∅;
     firstCheckIn := timestamp record;
     lastCheckIn := timestamp record;
     checkInRecords := [] |}.

(** One iteration of the [forEach] of [recordCheckIn]:
    [stats[typeName] = (stats[typeName] || 0) + 1]. *)
Definition incrementType (stats : gmap string Count) (cloud : CloudType)
  : gmap string Count :=
  let typeName := type cloud in
  Js.object_set stats typeName
    (Js.plus_one (Js.or_zero (Js.object_get stats typeName))).

(** [push] followed by the cut to the last hundred records. *)
Definition pushRecord (records : list CheckInRecord) (record : CheckInRecord)
  : list CheckInRecord :=
  let pushed := records ++ [record] in
  if (100 <? length pushed)%nat then Js.slice_from (-100) pushed else pushed.

(** The in-place updates of [recordCheckIn] between the read and the
    write of the user's statistics, with the histogram as [put] stores
    it. *)
Definition applyCheckIn (userName : string) (record : CheckInRecord)
    (userStats : UserStats) : UserStats :=
  {| userName := userName;
     totalCheckIns := (totalCheckIns userStats + 1)%Z;
     totalImages := (totalImages userStats + imageCount record)%Z;
     cloudTypeStats :=
       Js.json_count
       <$> foldl incrementType (cloudTypeStats userStats) (cloudTypes record);
     firstCheckIn := firstCheckIn userStats;
     lastCheckIn := timestamp record;
     checkInRecords := pushRecord (checkInRecords userStats) record |}.

Definition recordCheckIn (userId userName : string) (record : CheckInRecord)
  : M DB unit :=
  try_catch
    (let* stored :=
       try_catch
         (level_get (userKey userId))
         (λ _, ret (VUser (initialStats userName record))) in
     match stored with
     | VUser userStats =>
         let userStats' := applyCheckIn userName record userStats in
         level_put (userKey userId) (VUser userStats') ;;
         level_put (recordKey userId (timestamp record)) (VRecord record)
     | _ =>
         (* an object of another shape has no [checkInRecords] to push to *)
         throw TypeError
     end)
    (λ e, throw e).

(** A value of another shape under a [user:] key is no statistics; no
    writer of the store puts one there. *)
Definition getUserStats (userId : string) : M DB (option UserStats) :=
  try_catch
    (let* v := level_get (userKey userId) in
     ret (match v with VUser userStats => Some userStats | _ => None end))
    (λ _, ret None).

(** One iteration of the [forEach] of [rollbackLastCheckIn]:
    [if (stats[typeName]) { stats[typeName] -= 1;
    if (stats[typeName] <= 0) delete stats[typeName]; }]. *)
Definition decrementType (stats : gmap string Count) (cloud : CloudType)
  : gmap string Count :=
  let typeName := type cloud in
  if Js.truthy_property (Js.object_get stats typeName) then
    let stats' :=
      Js.object_set stats typeName
        (Js.minus_one (Js.object_get stats typeName)) in
    if Js.le_zero (Js.object_get stats' typeName) then delete typeName stats'
    else stats'
  else stats.

(** The in-place updates of [rollbackLastCheckIn], given the last record,
    with the histogram as [put] stores it. *)
Definition applyRollback (lastRecord : CheckInRecord) (userStats : UserStats)
  : UserStats :=
  let records := removelast (checkInRecords userStats) in
  {| userName := userName userStats;
     totalCheckIns := (totalCheckIns userStats - 1)%Z;
     totalImages := (totalImages userStats - imageCount lastRecord)%Z;
     cloudTypeStats :=
       Js.json_count
       <$> foldl decrementType (cloudTypeStats userStats)
             (cloudTypes lastRecord);
     firstCheckIn := firstCheckIn userStats;
     lastCheckIn :=
       match last records with
       | Some r => timestamp r
       | None => firstCheckIn userStats
       end;
     checkInRecords := records |}.

Definition rollbackLastCheckIn (userId : string) : M DB bool :=
  try_catch
    (let* found :=
       try_catch
         (let* v := level_get (userKey userId) in
          match v with
          | VUser userStats =>
              match last (checkInRecords userStats) with
              | None => ret None   (* [checkInRecords.length === 0] *)
              | Some lastRecord => ret (Some (userStats, lastRecord))
              end
          | _ => throw TypeError
          end)
         (λ _, ret None) in
     match found with
     | None => ret false
     | Some (userStats, lastRecord) =>
         let userStats' := applyRollback lastRecord userStats in
         try_catch
           (level_del (recordKey userId (timestamp lastRecord)))
           (λ _, ret tt) ;;
         level_put (userKey userId) (VUser userStats') ;;
         ret true
     end)
    (λ _, ret false).

Definition getRecentCheckIns (userId : string) (limit : Z)
  : M DB (list CheckInRecord) :=
  try_catch
    (let* userStats := getUserStats userId in
     match userStats with
     | None => ret []
     | Some userStats =>
         ret (reverse (Js.slice_from (- limit) (checkInRecords userStats)))
     end)
    (λ _, ret []).

(** [db.iterator()]: the entries of the store in the order of their keys
    (the bytewise order of Level). *)
Fixpoint insertByKey (entry : string * value)
    (sorted : list (string * value)) : list (string * value) :=
  match sorted with
  | [] => [entry]
  | e :: rest =>
      if String.leb (fst entry) (fst e) then entry :: e :: rest
      else e :: insertByKey entry rest
  end.

Definition level_iterator : M DB (list (string * value)) :=
  λ db, (Ok (foldr insertByKey [] (map_to_list db)), db).

(** The loop of [getActiveUsersRanking]; [users] is the array that the
    loop pushes to. Of a value of another shape [cloudTypeStats] is
    undefined, and [Object.keys] throws. *)
Fixpoint collectUsers (entries : list (string * value))
    (users : list RankedUser) : result (list RankedUser) :=
  match entries with
  | [] => Ok users
  | (key, v) :: rest =>
      if String.prefix "user:" key then
        match v with
        | VUser userStats =>
            let userId := Js.remove_first "user:" key in
            collectUsers rest
              (users ++ [ {| rank_userId := userId;
                             rank_checkIns := totalCheckIns userStats;
                             rank_cloudTypes :=
                               Z.of_nat (size (cloudTypeStats userStats)) |} ])
        | _ => Throw TypeError
        end
      else collectUsers rest users
  end.

Definition getActiveUsersRanking (limit : Z) : M DB (list RankedUser) :=
  try_catch
    (let* entries := level_iterator in
     let* users := (λ db, (collectUsers entries [], db)) in
     ret (Js.slice_to limit
            (Js.sort (λ a b, (rank_checkIns b - rank_checkIns a)%Z) users)))
    (λ _, ret []).

(** [listProcessedAtMessages]; a key whose tail is no number is passed
    over. *)
Definition listProcessedAtMessages : M DB (list Z) :=
  try_catch
    (let* entries := level_iterator in
     let processedIds :=
       omap (λ entry : string * value,
               if String.prefix "processed_at:" (fst entry)
               then Js.parseInt (Js.remove_first "processed_at:" (fst entry))
               else None)
            entries in
     ret (Js.sort (λ a b, (b - a)%Z) processedIds))
    (λ _, ret []).

End CloudDatabase.

(** ** [src/main.ts]: the data exchanged with the remote services

    Only the fields that the workflow reads are kept. A field whose name is
    taken already, or is reserved, carries a prefix. *)

(** An id that the detail API delivers as a number or as a string. *)
Inductive JsId : Type :=
  | IdNum (n : Z)
  | IdStr (s : string).

Record AtUser : Type := mkAtUser { nickname : string }.

Record AtItem : Type := mkAtItem {
  business_id : Z;
  title : string;
  uri : string
}.

Record AtMessage : Type := mkAtMessage {
  at_id : Z;        (* [id] *)
  user : AtUser;
  item : AtItem
}.

Record Pic : Type := mkPic { url : option string }.

Record DrawItem : Type := mkDrawItem { src : option string }.

Record Paragraph : Type := mkParagraph {
  para_type : Z;
  pic_pics : option (list Pic)               (* [pic?.pics] *)
}.

Record Major : Type := mkMajor {
  opus_pics : option (list Pic);             (* [opus?.pics] *)
  draw_items : option (list DrawItem)        (* [draw?.items] *)
}.

Record ModuleAuthor : Type := mkModuleAuthor {
  mid : option JsId;
  uid : option JsId;
  name : option string;
  pub_ts : option Z
}.

Record ModuleItem : Type := mkModuleItem {
  module_type : option string;
  module_top_pics : option (list Pic);       (* [module_top?.display?.album?.pics] *)
  module_content_paragraphs : option (list Paragraph);
  module_dynamic_major : option Major;       (* [module_dynamic?.major] *)
  module_author : option ModuleAuthor
}.

(** [modules] is an array or a single object. *)
Inductive Modules : Type :=
  | ModulesArray (ms : list ModuleItem)
  | ModulesObject (m : ModuleItem).

(** The creation-time fields that [processAtMessage] probes, in the order of
    its [timeFields] array. *)
Record TimeFields : Type := mkTimeFields {
  tf_pub_time : option Z;
  tf_pub_ts : option Z;
  tf_ctime : option Z;
  tf_timestamp : option Z;
  tf_create_time : option Z
}.

Record Basic : Type := mkBasic {
  comment_type : option Z;
  rid_str : option string;
  basic_times : TimeFields
}.

(** The [item] of a detail response. *)
Record DynamicData : Type := mkDynamicData {
  dd_times : TimeFields;
  dd_basic : option Basic;
  dd_modules : option Modules;
  dd_uid : option JsId;
  dd_mid : option JsId;
  dd_uname : option string                   (* [desc?.user_profile?.info?.uname] *)
}.

Record DynamicCardItem : Type := mkDynamicCardItem {
  id_str : string;
  basic : option Basic;
  modules : option Modules
}.

(** [description] of the source is a log text and is left out. *)
Record DynamicCardImage : Type := mkDynamicCardImage {
  img_url : string;
  img_type : string
}.

(** A reply of the comment list. Of a sub-reply the workflow reads the
    author only. *)
Record SubReply : Type := mkSubReply { sub_member_mid : string }.

Record CommentReply : Type := mkCommentReply {
  member_mid : string;
  message : string;
  replies : option (list SubReply)
}.

Record ImageInfo : Type := mkImageInfo {
  img_src : string;
  img_width : Z;
  img_height : Z;
  img_size : Z
}.

(** [src/config.ts] is not part of the sources (only its example is): the
    configuration is an argument of the workflow. *)
Record Config : Type := mkConfig {
  cookie : string;
  uidToMonitor : string;
  commentText : string;
  enableCloudAnalysis : bool;
  enableCheckInImage : bool
}.

(** What the outside world answers while one notification is processed: the
    clock, and for each remote call its value or its rejection. *)
Record Remote : Type := mkRemote {
  clockNow : Z;                                   (* [Date.now()] *)
  clockToday : LocalDate;                         (* [new Date()] *)
  opusDetail : result (option DynamicData);       (* opus detail API *)
  generalDetail : result (option DynamicData);    (* general detail API *)
  commentReplies : result (option (list CommentReply)); (* [data?.data?.replies] *)
  analysisResult : result (list CloudType * string);
                                    (* [analyzeMultipleImagesWithTypes] *)
  checkInImage : option ImageInfo;  (* [imageInfo] after the image block *)
  postCode : result Z               (* [response.data.code] of the post *)
}.

(** The calls that the workflow makes to its collaborators, in order. *)
Inductive Call : Type :=
  | GetAtFeed
  | GetOpusDetail (dynamicId : string)
  | GetDynamicDetails (dynamicId : string)
  | GetComments (oid : string) (type : Z)
  | AnalyzeImages (imageUrls : list string)
  | GenerateCheckInImage (userStats : UserStats)
  | AddComment (oid : string) (type : Z) (message : string)
               (picture : option ImageInfo)
  | RecordProcessedAtMessage (m : ProcessedAtMessage)
  | RecordCheckIn (userId userName : string) (record : CheckInRecord)
  | RollbackLastCheckIn (userId : string)
  | RecordDailyComment (authorId : string).

(** The state of the process: the store, the calls made so far, and the
    module-level flag [isProcessing]. *)
Record World : Type := mkWorld {
  db : gmap string value;
  calls : list Call;
  isProcessing : bool
}.

(** The mutable locals of [postComment] that its [catch] block reads. *)
Record Locals : Type := mkLocals {
  authorId : option string;
  recordSaved : bool
}.

Module Main.

(** *** Strings *)

Fixpoint string_drop (n : nat) (s : string) : string :=
  match n, s with
  | O, _ => s
  | S k, EmptyString => EmptyString
  | S k, String _ s' => string_drop k s'
  end.

(** [s.includes(needle)]. *)
Fixpoint includes (needle s : string) : bool :=
  String.prefix needle s
  || match s with
     | EmptyString => false
     | String _ s' => includes needle s'
     end.

Definition isDigit (c : ascii) : bool :=
  (48 <=? nat_of_ascii c)%nat && (nat_of_ascii c <=? 57)%nat.

Fixpoint takeWhile (p : ascii → bool) (s : string) : string :=
  match s with
  | EmptyString => EmptyString
  | String c s' => if p c then String c (takeWhile p s') else EmptyString
  end.

(** [s.match(/lit(\d+)/)?.[1]]: the digits after the leftmost occurrence
    of [lit] that is followed by a digit. *)
Fixpoint matchDigitsAfter (lit s : string) : option string :=
  let here :=
    if String.prefix lit s then
      let digits := takeWhile isDigit (string_drop (String.length lit) s) in
      if Js.truthy_str digits then Some digits else None
    else None in
  match here with
  | Some digits => Some digits
  | None =>
      match s with
      | EmptyString => None
      | String _ s' => matchDigitsAfter lit s'
      end
  end.

(** The first group of [s.match(re)], for the regular expression [re]
    that is [lit] followed by a group of any number of non-semicolons:
    what follows the leftmost [lit], up to the next semicolon. *)
Fixpoint matchUntilSemicolon (lit s : string) : option string :=
  if String.prefix lit s then
    Some (takeWhile (λ c, negb (Ascii.eqb c ";"))
                    (string_drop (String.length lit) s))
  else
    match s with
    | EmptyString => None
    | String _ s' => matchUntilSemicolon lit s'
    end.

Definition getCsrfToken (cookie : string) : result string :=
  match matchUntilSemicolon "bili_jct=" cookie with
  | Some token =>
      if Js.truthy_str token then Ok token
      else Throw (Failure "Could not find bili_jct in the provided cookie")
  | None => Throw (Failure "Could not find bili_jct in the provided cookie")
  end.

(** [extractCsrfFromCookie]: the first group of [cookie.match(re)] for the
    regular expression [re] that is [lit] followed by a group of one or
    more non-semicolons; [None] is [null]. *)
Fixpoint matchSomeUntilSemicolon (lit s : string) : option string :=
  let here :=
    if String.prefix lit s then
      let group := takeWhile (λ c, negb (Ascii.eqb c ";"))
                             (string_drop (String.length lit) s) in
      if Js.truthy_str group then Some group else None
    else None in
  match here with
  | Some group => Some group
  | None =>
      match s with
      | EmptyString => None
      | String _ s' => matchSomeUntilSemicolon lit s'
      end
  end.

Definition extractCsrfFromCookie (cookie : string) : option string :=
  matchSomeUntilSemicolon "bili_jct=" cookie.

(** *** Truthiness of optional fields *)

Definition truthyStr (x : option string) : option string :=
  match x with
  | Some s => if Js.truthy_str s then Some s else None
  | None => None
  end.

Definition truthyNum (x : option Z) : option Z :=
  match x with
  | Some n => if Js.truthy n then Some n else None
  | None => None
  end.

(** A truthy id, as [String(id)]. *)
Definition truthyId (x : option JsId) : option string :=
  match x with
  | Some (IdNum n) => if Js.truthy n then Some (Js.toString n) else None
  | Some (IdStr s) => if Js.truthy_str s then Some s else None
  | None => None
  end.

Definition modulesArray (ms : Modules) : list ModuleItem :=
  match ms with
  | ModulesArray l => l
  | ModulesObject m => [m]
  end.

(** *** [checkImagesInDynamicCard] *)

Definition picImages (kind : string) (pics : list Pic)
  : list DynamicCardImage :=
  omap (λ pic, match truthyStr (url pic) with
               | Some u => Some (mkDynamicCardImage u kind)
               | None => None
               end) pics.

Definition drawImages (items : list DrawItem) : list DynamicCardImage :=
  omap (λ it, match truthyStr (src it) with
              | Some u => Some (mkDynamicCardImage u "draw_pic")
              | None => None
              end) items.

Definition paragraphImages (paragraph : Paragraph) : list DynamicCardImage :=
  match pic_pics paragraph with
  | Some pics =>
      if (para_type paragraph =? 2)%Z then picImages "content_pic" pics
      else []
  | None => []
  end.

(** The images that one module contributes, in the order of the pushes. *)
Definition moduleImages (module : ModuleItem) : list DynamicCardImage :=
  (match module_type module, module_top_pics module with
   | Some t, Some pics =>
       if String.eqb t "MODULE_TYPE_TOP" then picImages "album_pic" pics
       else []
   | _, _ => []
   end)
  ++ (match module_type module, module_content_paragraphs module with
      | Some t, Some paragraphs =>
          if String.eqb t "MODULE_TYPE_CONTENT"
          then concat (map paragraphImages paragraphs)
          else []
      | _, _ => []
      end)
  ++ (match module_dynamic_major module with
      | Some major =>
          (match opus_pics major with
           | Some pics => picImages "opus_pic" pics
           | None => []
           end)
          ++ (match draw_items major with
              | Some items => drawImages items
              | None => []
              end)
      | None => []
      end).

Definition checkImagesInDynamicCard (dynamicCard : DynamicCardItem)
  : list DynamicCardImage :=
  match modules dynamicCard with
  | None => []
  | Some ms => concat (map moduleImages (modulesArray ms))
  end.

(** *** [extractAuthorId] and [extractAuthorName] *)

(** The loop over the modules: the first truthy [mid] or [uid] of a
    [module_author]. *)
Fixpoint authorIdOfModules (ms : list ModuleItem) : option string :=
  match ms with
  | [] => None
  | module :: rest =>
      match module_author module with
      | Some author =>
          match truthyId (mid author) with
          | Some a => Some a
          | None =>
              match truthyId (uid author) with
              | Some a => Some a
              | None => authorIdOfModules rest
              end
          end
      | None => authorIdOfModules rest
      end
  end.

Definition extractAuthorId (dynamicData : DynamicData) : option string :=
  match
    match dd_modules dynamicData with
    | Some ms => authorIdOfModules (modulesArray ms)
    | None => None
    end
  with
  | Some a => Some a
  | None =>
      match truthyId (dd_uid dynamicData) with
      | Some a => Some a
      | None => truthyId (dd_mid dynamicData)
      end
  end.

Fixpoint authorNameOfModules (ms : list ModuleItem) : option string :=
  match ms with
  | [] => None
  | module :: rest =>
      match module_author module with
      | Some author =>
          match truthyStr (name author) with
          | Some n => Some n
          | None => authorNameOfModules rest
          end
      | None => authorNameOfModules rest
      end
  end.

Definition extractAuthorName (dynamicData : DynamicData) : option string :=
  match
    match dd_modules dynamicData with
    | Some ms => authorNameOfModules (modulesArray ms)
    | None => None
    end
  with
  | Some n => Some n
  | None => truthyStr (dd_uname dynamicData)
  end.

(** *** The creation time of a dynamic *)

Definition timeFieldValues (t : TimeFields) : list (option Z) :=
  [tf_pub_time t; tf_pub_ts t; tf_ctime t; tf_timestamp t; tf_create_time t].

(** The first truthy field, in milliseconds. *)
Fixpoint firstTime (fields : list (option Z)) : option Z :=
  match fields with
  | [] => None
  | x :: rest =>
      match truthyNum x with
      | Some n => Some (n * 1000)%Z
      | None => firstTime rest
      end
  end.

Fixpoint authorTime (ms : list ModuleItem) : option Z :=
  match ms with
  | [] => None
  | module :: rest =>
      match module_author module with
      | Some author =>
          match truthyNum (pub_ts author) with
          | Some n => Some (n * 1000)%Z
          | None => authorTime rest
          end
      | None => authorTime rest
      end
  end.

(** [createTime] after the three probes; [None] is a falsy value. *)
Definition createTimeOf (dynamicData : DynamicData) : option Z :=
  let top := truthyNum (firstTime (timeFieldValues (dd_times dynamicData))) in
  let fromBasic :=
    match top, dd_basic dynamicData with
    | None, Some b => truthyNum (firstTime (timeFieldValues (basic_times b)))
    | _, _ => top
    end in
  match fromBasic, dd_modules dynamicData with
  | None, Some ms => truthyNum (authorTime (modulesArray ms))
  | _, _ => fromBasic
  end.

Definition oneDayMs : Z := (24 * 60 * 60 * 1000)%Z.

(** *** The identifier of the dynamic *)

Inductive UriResolution : Type :=
  | Resolved (dynamicId : string)
  | Unresolved (sentinel : string).

Definition resolveUri (uri : string) : UriResolution :=
  if includes "/opus/" uri then
    match matchDigitsAfter "/opus/" uri with
    | Some dynamicId => Resolved dynamicId
    | None => Unresolved "unparseable_opus_uri"
    end
  else if includes "t.bilibili.com/" uri then
    match matchDigitsAfter "t.bilibili.com/" uri with
    | Some dynamicId => Resolved dynamicId
    | None => Unresolved "unparseable_uri"
    end
  else Unresolved "invalid_uri".

(** *** Effects *)

(** A method of [cloudDB]. *)
Definition liftDB {A} (m : M (gmap string value) A) : M World A :=
  λ w, let '(r, db') := m (db w) in
       (r, {| db := db'; calls := calls w; isProcessing := isProcessing w |}).

(** A call is noted when it is made. *)
Definition call (c : Call) : M World unit :=
  λ w, (Ok tt, {| db := db w; calls := calls w ++ [c];
                  isProcessing := isProcessing w |}).

(** The awaited answer of a remote call. *)
Definition answer {S A} (r : result A) : M S A := λ s, (r, s).

Definition setProcessing (b : bool) : M World unit :=
  λ w, (Ok tt, {| db := db w; calls := calls w; isProcessing := b |}).

(** [try { m } finally { f }] *)
Definition try_finally {S A} (m : M S A) (f : M S unit) : M S A :=
  λ s, let '(r, s') := m s in
       match f s' with
       | (Ok _, s'') => (r, s'')
       | (Throw e, s'') => (Throw e, s'')
       end.

Definition inWorld {A} (m : M World A) : M (World * Locals) A :=
  λ '(w, l), let '(r, w') := m w in (r, (w', l)).

Definition getLocals : M (World * Locals) Locals :=
  λ '(w, l), (Ok l, (w, l)).

Definition setAuthorId (a : option string) : M (World * Locals) unit :=
  λ '(w, l), (Ok tt, (w, {| authorId := a; recordSaved := recordSaved l |})).

Definition setRecordSaved (b : bool) : M (World * Locals) unit :=
  λ '(w, l), (Ok tt, (w, {| authorId := authorId l; recordSaved := b |})).

(** A function body that starts with the given locals. *)
Definition withLocals {A} (l : Locals) (m : M (World * Locals) A) : M World A :=
  λ w, let '(r, (w', _)) := m (w, l) in (r, w').

Definition recordProcessed (atMessage : AtMessage) (dynamicId : string)
    (now : Z) : M World unit :=
  let processedMessage :=
    {| atMessageId := at_id atMessage;
       pm_dynamicId := dynamicId;
       processedAt := now;
       fromUser := nickname (user atMessage);
       pm_uri := uri (item atMessage) |} in
  call (RecordProcessedAtMessage processedMessage) ;;
  liftDB (CloudDatabase.recordProcessedAtMessage processedMessage).

(** *** [postComment] *)

(** The rollback of both failure branches:
    [if (recordSaved && authorId) { try { rollback } catch { log } }]. *)
Definition rollbackIfSaved : M (World * Locals) unit :=
  let* l := getLocals in
  match recordSaved l, truthyStr (authorId l) with
  | true, Some a =>
      try_catch
        (inWorld (call (RollbackLastCheckIn a) ;;
                  liftDB (CloudDatabase.rollbackLastCheckIn a)) ;;
         ret tt)
        (λ _, ret tt)
  | _, _ => ret tt
  end.

Definition defaultCloud : CloudType :=
  {| type := "云朵"; confidence := QArith_base.Qmake 1 2;
     description := Some "云朵分析功能未启用" |}.

(** The cloud analysis of [postComment]: the cloud types and the comment
    text, or [None] where the source returns [false] at once. *)
Definition analyseClouds (cfg : Config) (remote : Remote)
    (dynamicCard : DynamicCardItem)
  : M (World * Locals) (option (list CloudType * string)) :=
  if enableCloudAnalysis cfg then
    let images := checkImagesInDynamicCard dynamicCard in
    if (0 <? length images)%nat then
      try_catch
        (inWorld (call (AnalyzeImages (map img_url images))) ;;
         let* analysed := answer (analysisResult remote) in
         ret (Some analysed))
        (λ _, ret None)
    else ret None
  else ret (Some ([defaultCloud], commentText cfg)).

(** The tentative check-in of [postComment]; the result is [userStats]. *)
Definition saveCheckIn (remote : Remote) (dynamicCard : DynamicCardItem)
    (dynamicData : option DynamicData) (authorId : option string)
    (cloudTypes : list CloudType) (commentText : string)
  : M (World * Locals) (option UserStats) :=
  match truthyStr authorId with
  | Some a =>
      if (0 <? length cloudTypes)%nat then
        try_catch
          (let images := checkImagesInDynamicCard dynamicCard in
           let authorName :=
             match dynamicData ≫= extractAuthorName with
             | Some n => n
             | None => "用户" +:+ a
             end in
           let checkInRecord :=
             {| dynamicId := id_str dynamicCard;
                timestamp := clockNow remote;
                cloudTypes := cloudTypes;
                imageCount := Z.of_nat (length images);
                analysis := commentText |} in
           inWorld (call (RecordCheckIn a authorName checkInRecord) ;;
                    liftDB (CloudDatabase.recordCheckIn
                              a authorName checkInRecord)) ;;
           setRecordSaved true ;;
           let* userStats := inWorld (liftDB (CloudDatabase.getUserStats a)) in
           ret userStats)
          (λ _, ret None)
      else ret None
  | None => ret None
  end.

(** The check-in picture of [postComment]; the result is [imageInfo]. *)
Definition renderCheckInImage (cfg : Config) (remote : Remote)
    (userStats : option UserStats) : M (World * Locals) (option ImageInfo) :=
  match userStats with
  | Some stats =>
      if enableCheckInImage cfg then
        inWorld (call (GenerateCheckInImage stats)) ;;
        ret (checkInImage remote)
      else ret None
  | None => ret None
  end.

(** The mark of the day after a successful post. *)
Definition markCommentedToday (remote : Remote) (authorId : option string)
  : M (World * Locals) unit :=
  match truthyStr authorId with
  | Some a =>
      try_catch
        (inWorld (call (RecordDailyComment a) ;;
                  liftDB (CloudDatabase.recordDailyComment
                            (clockToday remote) (clockNow remote) a)))
        (λ _, ret tt)
  | None => ret tt
  end.

Definition postComment (cfg : Config) (remote : Remote) (type : Z)
    (rid : string) (dynamicCard : DynamicCardItem)
    (dynamicData : option DynamicData) : M World bool :=
  withLocals {| authorId := None; recordSaved := false |}
    (try_catch
       (let* csrf := answer (getCsrfToken (cookie cfg)) in
        let authorId := dynamicData ≫= extractAuthorId in
        setAuthorId authorId ;;
        let* analysed := analyseClouds cfg remote dynamicCard in
        match analysed with
        | None => ret false
        | Some (cloudTypes, commentText) =>
            let* userStats :=
              saveCheckIn remote dynamicCard dynamicData authorId
                          cloudTypes commentText in
            let* imageInfo := renderCheckInImage cfg remote userStats in
            inWorld (call (AddComment rid type commentText imageInfo)) ;;
            let* code := answer (postCode remote) in
            if (code =? 0)%Z then
              markCommentedToday remote authorId ;;
              ret true
            else
              rollbackIfSaved ;;
              ret false
        end)
       (λ _, rollbackIfSaved ;; ret false)).

(** *** [checkIfUserCommentedAndPost] *)

(** The two nested loops over the replies and their sub-replies. *)
Definition alreadyCommented (uidToMonitor : string)
    (comments : list CommentReply) : bool :=
  existsb (λ comment,
             String.eqb (member_mid comment) uidToMonitor
             || match replies comment with
                | Some subReplies =>
                    existsb (λ subReply,
                               String.eqb (sub_member_mid subReply) uidToMonitor)
                            subReplies
                | None => false
                end)
          comments.

Definition checkIfUserCommentedAndPost (cfg : Config) (remote : Remote)
    (type : Z) (rid : string) (dynamicCard : DynamicCardItem)
    (dynamicData : option DynamicData) : M World bool :=
  let images := checkImagesInDynamicCard dynamicCard in
  if (length images =? 0)%nat then ret true
  else
    let* hasCommentedToday :=
      match truthyStr (dynamicData ≫= extractAuthorId) with
      | Some a =>
          liftDB (CloudDatabase.hasUserCommentedToday (clockToday remote) a)
      | None => ret false
      end in
    if hasCommentedToday then ret true
    else
      try_catch
        (call (GetComments rid type) ;;
         let* comments := answer (commentReplies remote) in
         if match comments with
            | Some rs => alreadyCommented (uidToMonitor cfg) rs
            | None => false
            end
         then ret true
         else postComment cfg remote type rid dynamicCard dynamicData)
        (λ _, ret false).

(** *** [processAtMessage] *)

Definition fetchDynamicData (remote : Remote) (uri dynamicId : string)
  : M World (option DynamicData) :=
  let* fromOpus :=
    if includes "/opus/" uri then
      try_catch
        (call (GetOpusDetail dynamicId) ;; answer (opusDetail remote))
        (λ _, ret None)
    else ret None in
  match fromOpus with
  | Some dd => ret (Some dd)
  | None =>
      try_catch
        (call (GetDynamicDetails dynamicId) ;; answer (generalDetail remote))
        (λ _, ret None)
  end.

Definition isStale (remote : Remote) (dynamicData : DynamicData) : bool :=
  match createTimeOf dynamicData with
  | Some createTime => (oneDayMs <? clockNow remote - createTime)%Z
  | None => false
  end.

(** The object literal [dynamicCard] of [processAtMessage]. *)
Definition dynamicCardOf (atMessage : AtMessage) (dynamicId : string)
    (dynamicData : DynamicData) : DynamicCardItem :=
  let fallback :=
    {| comment_type := Some (business_id (item atMessage));
       rid_str := Some dynamicId;
       basic_times := mkTimeFields None None None None None |} in
  {| id_str := dynamicId;
     basic := Some (default fallback (dd_basic dynamicData));
     modules := dd_modules dynamicData |}.

Definition processAtMessage (cfg : Config) (remote : Remote)
    (atMessage : AtMessage) : M World unit :=
  try_catch
    (let uri := uri (item atMessage) in
     match resolveUri uri with
     | Unresolved sentinel =>
         recordProcessed atMessage sentinel (clockNow remote)
     | Resolved dynamicId =>
         let* fetched := fetchDynamicData remote uri dynamicId in
         match fetched with
         | None => ret tt
         | Some dynamicData =>
             if isStale remote dynamicData then
               recordProcessed atMessage dynamicId (clockNow remote)
             else
               let dynamicCard :=
                 dynamicCardOf atMessage dynamicId dynamicData in
               let commentType :=
                 default (business_id (item atMessage))
                   (truthyNum (basic dynamicCard ≫= comment_type)) in
               let commentRid :=
                 default dynamicId
                   (truthyStr (basic dynamicCard ≫= rid_str)) in
               let* success :=
                 checkIfUserCommentedAndPost cfg remote commentType
                   commentRid dynamicCard (Some dynamicData) in
               if success
               then recordProcessed atMessage dynamicId (clockNow remote)
               else ret tt
         end
     end)
    (λ _, ret tt).

(** *** [checkAndComment] *)

(** The body of the [for] loop, with the two counters of the closing log
    line ([processedCount], [skippedCount]). *)
Definition handleAtMessage (cfg : Config) (counts : nat * nat)
    (entry : AtMessage * Remote) : M World (nat * nat) :=
  let '(atMessage, remote) := entry in
  let '(processedCount, skippedCount) := counts in
  let* isProcessed :=
    liftDB (CloudDatabase.isAtMessageProcessed (at_id atMessage)) in
  if isProcessed then ret (processedCount, S skippedCount)
  else
    processAtMessage cfg remote atMessage ;;
    ret (S processedCount, skippedCount).

Fixpoint handleAtMessages (cfg : Config) (counts : nat * nat)
    (entries : list (AtMessage * Remote)) : M World (nat * nat) :=
  match entries with
  | [] => ret counts
  | entry :: rest =>
      let* counts' := handleAtMessage cfg counts entry in
      handleAtMessages cfg counts' rest
  end.

(** One cycle. [feed] is the answer of the feed API
    ([response.data?.data?.items]), each message paired with what the
    outside world answers while it is processed. The result holds the
    counters of the log line when the loop has run. *)
Definition checkAndComment (cfg : Config)
    (feed : result (option (list (AtMessage * Remote))))
  : M World (option (nat * nat)) :=
  λ w,
    if isProcessing w then (Ok None, w)
    else
      (setProcessing true ;;
       try_finally
         (try_catch
            (call GetAtFeed ;;
             let* atMessages := answer feed in
             match atMessages with
             | None | Some [] => ret None
             | Some entries =>
                 let* counts := handleAtMessages cfg (0, 0)%nat entries in
                 ret (Some counts)
             end)
            (λ _, ret None))
         (setProcessing false)) w.

End Main.

Import CloudDatabase Main.

(** ** Vocabulary of the statements *)

(** Number of entries of a record's cloud-type list that carry [label]. *)
Definition countLabel (label : string) (clouds : list CloudType) : nat :=
  length (filter (λ cloud, type cloud = label) clouds).

(** A label that names no member of [Object.prototype]: reading it finds
    a key of the histogram itself, or nothing. *)
Definition ownLabel (label : string) : Prop := Js.prototype_get label = None.

(** Every label of a record is such a label. *)
Definition ownLabels (record : CheckInRecord) : Prop :=
  ∀ cloud, cloud ∈ cloudTypes record → ownLabel (type cloud).

(** The two [forEach] bodies, of [recordCheckIn] and of
    [rollbackLastCheckIn], seen from one label of the histogram: [x] is
    the entry of the label, [None] when the label is no key. *)
Definition propertyOf (label : string) (x : option Count) : Property :=
  match x with
  | Some count => Own count
  | None =>
      match Js.prototype_get label with
      | Some inherited => FromPrototype inherited
      | None => Undefined
      end
  end.

Definition setEntry (label : string) (x : option Count) (count : Count)
  : option Count :=
  match x with
  | Some _ => Some count
  | None => if bool_decide (label = "__proto__") then None else Some count
  end.

Definition incrementEntry (label : string) (x : option Count) : option Count :=
  setEntry label x (Js.plus_one (Js.or_zero (propertyOf label x))).

Definition decrementEntry (label : string) (x : option Count) : option Count :=
  if Js.truthy_property (propertyOf label x) then
    let x' := setEntry label x (Js.minus_one (propertyOf label x)) in
    if Js.le_zero (propertyOf label x') then None else x'
  else x.

(** An entry that is no key, or a strictly positive number. *)
Definition positiveEntry (x : option Count) : Prop :=
  match x with
  | None => True
  | Some (CountNumber n) => (0 < n)%Z
  | Some _ => False
  end.

(** The number under an entry; 0 when there is none. *)
Definition numberOf (x : option Count) : Z :=
  match x with
  | Some (CountNumber n) => n
  | _ => 0%Z
  end.

(** The entry of a count [n] after [k] decrements: a count that reaches
    zero loses its key. *)
Definition decreased (n : Z) (k : nat) : option Count :=
  if (n - Z.of_nat k <=? 0)%Z then None
  else Some (CountNumber (n - Z.of_nat k)).

(** What the aggregator keeps true of the entry of a label: the store
    holds no [NaN], and under a label that names no member of
    [Object.prototype] it holds no key or a strictly positive number. *)
Definition soundEntry (label : string) (x : option Count) : Prop :=
  x ≠ Some CountNaN ∧ (ownLabel label → positiveEntry x).

Definition soundCounts (stats : gmap string Count) : Prop :=
  ∀ label, soundEntry label (stats !! label).

(** The two mutating operations of the statistics aggregator, and a run of
    them on the store; the answers of the calls are dropped. *)
Inductive StatsOp : Type :=
  | Append (userId userName : string) (record : CheckInRecord)
  | RollbackLast (userId : string).

Definition runOp (op : StatsOp) : M (gmap string value) unit :=
  match op with
  | Append userId userName record => recordCheckIn userId userName record
  | RollbackLast userId => rollbackLastCheckIn userId ;; ret tt
  end.

Fixpoint runOps (ops : list StatsOp) (db : gmap string value)
  : gmap string value :=
  match ops with
  | [] => db
  | op :: ops => runOps ops (snd (runOp op db))
  end.

Definition statsSound (userId : string) (db : gmap string value) : Prop :=
  ∀ s, db !! userKey userId = Some (VUser s) → soundCounts (cloudTypeStats s).

(** The calendar days that [new Date()] can report. *)
Definition validDate (d : LocalDate) : Prop :=
  (0 ≤ getMonth d ≤ 11)%Z ∧ (1 ≤ getDate d ≤ 31)%Z.

(** [n.toString().padStart(2, '0')], as [dateKey] writes months and days. *)
Definition twoDigits (n : Z) : string := Js.padStart 2 "0"%char (Js.toString n).

(** [totalCheckIns] of a user as [getUserStats] reports it; 0 for a user
    without statistics. *)
Definition totalActionsOf (userId : string) (db : gmap string value) : Z :=
  match fst (getUserStats userId db) with
  | Ok (Some s) => totalCheckIns s
  | _ => 0%Z
  end.

(** The ledger records, the daily marks, the totals of two stores agree. *)
Definition sameLedger (db db' : gmap string value) : Prop :=
  ∀ n, db' !! processedKey n = db !! processedKey n.

Definition sameDaily (db db' : gmap string value) : Prop :=
  ∀ a d, db' !! dailyKey a d = db !! dailyKey a d.

Definition sameTotals (db db' : gmap string value) : Prop :=
  ∀ u, totalActionsOf u db' = totalActionsOf u db.

(** [w'] is reached from [w] by the calls [evs], made in this order; the
    flag [isProcessing] is as before. *)
Definition afterCalls (w w' : World) (evs : list Call) : Prop :=
  calls w' = calls w ++ evs ∧ isProcessing w' = isProcessing w.

(** ** Vocabulary of the further properties *)

(** Every character of a string passes the test. *)
Fixpoint string_all (p : ascii → bool) (s : string) : bool :=
  match s with
  | EmptyString => true
  | String c s' => p c && string_all p s'
  end.

(** The characters of a printed integer: the digits and the minus sign. *)
Definition isNumeral (c : ascii) : bool :=
  Main.isDigit c || Ascii.eqb c "-".

Definition notColon (c : ascii) : bool := negb (Ascii.eqb c ":").

(** The user that an operation of the aggregator concerns. *)
Definition opUser (op : StatsOp) : string :=
  match op with
  | Append userId _ _ => userId
  | RollbackLast userId => userId
  end.

(** Number of [recordCheckIn] calls for [userId] in a run. *)
Fixpoint appendsFor (userId : string) (ops : list StatsOp) : nat :=
  match ops with
  | [] => 0
  | Append u _ _ :: ops =>
      (if decide (u = userId) then 1 else 0) + appendsFor userId ops
  | RollbackLast _ :: ops => appendsFor userId ops
  end.

(** The aggregates of a list of records: images, and entries per label. *)
Definition sumImages (records : list CheckInRecord) : Z :=
  foldr (λ r acc, (imageCount r + acc)%Z) 0%Z records.

Definition labelTotal (label : string) (records : list CheckInRecord) : nat :=
  foldr (λ r acc, (countLabel label (cloudTypes r) + acc)%nat) 0%nat records.

(** A histogram holds no key for a count of zero. *)
Definition entryOf (k : nat) : option Count :=
  match k with
  | O => None
  | S _ => Some (CountNumber (Z.of_nat k))
  end.

(** The statistics are the aggregates of the stored records; of the
    histogram, under the labels that name no member of
    [Object.prototype]. *)
Definition aggregatesRecords (s : UserStats) : Prop :=
  totalCheckIns s = Z.of_nat (length (checkInRecords s))
  ∧ totalImages s = sumImages (checkInRecords s)
  ∧ ∀ label,
      ownLabel label →
      cloudTypeStats s !! label = entryOf (labelTotal label (checkInRecords s)).

(** [a] is the author of the dynamic of a notification: the link resolves
    to a dynamic id, the fetch of this dynamic answers a dynamic, and
    [extractAuthorId] reads [a] from it. *)
Definition fetchedAuthor (remote : Remote) (atMessage : AtMessage)
    (w : World) (a : string) : Prop :=
  ∃ dynamicId dynamicData,
    resolveUri (uri (item atMessage)) = Resolved dynamicId
    ∧ fst (fetchDynamicData remote (uri (item atMessage)) dynamicId w)
      = Ok (Some dynamicData)
    ∧ extractAuthorId dynamicData = Some a.

(** [lastCheckIn] is the time of the newest stored record. *)
Definition lastIsNewest (s : UserStats) : Prop :=
  lastCheckIn s = match last (checkInRecords s) with
                  | Some r => timestamp r
                  | None => firstCheckIn s
                  end.

Definition notSemicolon (c : ascii) : bool := negb (Ascii.eqb c ";").

(** A text that is empty or starts with a character failing the test. *)
Definition stopsAt (p : ascii → bool) (s : string) : Prop :=
  match s with
  | EmptyString => True
  | String c _ => p c = false
  end.

Definition imageTypes : list string :=
  ["album_pic"; "content_pic"; "opus_pic"; "draw_pic"].

(** The calls of a run, sorted by kind. *)
Definition isPost (c : Call) : bool :=
  match c with AddComment _ _ _ _ => true | _ => false end.

Definition isLedgerWrite (c : Call) : bool :=
  match c with RecordProcessedAtMessage _ => true | _ => false end.

(** The calls that read from the remote services and change nothing. *)
Definition isQuery (c : Call) : bool :=
  match c with
  | GetAtFeed | GetOpusDetail _ | GetDynamicDetails _ | GetComments _ _
  | AnalyzeImages _ | GenerateCheckInImage _ => true
  | _ => false
  end.

(** The tentative check-in of a run of [postComment], if one was made:
    the call, and the store after it. *)
Definition checkInCall (checkIn : option (string * string * CheckInRecord))
  : list Call :=
  match checkIn with
  | Some (a, n, record) => [RecordCheckIn a n record]
  | None => []
  end.

Definition afterCheckIn (checkIn : option (string * string * CheckInRecord))
    (db : gmap string value) : gmap string value :=
  match checkIn with
  | Some (a, n, record) => snd (recordCheckIn a n record db)
  | None => db
  end.

(** The mark of the day that a successful post leaves for a known author. *)
Definition dailyMarkCall (a0 : option string) : list Call :=
  match a0 with
  | Some a => [RecordDailyComment a]
  | None => []
  end.

Definition afterDailyMark (remote : Remote) (a0 : option string)
    (db : gmap string value) : gmap string value :=
  match a0 with
  | Some a => snd (recordDailyComment (clockToday remote) (clockNow remote) a db)
  | None => db
  end.

(** The compensation of a failed post: the rollback of a check-in that was
    saved. *)
Definition rollbackCall (saved : bool) (a0 : option string) : list Call :=
  match saved, a0 with
  | true, Some a => [RollbackLastCheckIn a]
  | _, _ => []
  end.

Definition afterRollback (saved : bool) (a0 : option string)
    (db : gmap string value) : gmap string value :=
  match saved, a0 with
  | true, Some a => snd (rollbackLastCheckIn a db)
  | _, _ => db
  end.

(** The key of the user holds statistics, or nothing: [recordCheckIn]
    then succeeds. Every writer of the store keeps it so. *)
Definition statsReadable (a : string) (db : gmap string value) : Prop :=
  ∃ prior, db !! userKey a = VUser <$> prior.

(** The ledger record that [processAtMessage] writes for a notification. *)
Definition ledgerRecord (atMessage : AtMessage) (dynamicId : string)
    (now : Z) : ProcessedAtMessage :=
  {| atMessageId := at_id atMessage;
     pm_dynamicId := dynamicId;
     processedAt := now;
     fromUser := nickname (user atMessage);
     pm_uri := uri (item atMessage) |}.

Definition afterLedgerWrite (pm : ProcessedAtMessage)
    (db : gmap string value) : gmap string value :=
  <[processedKey (atMessageId pm) := VProcessed pm]> db.


(** The three sentinels that stand for the dynamic id in the ledger record
    of a notification whose link cannot be read. *)
Definition sentinels : list string :=
  ["invalid_uri"; "unparseable_uri"; "unparseable_opus_uri"].

(** The author of the dynamic has no mark for the day of the run. *)
Definition gateOpen (remote : Remote) (dd : DynamicData)
    (db : gmap string value) : Prop :=
  ∀ a, extractAuthorId dd = Some a →
       db !! dailyKey a (clockToday remote) = None.

(** The comment type and the thread id that [processAtMessage] posts to. *)
Definition commentTypeOf (atMessage : AtMessage) (dynamicId : string)
    (dd : DynamicData) : Z :=
  default (business_id (item atMessage))
    (truthyNum (basic (dynamicCardOf atMessage dynamicId dd) ≫= comment_type)).

Definition commentRidOf (atMessage : AtMessage) (dynamicId : string)
    (dd : DynamicData) : string :=
  default dynamicId
    (truthyStr (basic (dynamicCardOf atMessage dynamicId dd) ≫= rid_str)).

(** The monitored account has not replied in the thread. *)
Definition notYetReplied (cfg : Config) (remote : Remote) : Prop :=
  match commentReplies remote with
  | Ok (Some rs) => alreadyCommented (uidToMonitor cfg) rs = false
  | Ok None => True
  | Throw _ => False
  end.

(** The order of a ranking: no entry has more check-ins than one listed
    before it. *)
Definition rankedBefore (a b : RankedUser) : Prop :=
  (rank_checkIns b ≤ rank_checkIns a)%Z.

(** The entry of a user in the ranking. *)
Definition rankingEntry (userId : string) (s : UserStats) : RankedUser :=
  {| rank_userId := userId;
     rank_checkIns := totalCheckIns s;
     rank_cloudTypes := Z.of_nat (size (cloudTypeStats s)) |}.

(** Every [user:] key of the store holds statistics. *)
Definition usersReadable (db : gmap string value) : Prop :=
  ∀ key v, db !! key = Some v → String.prefix "user:" key = true →
           ∃ s, v = VUser s.

(** What an entry of the store contributes to the ranking. *)
Definition userEntry (entry : string * value) : option RankedUser :=
  match entry with
  | (key, VUser s) =>
      if String.prefix "user:" key
      then Some (rankingEntry (Js.remove_first "user:" key) s)
      else None
  | _ => None
  end.

(** The writers of [cloudDB], and a run of them on the store. *)
Inductive WriterOp : Type :=
  | StatsWrite (op : StatsOp)
  | DailyWrite (today : LocalDate) (now : Z) (authorId : string)
  | LedgerWrite (m : ProcessedAtMessage)
  | LedgerDelete (atMessageId : Z).

Definition runWriter (op : WriterOp) : M (gmap string value) unit :=
  match op with
  | StatsWrite op => runOp op
  | DailyWrite today now authorId => recordDailyComment today now authorId
  | LedgerWrite m => recordProcessedAtMessage m
  | LedgerDelete atMessageId => deleteProcessedAtMessage atMessageId ;; ret tt
  end.

(** The store after the run, and whether every call of it has returned. *)
Fixpoint runWriters (ops : list WriterOp) (db : gmap string value)
  : gmap string value :=
  match ops with
  | [] => db
  | op :: ops => runWriters ops (snd (runWriter op db))
  end.

Fixpoint allReturn (ops : list WriterOp) (db : gmap string value) : Prop :=
  match ops with
  | [] => True
  | op :: ops =>
      fst (runWriter op db) = Ok tt ∧ allReturn ops (snd (runWriter op db))
  end.

(** Every value of the store has the shape that belongs to its key. *)
Definition wellTyped (db : gmap string value) : Prop :=
  ∀ key v, db !! key = Some v →
    match v with
    | VUser _ => ∃ u, key = userKey u
    | VRecord r => ∃ u, key = recordKey u (timestamp r)
    | VProcessed m => key = processedKey (atMessageId m)
    | VDaily d => ∃ day, key = dailyKey (dc_authorId d) day
                         ∧ dc_date d = dateKey day
    end.

(** The order of the list of processed ids: the largest (newest) first. *)
Definition newestFirst (a b : Z) : Prop := (b ≤ a)%Z.

(** What an entry of the store contributes to the list of processed ids. *)
Definition processedId (entry : string * value) : option Z :=
  if String.prefix "processed_at:" (fst entry)
  then Js.parseInt (Js.remove_first "processed_at:" (fst entry))
  else None.

(** ** Sample data *)

Definition sampleCloud : CloudType :=
  {| type := "积云"; confidence := QArith_base.Qmake 9 10; description := None |}.

Definition sampleRecord (ts : Z) : CheckInRecord :=
  {| dynamicId := "9"; timestamp := ts; cloudTypes := [sampleCloud];
     imageCount := 1; analysis := "..." |}.

(** The statistics of a user after [n] check-ins with [sampleRecord 1]. *)
Definition statsWith (n : nat) : UserStats :=
  {| userName := "old"; totalCheckIns := Z.of_nat n; totalImages := Z.of_nat n;
     cloudTypeStats :=
       if n is O then ∅ else {[ "积云" := CountNumber (Z.of_nat n) ]};
     firstCheckIn := 1; lastCheckIn := 1;
     checkInRecords := replicate n (sampleRecord 1) |}.

(** A record whose analysis names a cloud type [constructor]. *)
Definition constructorCloud : CloudType :=
  {| type := "constructor"; confidence := QArith_base.Qmake 9 10;
     description := None |}.

Definition constructorRecord (ts : Z) : CheckInRecord :=
  {| dynamicId := "9"; timestamp := ts; cloudTypes := [constructorCloud];
     imageCount := 1; analysis := "..." |}.

Definition checkIns (n : nat) : list StatsOp :=
  replicate n (Append "U1" "old" (sampleRecord 1)).

Definition threeCheckIns : list StatsOp :=
  [ Append "U1" "a" (sampleRecord 1);
    Append "U1" "a" (sampleRecord 2);
    Append "U1" "a" (sampleRecord 3) ].

Definition sampleOps : list StatsOp :=
  [ Append "U1" "a" (sampleRecord 1);
    Append "U1" "b" (sampleRecord 2);
    RollbackLast "U1" ].

Definition dayD : LocalDate :=
  {| getFullYear := 2025; getMonth := 0; getDate := 31 |}.

Definition dayAfterD : LocalDate :=
  {| getFullYear := 2025; getMonth := 1; getDate := 1 |}.

Definition sampleConfig : Config :=
  {| cookie := "SESSDATA=abc; bili_jct=0123abcd; sid=x";
     uidToMonitor := "3493260607622030";
     commentText := "好漂亮的☁️！";
     enableCloudAnalysis := true;
     enableCheckInImage := false |}.

Definition sampleMessage : AtMessage :=
  {| at_id := 42;
     user := {| nickname := "alice" |};
     item := {| business_id := 11; title := "clouds";
                uri := "https://www.bilibili.com/opus/9" |} |}.

Definition noTimes : TimeFields := mkTimeFields None None None None None.

Definition sampleAuthor : ModuleAuthor :=
  {| mid := Some (IdNum 1001); uid := None; name := Some "bob";
     pub_ts := Some 1738292800%Z |}.

(** A dynamic of the author 1001 that carries the album pictures [pics]. *)
Definition sampleData (pics : list Pic) : DynamicData :=
  {| dd_times := noTimes;
     dd_basic := None;
     dd_modules :=
       Some (ModulesArray
               [ {| module_type := Some "MODULE_TYPE_AUTHOR";
                    module_top_pics := None;
                    module_content_paragraphs := None;
                    module_dynamic_major := None;
                    module_author := Some sampleAuthor |};
                 {| module_type := Some "MODULE_TYPE_TOP";
                    module_top_pics := Some pics;
                    module_content_paragraphs := None;
                    module_dynamic_major := None;
                    module_author := None |} ]);
     dd_uid := None;
     dd_mid := None;
     dd_uname := None |}.

(** The answers of the scenario of the specification: the dynamic is two
    hours old, nobody has replied, the analysis finds one cloud type, and
    the post answers [code]. *)
Definition sampleRemote (pics : list Pic) (code : result Z) : Remote :=
  {| clockNow := 1738300000000;
     clockToday := dayD;
     opusDetail := Ok (Some (sampleData pics));
     generalDetail := Throw (Failure "not asked");
     commentReplies := Ok (Some []);
     analysisResult := Ok ([sampleCloud], "...");
     checkInImage := None;
     postCode := code |}.

Definition onePic : list Pic := [ {| url := Some "https://i0.hdslb.com/1.jpg" |} ].

Definition emptyWorld : World :=
  {| db := ∅; calls := []; isProcessing := false |}.

(** A world whose ledger holds the notification 42. *)
Definition processedWorld : World :=
  {| db := {[ processedKey 42 :=
                VProcessed (mkProcessedAtMessage 42 "9" 1738300000000 "alice"
                              "https://www.bilibili.com/opus/9") ]};
     calls := [];
     isProcessing := false |}.

(** A notification whose link is no link to a dynamic. *)
Definition videoMessage : AtMessage :=
  {| at_id := 7;
     user := {| nickname := "alice" |};
     item := {| business_id := 11; title := "clouds";
                uri := "https://www.bilibili.com/video/BV1" |} |}.

(** A world in which the author 1001 has the mark of the day [dayD]. *)
Definition markedWorld : World :=
  {| db := {[ dailyKey "1001" dayD :=
                VDaily (mkDailyComment "1001" (dateKey dayD) 1738290000000) ]};
     calls := [];
     isProcessing := false |}.

(** A configuration whose cookie holds no CSRF token. *)
Definition noCsrfConfig : Config :=
  {| cookie := "SESSDATA=abc; sid=x";
     uidToMonitor := "3493260607622030";
     commentText := "好漂亮的☁️！";
     enableCloudAnalysis := true;
     enableCheckInImage := false |}.

(** Answers of the remote services when no detail of the dynamic can be
    fetched. *)
Definition noDetailRemote : Remote :=
  {| clockNow := 1738300000000;
     clockToday := dayD;
     opusDetail := Throw (Failure "HTTP 500");
     generalDetail := Ok None;
     commentReplies := Ok (Some []);
     analysisResult := Ok ([sampleCloud], "...");
     checkInImage := None;
     postCode := Ok 0%Z |}.

(** ** Proof tools *)

Ltac unfold_monad :=
  unfold try_catch, bind, ret, throw,
    CloudDatabase.level_get, CloudDatabase.level_put, CloudDatabase.level_del.

Ltac unfold_world :=
  unfold withLocals, inWorld, getLocals, setAuthorId, setRecordSaved,
    liftDB, call, answer, setProcessing, try_finally.

(** ** Facts about the JavaScript primitives *)

Section JsFacts.

(** The text of a count begins with [f] or with a bracket: it is not
    empty, so it is truthy, and it is no numeral, so [- 1] makes [NaN] of
    it. *)
Lemma count_text_first source ones :
  ∃ c rest,
    Js.count_text source ones = String c rest
    ∧ (c = "f"%char ∨ c = "["%char).
Proof.
  destruct source as [member|]; eexists _, _; (split; [reflexivity|]); auto.
Qed.

Lemma count_text_truthy source ones :
  Js.truthy_str (Js.count_text source ones) = true.
Proof. by destruct (count_text_first source ones) as (c & rest & -> & _). Qed.

Lemma slice_from_neg_short {A} (k : nat) (arr : list A) :
  (length arr ≤ k)%nat → Js.slice_from (- Z.of_nat k) arr = arr.
Proof.
  intros Hlen. unfold Js.slice_from.
  destruct (Z.ltb_spec (- Z.of_nat k) 0).
  - replace (Z.to_nat _) with 0%nat by lia. done.
  - replace (Z.to_nat _) with 0%nat by lia. done.
Qed.

Lemma slice_from_neg_drop {A} (k : nat) (arr : list A) :
  (0 < k)%nat →
  Js.slice_from (- Z.of_nat k) arr = drop (length arr - k) arr.
Proof.
  intros Hk. unfold Js.slice_from.
  destruct (Z.ltb_spec (- Z.of_nat k) 0); [|lia].
  f_equal. lia.
Qed.

Lemma slice_from_zero {A} (arr : list A) : Js.slice_from 0 arr = arr.
Proof. unfold Js.slice_from. simpl. by rewrite Z.min_l by lia. Qed.

End JsFacts.

(** ** Facts about the keys of the store *)

Section Keys.
Lemma userKey_inj u1 u2 : userKey u1 = userKey u2 → u1 = u2.
Proof. unfold userKey. apply String.app_inj. Qed.

Lemma processedKey_inj n1 n2 : processedKey n1 = processedKey n2 → n1 = n2.
Proof.
  unfold processedKey, Js.toString. intros H.
  apply String.app_inj in H. by apply (inj pretty).
Qed.

Lemma userKey_recordKey u u' ts : userKey u ≠ recordKey u' ts.
Proof. discriminate. Qed.

Lemma userKey_processedKey u n : userKey u ≠ processedKey n.
Proof. discriminate. Qed.

Lemma userKey_dailyKey u a d : userKey u ≠ dailyKey a d.
Proof. discriminate. Qed.

Lemma recordKey_processedKey u ts n : recordKey u ts ≠ processedKey n.
Proof. discriminate. Qed.

Lemma recordKey_dailyKey u ts a d : recordKey u ts ≠ dailyKey a d.
Proof. discriminate. Qed.

Lemma processedKey_dailyKey n a d : processedKey n ≠ dailyKey a d.
Proof. discriminate. Qed.

End Keys.

(** ** The statistics aggregator: [recordCheckIn] *)

Section Append.
Lemma pushRecord_last_hundred records record :
  pushRecord records record
  = drop (length (records ++ [record]) - 100) (records ++ [record]).
Proof.
  unfold pushRecord.
  destruct (Nat.ltb_spec 100 (length (records ++ [record]))) as [Hlt|Hle].
  - by rewrite (slice_from_neg_drop 100) by lia.
  - replace (_ - 100)%nat with 0%nat by lia. done.
Qed.

Lemma pushRecord_snoc records record :
  pushRecord records record
  = drop (length records - 99) records ++ [record].
Proof.
  rewrite pushRecord_last_hundred, length_app. simpl.
  rewrite drop_app_le by lia. f_equal. f_equal. lia.
Qed.

Lemma pushRecord_length records record :
  (length (pushRecord records record) ≤ 100)%nat.
Proof. rewrite pushRecord_last_hundred, length_drop. lia. Qed.

Lemma recordCheckIn_run userId userName record (db : gmap string value)
    (prior : option UserStats) :
  db !! userKey userId = VUser <$> prior →
  recordCheckIn userId userName record db
  = (Ok tt,
     <[recordKey userId (timestamp record) := VRecord record]>
       (<[userKey userId :=
            VUser (applyCheckIn userName record
                     (default (initialStats userName record) prior))]> db)).
Proof.
  intros Hprior. unfold recordCheckIn. unfold_monad.
  rewrite Hprior. by destruct prior.
Qed.

Lemma getUserStats_lookup userId (db : gmap string value) :
  getUserStats userId db
  = (Ok (match db !! userKey userId with
         | Some (VUser s) => Some s
         | _ => None
         end), db).
Proof.
  unfold getUserStats. unfold_monad.
  by destruct (db !! userKey userId) as [[]|].
Qed.

End Append.

(** ** The histogram, label by label *)

Section Histogram.

Lemma countLabel_cons label cloud clouds :
  countLabel label (cloud :: clouds)
  = ((if decide (type cloud = label) then 1 else 0) + countLabel label clouds)%nat.
Proof.
  unfold countLabel. rewrite filter_cons.
  by destruct (decide (type cloud = label)).
Qed.

Lemma countLabel_positive label clouds :
  (0 < countLabel label clouds)%nat →
  ∃ cloud, cloud ∈ clouds ∧ type cloud = label.
Proof.
  induction clouds as [|cloud clouds IH]; [unfold countLabel; simpl; lia|].
  rewrite countLabel_cons.
  destruct (decide (type cloud = label)) as [Heq|Hne].
  - intros _. exists cloud. split; [apply list_elem_of_here|done].
  - intros Hpos. destruct (IH Hpos) as (c & Hc & Heq).
    exists c. split; [by apply list_elem_of_further|done].
Qed.

Lemma iter_succ {A} (f : A → A) n x : Nat.iter (S n) f x = f (Nat.iter n f x).
Proof. done. Qed.

Lemma iter_shift {A} (f : A → A) n x : Nat.iter n f (f x) = f (Nat.iter n f x).
Proof. induction n as [|n IH]; simpl; congruence. Qed.

Lemma object_get_entry (stats : gmap string Count) label :
  Js.object_get stats label = propertyOf label (stats !! label).
Proof. done. Qed.

Lemma object_set_entry (stats : gmap string Count) key count label :
  Js.object_set stats key count !! label
  = if decide (key = label) then setEntry key (stats !! key) count
    else stats !! label.
Proof.
  unfold Js.object_set, setEntry. case_decide as Heq.
  - subst label. destruct (stats !! key) eqn:Hkey.
    + by rewrite lookup_insert_eq.
    + case_bool_decide; [done|]. by rewrite lookup_insert_eq.
  - destruct (stats !! key); [by rewrite lookup_insert_ne|].
    case_bool_decide; [done|]. by rewrite lookup_insert_ne.
Qed.

Lemma incrementType_entry (stats : gmap string Count) cloud label :
  incrementType stats cloud !! label
  = if decide (type cloud = label) then incrementEntry label (stats !! label)
    else stats !! label.
Proof.
  unfold incrementType. cbn zeta. rewrite object_set_entry, object_get_entry.
  case_decide as Heq; [|done]. by subst label.
Qed.

Lemma decrementType_entry (stats : gmap string Count) cloud label :
  decrementType stats cloud !! label
  = if decide (type cloud = label) then decrementEntry label (stats !! label)
    else stats !! label.
Proof.
  unfold decrementType, decrementEntry. cbn zeta.
  rewrite !object_get_entry, object_set_entry, decide_True by done.
  case_decide as Heq.
  - subst label. destruct (Js.truthy_property _); [|done].
    destruct (Js.le_zero _).
    + by rewrite lookup_delete_eq.
    + by rewrite object_set_entry, decide_True.
  - destruct (Js.truthy_property _); [|done].
    destruct (Js.le_zero _).
    + rewrite lookup_delete_ne by done.
      by rewrite object_set_entry, decide_False.
    + by rewrite object_set_entry, decide_False.
Qed.

Lemma foldl_incrementType_entry clouds : ∀ (stats : gmap string Count) label,
  foldl incrementType stats clouds !! label
  = Nat.iter (countLabel label clouds) (incrementEntry label) (stats !! label).
Proof.
  induction clouds as [|cloud clouds IH]; intros stats label; [done|].
  simpl. rewrite IH, incrementType_entry, countLabel_cons.
  case_decide; [|done]. simpl. by rewrite iter_shift.
Qed.

Lemma foldl_decrementType_entry clouds : ∀ (stats : gmap string Count) label,
  foldl decrementType stats clouds !! label
  = Nat.iter (countLabel label clouds) (decrementEntry label) (stats !! label).
Proof.
  induction clouds as [|cloud clouds IH]; intros stats label; [done|].
  simpl. rewrite IH, decrementType_entry, countLabel_cons.
  case_decide; [|done]. simpl. by rewrite iter_shift.
Qed.

(** The entry of a label after [recordCheckIn] and after
    [rollbackLastCheckIn]. *)
Lemma applyCheckIn_entry newName record s label :
  cloudTypeStats (applyCheckIn newName record s) !! label
  = Js.json_count
    <$> Nat.iter (countLabel label (cloudTypes record)) (incrementEntry label)
          (cloudTypeStats s !! label).
Proof.
  unfold applyCheckIn. cbn [cloudTypeStats].
  by rewrite lookup_fmap, foldl_incrementType_entry.
Qed.

Lemma applyRollback_entry lastRecord s label :
  cloudTypeStats (applyRollback lastRecord s) !! label
  = Js.json_count
    <$> Nat.iter (countLabel label (cloudTypes lastRecord))
          (decrementEntry label) (cloudTypeStats s !! label).
Proof.
  unfold applyRollback. cbn [cloudTypeStats].
  by rewrite lookup_fmap, foldl_decrementType_entry.
Qed.

(** *** Labels that name no member of [Object.prototype] *)

Lemma positiveEntry_number x :
  positiveEntry x →
  x = None ∨ ∃ n, x = Some (CountNumber n) ∧ (0 < n)%Z.
Proof. destruct x as [[n| | |]|]; simpl; naive_solver. Qed.

Lemma json_count_positive x : positiveEntry x → Js.json_count <$> x = x.
Proof. by intros [->|(n & -> & _)]%positiveEntry_number. Qed.

Lemma incrementEntry_own label x :
  ownLabel label → positiveEntry x →
  incrementEntry label x = Some (CountNumber (numberOf x + 1)).
Proof.
  unfold ownLabel. intros Hown [->|(n & -> & Hn)]%positiveEntry_number.
  - unfold incrementEntry, propertyOf, setEntry. rewrite Hown. cbn.
    case_bool_decide as Hp; [|done]. subst label. done.
  - unfold incrementEntry, propertyOf, setEntry, Js.or_zero. cbn.
    unfold Js.truthy. destruct (Z.eqb_spec n 0); [lia|]. done.
Qed.

Lemma iter_incrementEntry_own label k x :
  ownLabel label → positiveEntry x →
  Nat.iter k (incrementEntry label) x
  = match k with
    | O => x
    | S _ => Some (CountNumber (numberOf x + Z.of_nat k))
    end.
Proof.
  intros Hown Hx. induction k as [|k IH]; [done|].
  rewrite iter_succ, IH. destruct k as [|k].
  - rewrite incrementEntry_own by done. done.
  - rewrite incrementEntry_own; [|done|].
    + cbn [numberOf]. do 2 f_equal. lia.
    + cbn. apply positiveEntry_number in Hx as [->|(n & -> & Hn)]; cbn; lia.
Qed.

Lemma iter_incrementEntry_positive label k x :
  ownLabel label → positiveEntry x →
  positiveEntry (Nat.iter k (incrementEntry label) x).
Proof.
  intros Hown Hx. rewrite iter_incrementEntry_own by done.
  destruct k as [|k]; [done|]. cbn.
  apply positiveEntry_number in Hx as [->|(n & -> & Hn)]; cbn; lia.
Qed.

Lemma decrementEntry_own_None label :
  ownLabel label → decrementEntry label None = None.
Proof.
  unfold ownLabel, decrementEntry, propertyOf. by intros ->.
Qed.

Lemma decrementEntry_own_number label n :
  (0 < n)%Z → decrementEntry label (Some (CountNumber n)) = decreased n 1.
Proof.
  intros Hn. unfold decrementEntry, decreased. cbn. unfold Js.truthy.
  destruct (Z.eqb_spec n 0); [lia|]. cbn. done.
Qed.

Lemma iter_decrementEntry_own label k n :
  ownLabel label → (0 < n)%Z →
  Nat.iter k (decrementEntry label) (Some (CountNumber n)) = decreased n k.
Proof.
  intros Hown Hn. induction k as [|k IH].
  - unfold decreased. change (Z.of_nat 0) with 0%Z. rewrite Z.sub_0_r.
    by destruct (Z.leb_spec n 0); [lia|].
  - rewrite iter_succ, IH. unfold decreased.
    destruct (Z.leb_spec (n - Z.of_nat k) 0).
    + rewrite decrementEntry_own_None by done.
      destruct (Z.leb_spec (n - Z.of_nat (S k)) 0); [done|lia].
    + rewrite decrementEntry_own_number by lia. unfold decreased.
      replace (n - Z.of_nat k - Z.of_nat 1)%Z with (n - Z.of_nat (S k))%Z
        by lia.
      done.
Qed.

Lemma iter_decrementEntry_own_None label k :
  ownLabel label → Nat.iter k (decrementEntry label) None = None.
Proof.
  intros Hown. induction k as [|k IH]; [done|].
  rewrite iter_succ, IH. by apply decrementEntry_own_None.
Qed.

Lemma decreased_positive n k : positiveEntry (decreased n k).
Proof.
  unfold decreased. destruct (Z.leb_spec (n - Z.of_nat k) 0); cbn; [done|lia].
Qed.

Lemma iter_decrementEntry_positive label k x :
  ownLabel label → positiveEntry x →
  positiveEntry (Nat.iter k (decrementEntry label) x).
Proof.
  intros Hown [->|(n & -> & Hn)]%positiveEntry_number.
  - by rewrite iter_decrementEntry_own_None.
  - rewrite iter_decrementEntry_own by done. apply decreased_positive.
Qed.

(** Undoing the increments of a record restores a positive entry. *)
Lemma iter_decrement_increment label k x :
  ownLabel label → positiveEntry x →
  Nat.iter k (decrementEntry label) (Nat.iter k (incrementEntry label) x) = x.
Proof.
  intros Hown Hx. rewrite iter_incrementEntry_own by done.
  destruct k as [|k]; [done|].
  apply positiveEntry_number in Hx as Hcases.
  destruct Hcases as [->|(n & -> & Hn)]; cbn [numberOf].
  - rewrite iter_decrementEntry_own by (done || lia). unfold decreased.
    destruct (Z.leb_spec (0 + Z.of_nat (S k) - Z.of_nat (S k)) 0); [done|lia].
  - rewrite iter_decrementEntry_own by (done || lia). unfold decreased.
    destruct (Z.leb_spec (n + Z.of_nat (S k) - Z.of_nat (S k)) 0); [lia|].
    do 2 f_equal. lia.
Qed.

(** *** Labels that name a function of [Object.prototype] *)

Lemma functionMember_get member :
  member ∈ Js.functionMembers →
  Js.prototype_get member = Some (NativeFunction member)
  ∧ member ≠ "__proto__".
Proof.
  intros Hin. unfold Js.prototype_get.
  rewrite bool_decide_eq_true_2 by done. split; [done|].
  intros ->. apply (bool_decide_pack _) in Hin. by vm_compute in Hin.
Qed.

Lemma iter_incrementEntry_text label source ones k :
  Nat.iter k (incrementEntry label) (Some (CountText source ones))
  = Some (CountText source (ones + k)).
Proof.
  induction k as [|k IH].
  - by rewrite Nat.add_0_r.
  - rewrite iter_succ, IH. cbn. do 2 f_equal. lia.
Qed.

(** The count of an inherited function becomes its text followed by one
    [1] for each increment. *)
Lemma iter_incrementEntry_function member k :
  member ∈ Js.functionMembers →
  Nat.iter (S k) (incrementEntry member) None
  = Some (CountText (NativeFunction member) (S k)).
Proof.
  intros [Hget Hne]%functionMember_get.
  induction k as [|k IH].
  - rewrite iter_succ. cbn [Nat.iter nat_rect].
    unfold incrementEntry, propertyOf, setEntry. rewrite Hget. cbn.
    by rewrite bool_decide_eq_false_2.
  - by rewrite iter_succ, IH.
Qed.

(** The first decrement of a text gives [NaN], which stays. *)
Lemma iter_decrementEntry_text label source ones k :
  Nat.iter (S k) (decrementEntry label) (Some (CountText source ones))
  = Some CountNaN.
Proof.
  induction k as [|k IH]; [done|].
  by rewrite iter_succ, IH.
Qed.

(** The label [__proto__] is never made a key. *)
Lemma iter_incrementEntry_proto k :
  Nat.iter k (incrementEntry "__proto__") None = None.
Proof. induction k as [|k IH]; [done|]. by rewrite iter_succ, IH. Qed.

(** *** The invariant of the stored histogram *)

Lemma json_count_not_NaN (x : option Count) :
  Js.json_count <$> x ≠ Some CountNaN.
Proof. by destruct x as [[]|]. Qed.

Lemma json_count_sound x : x ≠ Some CountNaN → Js.json_count <$> x = x.
Proof. by destruct x as [[]|]. Qed.

Lemma applyCheckIn_sound newName record s :
  soundCounts (cloudTypeStats s) →
  soundCounts (cloudTypeStats (applyCheckIn newName record s)).
Proof.
  intros Hs label. rewrite applyCheckIn_entry.
  split; [apply json_count_not_NaN|]. intros Hown.
  destruct (Hs label) as [_ Hpos].
  pose proof (iter_incrementEntry_positive label
                (countLabel label (cloudTypes record)) _ Hown (Hpos Hown))
    as Hiter.
  by rewrite json_count_positive.
Qed.

Lemma applyRollback_sound lastRecord s :
  soundCounts (cloudTypeStats s) →
  soundCounts (cloudTypeStats (applyRollback lastRecord s)).
Proof.
  intros Hs label. rewrite applyRollback_entry.
  split; [apply json_count_not_NaN|]. intros Hown.
  destruct (Hs label) as [_ Hpos].
  pose proof (iter_decrementEntry_positive label
                (countLabel label (cloudTypes lastRecord)) _ Hown (Hpos Hown))
    as Hiter.
  by rewrite json_count_positive.
Qed.

Lemma initialStats_sound newName record :
  soundCounts (cloudTypeStats (initialStats newName record)).
Proof. intros label. cbn. rewrite lookup_empty. by split. Qed.

(** Undoing the increments of a record whose labels name no member of
    [Object.prototype] restores the histogram. *)
Lemma rollback_checkIn_histogram newName record s :
  ownLabels record →
  soundCounts (cloudTypeStats s) →
  cloudTypeStats (applyRollback record (applyCheckIn newName record s))
  = cloudTypeStats s.
Proof.
  intros Hown Hs. apply map_eq. intros label.
  rewrite applyRollback_entry, applyCheckIn_entry.
  destruct (Hs label) as [Hnan Hpos].
  destruct (countLabel label (cloudTypes record)) as [|k] eqn:Hk.
  - cbn [Nat.iter nat_rect].
    by rewrite !(json_count_sound (cloudTypeStats s !! label)).
  - assert (ownLabel label) as Hlabel.
    { assert (0 < countLabel label (cloudTypes record))%nat as Hsome by lia.
      destruct (countLabel_positive _ _ Hsome) as (c & Hc & <-).
      by apply Hown. }
    rewrite (json_count_positive (Nat.iter _ (incrementEntry label) _))
      by (apply iter_incrementEntry_positive; auto).
    rewrite iter_decrement_increment by auto.
    by apply json_count_sound.
Qed.

End Histogram.

Section AppendSpec.
(** What C3 says holds under the labels that name no member of
    [Object.prototype]: [recordCheckIn] always succeeds on a store whose
    [user:] key is free or holds statistics, and the statistics it leaves
    carry the supplied name, [lastCheckIn = record.timestamp] and at most
    100 records. For a new user they have
    [firstCheckIn = lastCheckIn = record.timestamp] and [totalCheckIns = 1];
    for a known user [totalCheckIns] grows by one, [totalImages] by
    [record.imageCount], the count of such a label, when it is missing or
    a positive number, by one per entry of [record.cloudTypes] that
    carries it, and the records are the last 100 of the old ones followed
    by [record]. *)
Lemma recordCheckIn_spec userId newName record
    (db : gmap string value) (prior : option UserStats) :
  db !! userKey userId = VUser <$> prior →
  ∃ db' s',
    recordCheckIn userId newName record db = (Ok tt, db')
    ∧ getUserStats userId db' = (Ok (Some s'), db')
    ∧ userName s' = newName
    ∧ lastCheckIn s' = timestamp record
    ∧ (length (checkInRecords s') ≤ 100)%nat
    ∧ match prior with
      | None =>
          firstCheckIn s' = timestamp record
          ∧ totalCheckIns s' = 1%Z
          ∧ totalImages s' = imageCount record
          ∧ checkInRecords s' = [record]
      | Some s =>
          firstCheckIn s' = firstCheckIn s
          ∧ totalCheckIns s' = (totalCheckIns s + 1)%Z
          ∧ totalImages s' = (totalImages s + imageCount record)%Z
          ∧ (∀ label,
               ownLabel label →
               positiveEntry (cloudTypeStats s !! label) →
               cloudTypeStats s' !! label
               = match countLabel label (cloudTypes record) with
                 | O => cloudTypeStats s !! label
                 | S _ =>
                     Some (CountNumber
                             (numberOf (cloudTypeStats s !! label)
                              + Z.of_nat (countLabel label (cloudTypes record))))
                 end)
          ∧ checkInRecords s'
            = drop (length (checkInRecords s ++ [record]) - 100)
                   (checkInRecords s ++ [record])
      end.
Proof.
  intros Hprior.
  eexists _, _. split; [by apply recordCheckIn_run|].
  rewrite getUserStats_lookup.
  rewrite lookup_insert_ne by (symmetry; apply userKey_recordKey).
  rewrite lookup_insert_eq. split; [done|].
  split; [done|]. split; [done|].
  split; [apply pushRecord_length|].
  destruct prior as [s|]; cbn [default].
  - repeat split; try done.
    + intros label Hown Hpos. rewrite applyCheckIn_entry.
      rewrite iter_incrementEntry_own by done.
      by destruct (countLabel label (cloudTypes record));
        [apply json_count_positive|].
    + apply pushRecord_last_hundred.
  - repeat split; done.
Qed.

(** C3 (a defect of the code). [cloudTypeStats] is a plain object, so
    [recordCheckIn] does not count a label that names a function of
    [Object.prototype] ([constructor], [toString], [valueOf], ...): when
    the statistics hold no key for it, the [k] entries of the record that
    carry the label leave under it the text of the inherited function
    followed by [k] characters [1], not the number [k]. The entries that
    carry the label [__proto__] leave no key at all. *)
Theorem C3_inherited_label_is_not_counted userId newName record
    (db : gmap string value) s :
  db !! userKey userId = Some (VUser s) →
  ∃ db' s',
    recordCheckIn userId newName record db = (Ok tt, db')
    ∧ getUserStats userId db' = (Ok (Some s'), db')
    ∧ (∀ member k,
         member ∈ Js.functionMembers →
         cloudTypeStats s !! member = None →
         countLabel member (cloudTypes record) = S k →
         cloudTypeStats s' !! member
         = Some (CountText (NativeFunction member) (S k)))
    ∧ (cloudTypeStats s !! "__proto__" = None →
       cloudTypeStats s' !! "__proto__" = None).
Proof.
  intros Hs.
  eexists _, (applyCheckIn newName record s).
  split; [by apply (recordCheckIn_run _ _ _ _ (Some s))|].
  rewrite getUserStats_lookup.
  rewrite lookup_insert_ne by (symmetry; apply userKey_recordKey).
  rewrite lookup_insert_eq. split; [done|]. split.
  - intros member k Hmember Hnone Hk.
    rewrite applyCheckIn_entry, Hnone, Hk.
    by rewrite iter_incrementEntry_function.
  - intros Hnone. rewrite applyCheckIn_entry, Hnone.
    by rewrite iter_incrementEntry_proto.
Qed.

Lemma C3_witness :
  let db : gmap string value := {[ userKey "U1" := VUser (statsWith 3) ]} in
  db !! userKey "U1" = Some (VUser (statsWith 3))
  ∧ ∃ db' s',
      recordCheckIn "U1" "new" (constructorRecord 2) db = (Ok tt, db')
      ∧ getUserStats "U1" db' = (Ok (Some s'), db')
      ∧ cloudTypeStats s' !! "constructor"
        = Some (CountText (NativeFunction "constructor") 1).
Proof.
  intros db.
  assert (db !! userKey "U1" = Some (VUser (statsWith 3))) as Hs
    by reflexivity.
  split; [exact Hs|].
  destruct (C3_inherited_label_is_not_counted "U1" "new" (constructorRecord 2)
              db (statsWith 3) Hs)
    as (db' & s' & Hrun & Hget & Hfunction & _).
  exists db', s'. split; [exact Hrun|]. split; [exact Hget|].
  apply (Hfunction "constructor" 0%nat);
    [apply list_elem_of_here | reflexivity | reflexivity].
Defined.

End AppendSpec.

(** ** The statistics aggregator: [rollbackLastCheckIn] *)

Section Rollback.
Lemma rollbackLastCheckIn_run userId (db : gmap string value) s lastRecord :
  db !! userKey userId = Some (VUser s) →
  last (checkInRecords s) = Some lastRecord →
  rollbackLastCheckIn userId db
  = (Ok true,
     <[userKey userId := VUser (applyRollback lastRecord s)]>
       (delete (recordKey userId (timestamp lastRecord)) db)).
Proof.
  intros Hs Hlast. unfold rollbackLastCheckIn. unfold_monad.
  by rewrite Hs, Hlast.
Qed.

Lemma rollbackLastCheckIn_nothing userId (db : gmap string value) :
  (∀ s, db !! userKey userId = Some (VUser s) → checkInRecords s = []) →
  rollbackLastCheckIn userId db = (Ok false, db).
Proof.
  intros Hnone. unfold rollbackLastCheckIn. unfold_monad.
  destruct (db !! userKey userId) as [[| |s|]|]; try done.
  by rewrite (Hnone s eq_refl).
Qed.

End Rollback.

Section RollbackSpec.
Lemma rollbackLastCheckIn_total userId (db : gmap string value) :
  ∃ b db',
    rollbackLastCheckIn userId db = (Ok b, db')
    ∧ (b = false ↔
       (getUserStats userId db = (Ok None, db)
        ∨ ∃ s, getUserStats userId db = (Ok (Some s), db)
               ∧ checkInRecords s = [])).
Proof.
  rewrite getUserStats_lookup.
  destruct (db !! userKey userId) as [v|] eqn:Hv.
  2:{ exists false, db. split; [|naive_solver].
      apply rollbackLastCheckIn_nothing. intros s. by rewrite Hv. }
  destruct v as [d|m|s|r];
    try (exists false, db; split; [|naive_solver];
         apply rollbackLastCheckIn_nothing; intros s'; by rewrite Hv).
  destruct (decide (checkInRecords s = [])) as [Hnil|Hne].
  - exists false, db. split; [|naive_solver].
    apply rollbackLastCheckIn_nothing. intros s'. rewrite Hv. naive_solver.
  - destruct (proj2 (last_is_Some _) Hne) as [lastRecord Hlast].
    eexists true, _. split; [by apply rollbackLastCheckIn_run|].
    split; [done|]. intros [[=]|(s' & [= <-] & ?)]. done.
Qed.

Lemma append_then_rollback userId newName record (db : gmap string value)
    (prior : option UserStats) :
  db !! userKey userId = VUser <$> prior →
  ∃ db1 db2,
    recordCheckIn userId newName record db = (Ok tt, db1)
    ∧ rollbackLastCheckIn userId db1 = (Ok true, db2)
    ∧ getUserStats userId db2
      = (Ok (Some (applyRollback record
                     (applyCheckIn newName record
                        (default (initialStats newName record) prior)))), db2)
    ∧ ∀ key, key ≠ userKey userId → key ≠ recordKey userId (timestamp record) →
             db2 !! key = db !! key.
Proof.
  intros Hs. eexists _, _.
  split; [by apply recordCheckIn_run|].
  set (s1 := applyCheckIn _ _ _).
  assert (last (checkInRecords s1) = Some record) as Hlast.
  { subst s1. simpl. by rewrite pushRecord_snoc, last_snoc. }
  split.
  { apply rollbackLastCheckIn_run; [|done].
    rewrite lookup_insert_ne by (symmetry; apply userKey_recordKey).
    by rewrite lookup_insert_eq. }
  split.
  { by rewrite getUserStats_lookup, lookup_insert_eq. }
  intros key Hu Hr.
  rewrite lookup_insert_ne by done. rewrite lookup_delete_ne by done.
  rewrite lookup_insert_ne by done. by rewrite lookup_insert_ne by done.
Qed.

End RollbackSpec.

Section RollbackFrame.
Lemma rollbackLastCheckIn_true_inv userId (db db' : gmap string value) :
  rollbackLastCheckIn userId db = (Ok true, db') →
  ∃ s lastRecord,
    db !! userKey userId = Some (VUser s)
    ∧ last (checkInRecords s) = Some lastRecord
    ∧ db' = <[userKey userId := VUser (applyRollback lastRecord s)]>
              (delete (recordKey userId (timestamp lastRecord)) db).
Proof.
  intros Hrun.
  destruct (db !! userKey userId) as [v|] eqn:Hv.
  2:{ rewrite rollbackLastCheckIn_nothing in Hrun; [done|].
      intros s. by rewrite Hv. }
  destruct v as [d|m|s|r];
    try (rewrite rollbackLastCheckIn_nothing in Hrun;
         [done | intros s'; by rewrite Hv]).
  destruct (last (checkInRecords s)) as [lastRecord|] eqn:Hlast.
  - rewrite (rollbackLastCheckIn_run _ _ _ _ Hv Hlast) in Hrun.
    injection Hrun as <-. eauto.
  - rewrite rollbackLastCheckIn_nothing in Hrun; [done|].
    intros s'. rewrite Hv. intros [= <-]. by apply last_None.
Qed.

(** C9. A successful [rollbackLastCheckIn] leaves [userName] and
    [firstCheckIn] as they were; in particular, after [recordCheckIn] with
    a new name and the rollback of that record, the new name stays. *)
Theorem C9_rollback_keeps_name_and_first :
  (∀ userId (db db' : gmap string value),
     rollbackLastCheckIn userId db = (Ok true, db') →
     ∃ s s',
       getUserStats userId db = (Ok (Some s), db)
       ∧ getUserStats userId db' = (Ok (Some s'), db')
       ∧ userName s' = userName s
       ∧ firstCheckIn s' = firstCheckIn s)
  ∧ (∀ userId newName record (db : gmap string value) s,
       db !! userKey userId = Some (VUser s) →
       ∃ db1 db2 s2,
         recordCheckIn userId newName record db = (Ok tt, db1)
         ∧ rollbackLastCheckIn userId db1 = (Ok true, db2)
         ∧ getUserStats userId db2 = (Ok (Some s2), db2)
         ∧ userName s2 = newName
         ∧ firstCheckIn s2 = firstCheckIn s).
Proof.
  split.
  - intros userId db db' Hrun.
    destruct (rollbackLastCheckIn_true_inv _ _ _ Hrun)
      as (s & lastRecord & Hs & Hlast & ->).
    exists s, (applyRollback lastRecord s).
    rewrite !getUserStats_lookup, Hs, lookup_insert_eq. done.
  - intros userId newName record db s Hs.
    destruct (append_then_rollback userId newName record db (Some s) Hs)
      as (db1 & db2 & Happ & Hroll & Hget & _).
    exists db1, db2. eexists. done.
Qed.

Lemma C9_witness :
  let db : gmap string value := {[ userKey "U1" := VUser (statsWith 3) ]} in
  let db' := snd (rollbackLastCheckIn "U1" db) in
  rollbackLastCheckIn "U1" db = (Ok true, db')
  ∧ ∃ s s',
      getUserStats "U1" db = (Ok (Some s), db)
      ∧ getUserStats "U1" db' = (Ok (Some s'), db')
      ∧ userName s' = userName s
      ∧ firstCheckIn s' = firstCheckIn s.
Proof.
  intros db db'.
  assert (rollbackLastCheckIn "U1" db = (Ok true, db')) as Hrun
    by (vm_compute; reflexivity).
  split; [exact Hrun|].
  exact (proj1 C9_rollback_keeps_name_and_first "U1" db db' Hrun).
Defined.

End RollbackFrame.

(** ** The histogram invariant *)

Section HistogramInvariant.
Lemma recordCheckIn_preserves userId u newName record (db : gmap string value) :
  statsSound userId db →
  statsSound userId (snd (recordCheckIn u newName record db)).
Proof.
  intros Hinv.
  destruct (db !! userKey u) as [v|] eqn:Hv.
  - destruct v as [d|m|s0|r];
      try (unfold recordCheckIn; unfold_monad; rewrite Hv; exact Hinv).
    rewrite (recordCheckIn_run u newName record db (Some s0) Hv). simpl.
    intros s. rewrite lookup_insert_ne by (symmetry; apply userKey_recordKey).
    destruct (decide (u = userId)) as [->|Hne].
    + rewrite lookup_insert_eq. intros [= <-].
      apply applyCheckIn_sound. by apply Hinv.
    + rewrite lookup_insert_ne by (intros ?%userKey_inj; done). apply Hinv.
  - rewrite (recordCheckIn_run u newName record db None Hv). simpl.
    intros s. rewrite lookup_insert_ne by (symmetry; apply userKey_recordKey).
    destruct (decide (u = userId)) as [->|Hne].
    + rewrite lookup_insert_eq. intros [= <-].
      apply applyCheckIn_sound, initialStats_sound.
    + rewrite lookup_insert_ne by (intros ?%userKey_inj; done). apply Hinv.
Qed.

Lemma rollbackLastCheckIn_preserves userId u (db : gmap string value) :
  statsSound userId db →
  statsSound userId (snd (rollbackLastCheckIn u db)).
Proof.
  intros Hinv.
  destruct (rollbackLastCheckIn_total u db) as (b & db' & Hrun & _).
  rewrite Hrun. simpl. destruct b.
  - destruct (rollbackLastCheckIn_true_inv _ _ _ Hrun)
      as (s0 & lastRecord & Hs0 & Hlast & ->).
    intros s. destruct (decide (u = userId)) as [->|Hne].
    + rewrite lookup_insert_eq. intros [= <-].
      apply applyRollback_sound. by apply Hinv.
    + rewrite lookup_insert_ne by (intros ?%userKey_inj; done).
      rewrite lookup_delete_ne by (symmetry; apply userKey_recordKey).
      apply Hinv.
  - destruct (db !! userKey u) as [v|] eqn:Hv.
    2:{ rewrite rollbackLastCheckIn_nothing in Hrun.
        - by injection Hrun as <-.
        - intros s. by rewrite Hv. }
    destruct v as [d|m|s0|r];
      try (rewrite rollbackLastCheckIn_nothing in Hrun;
           [by injection Hrun as <- | intros s'; by rewrite Hv]).
    destruct (last (checkInRecords s0)) as [lastRecord|] eqn:Hlast.
    + by rewrite (rollbackLastCheckIn_run _ _ _ _ Hv Hlast) in Hrun.
    + rewrite rollbackLastCheckIn_nothing in Hrun.
      * by injection Hrun as <-.
      * intros s'. rewrite Hv. intros [= <-]. by apply last_None.
Qed.

Lemma runOps_preserves userId ops : ∀ (db : gmap string value),
  statsSound userId db → statsSound userId (runOps ops db).
Proof.
  induction ops as [|op ops IH]; intros db Hinv; [done|].
  simpl. apply IH. destruct op as [u newName record|u]; simpl.
  - by apply recordCheckIn_preserves.
  - unfold bind, ret.
    pose proof (rollbackLastCheckIn_preserves userId u db Hinv) as H.
    by destruct (rollbackLastCheckIn u db) as [[b|e] db'].
Qed.

(** What C10 says holds under the labels that name no member of
    [Object.prototype]: starting from a store without statistics for
    [userId], after any sequence of [recordCheckIn] and
    [rollbackLastCheckIn] calls (for this or any other user) every such
    label that is a key of the user's [cloudTypeStats] has a strictly
    positive number as its count. *)
Lemma own_counts_positive userId ops (db : gmap string value) s :
  db !! userKey userId = None →
  getUserStats userId (runOps ops db) = (Ok (Some s), runOps ops db) →
  ∀ label count,
    ownLabel label →
    cloudTypeStats s !! label = Some count →
    ∃ n, count = CountNumber n ∧ (0 < n)%Z.
Proof.
  intros Habsent Hget.
  assert (statsSound userId (runOps ops db)) as Hinv.
  { apply runOps_preserves. intros s0. by rewrite Habsent. }
  rewrite getUserStats_lookup in Hget.
  destruct (runOps ops db !! userKey userId) as [[| |s'|]|] eqn:Hs; try done.
  injection Hget as <-. intros label count Hown Hcount.
  destruct (Hinv s' Hs label) as [_ Hpos]. specialize (Hpos Hown).
  rewrite Hcount in Hpos. destruct count as [n| | |]; try done. by exists n.
Qed.

(** C10 (a defect of the code). The invariant fails under a label that
    names a function of [Object.prototype] ([constructor], [toString],
    [valueOf], ...). Starting from a store without statistics for
    [userId], a [recordCheckIn] whose record carries such a label makes
    the label a key whose count is a text, and the [rollbackLastCheckIn]
    of this check-in keeps the key, with the count [null]: a key of the
    histogram without a strictly positive count. *)
Theorem C10_inherited_label_count_is_no_number userId newName record member k
    (db : gmap string value) :
  db !! userKey userId = None →
  member ∈ Js.functionMembers →
  countLabel member (cloudTypes record) = S k →
  ∃ s1 s2,
    getUserStats userId (runOps [Append userId newName record] db)
    = (Ok (Some s1), runOps [Append userId newName record] db)
    ∧ cloudTypeStats s1 !! member
      = Some (CountText (NativeFunction member) (S k))
    ∧ getUserStats userId
        (runOps [Append userId newName record; RollbackLast userId] db)
      = (Ok (Some s2),
         runOps [Append userId newName record; RollbackLast userId] db)
    ∧ cloudTypeStats s2 !! member = Some CountNull.
Proof.
  intros Habsent Hmember Hk.
  destruct (append_then_rollback userId newName record db None Habsent)
    as (db1 & db2 & Happ & Hroll & Hget2 & _).
  pose proof (recordCheckIn_run userId newName record db None Habsent) as Hrun.
  rewrite Happ in Hrun. injection Hrun as Hdb1.
  cbn [default] in Hget2.
  set (s0 := initialStats newName record) in *.
  exists (applyCheckIn newName record s0),
         (applyRollback record (applyCheckIn newName record s0)).
  cbn [runOps runOp]. unfold bind, ret. rewrite Happ. cbn [snd].
  rewrite Hroll. cbn [snd].
  assert (cloudTypeStats (applyCheckIn newName record s0) !! member
          = Some (CountText (NativeFunction member) (S k))) as Htext.
  { rewrite applyCheckIn_entry, Hk. subst s0. cbn [initialStats cloudTypeStats].
    rewrite lookup_empty. by rewrite iter_incrementEntry_function. }
  split.
  { rewrite getUserStats_lookup, Hdb1.
    rewrite lookup_insert_ne by (symmetry; apply userKey_recordKey).
    by rewrite lookup_insert_eq. }
  split; [exact Htext|]. split; [exact Hget2|].
  rewrite applyRollback_entry, Htext, Hk.
  by rewrite iter_decrementEntry_text.
Qed.

Lemma C10_witness :
  (∅ : gmap string value) !! userKey "U1" = None
  ∧ "constructor" ∈ Js.functionMembers
  ∧ countLabel "constructor" (cloudTypes (constructorRecord 1)) = 1%nat
  ∧ ∃ s1 s2,
      getUserStats "U1" (runOps [Append "U1" "a" (constructorRecord 1)] ∅)
      = (Ok (Some s1), runOps [Append "U1" "a" (constructorRecord 1)] ∅)
      ∧ cloudTypeStats s1 !! "constructor"
        = Some (CountText (NativeFunction "constructor") 1)
      ∧ getUserStats "U1"
          (runOps [Append "U1" "a" (constructorRecord 1); RollbackLast "U1"] ∅)
        = (Ok (Some s2),
           runOps [Append "U1" "a" (constructorRecord 1); RollbackLast "U1"] ∅)
      ∧ cloudTypeStats s2 !! "constructor" = Some CountNull.
Proof.
  assert ((∅ : gmap string value) !! userKey "U1" = None) as H1
    by reflexivity.
  assert ("constructor" ∈ Js.functionMembers) as H2
    by apply list_elem_of_here.
  assert (countLabel "constructor" (cloudTypes (constructorRecord 1)) = 1%nat)
    as H3 by reflexivity.
  split; [exact H1|]. split; [exact H2|]. split; [exact H3|].
  exact (C10_inherited_label_count_is_no_number "U1" "a" (constructorRecord 1)
           "constructor" 0 ∅ H1 H2 H3).
Defined.

End HistogramInvariant.

(** ** Rollback right after the append *)

Section RollbackCorrectness.

Lemma hundred_checkIns_stats :
  runOps (checkIns 100) ∅ !! userKey "U1" = Some (VUser (statsWith 100)).
Proof. vm_compute. reflexivity. Qed.

(** C2, as stated, fails when the window is full: after 100 check-ins the
    next [recordCheckIn] evicts the oldest record, and the rollback that
    follows leaves 99 records, not the 100 of before. *)
Lemma C2_counterexample_full_window :
  ¬ (∀ userId newName record ops (db0 : gmap string value) s,
       db0 !! userKey userId = None →
       runOps ops db0 !! userKey userId = Some (VUser s) →
       (length (checkInRecords s) ≤ 100)%nat →
       ∃ db1 db2 s2,
         recordCheckIn userId newName record (runOps ops db0) = (Ok tt, db1)
         ∧ rollbackLastCheckIn userId db1 = (Ok true, db2)
         ∧ getUserStats userId db2 = (Ok (Some s2), db2)
         ∧ totalCheckIns s2 = totalCheckIns s
         ∧ totalImages s2 = totalImages s
         ∧ cloudTypeStats s2 = cloudTypeStats s
         ∧ checkInRecords s2 = checkInRecords s).
Proof.
  intros Hclaim.
  pose proof hundred_checkIns_stats as Hstats.
  destruct (Hclaim "U1" "new" (sampleRecord 2) (checkIns 100) ∅ (statsWith 100))
    as (db1 & db2 & s2 & Happ & Hroll & Hget & _ & _ & _ & Hrecords).
  { apply lookup_empty. }
  { exact Hstats. }
  { unfold statsWith. cbn [checkInRecords]. by rewrite length_replicate. }
  destruct (append_then_rollback "U1" "new" (sampleRecord 2)
              (runOps (checkIns 100) ∅) (Some (statsWith 100)) Hstats)
    as (db1' & db2' & Happ' & Hroll' & Hget' & _).
  rewrite Happ in Happ'. injection Happ' as <-.
  rewrite Hroll in Hroll'. injection Hroll' as <-.
  rewrite Hget in Hget'. injection Hget' as ->.
  apply (f_equal length) in Hrecords. vm_compute in Hrecords. discriminate.
Qed.

(** It fails as well, whatever the window, for a record with a label that
    names a function of [Object.prototype]: after three check-ins, the
    check-in of a record with the label [constructor] and its rollback
    leave the histogram with one key more, [constructor], whose count is
    [null]. *)
Lemma append_rollback_inherited_label :
  let s2 := applyRollback (constructorRecord 2)
              (applyCheckIn "new" (constructorRecord 2) (statsWith 3)) in
  ∃ db1 db2,
    recordCheckIn "U1" "new" (constructorRecord 2) (runOps (checkIns 3) ∅)
    = (Ok tt, db1)
    ∧ rollbackLastCheckIn "U1" db1 = (Ok true, db2)
    ∧ getUserStats "U1" db2 = (Ok (Some s2), db2)
    ∧ cloudTypeStats (statsWith 3) = {[ "积云" := CountNumber 3 ]}
    ∧ cloudTypeStats s2
      = {[ "积云" := CountNumber 3; "constructor" := CountNull ]}.
Proof.
  intros s2.
  exists (snd (recordCheckIn "U1" "new" (constructorRecord 2)
                 (runOps (checkIns 3) ∅))).
  exists (snd (rollbackLastCheckIn "U1"
                 (snd (recordCheckIn "U1" "new" (constructorRecord 2)
                         (runOps (checkIns 3) ∅))))).
  repeat split; vm_compute; reflexivity.
Qed.

(** The rollback of a fresh record restores statistics whose histogram
    is sound and whose window is not full, when the labels of the record
    name no member of [Object.prototype]. *)
Lemma append_rollback_restores userId newName record
    (db : gmap string value) s :
  db !! userKey userId = Some (VUser s) →
  (length (checkInRecords s) < 100)%nat →
  ownLabels record →
  soundCounts (cloudTypeStats s) →
  ∃ db1 db2 s2,
    recordCheckIn userId newName record db = (Ok tt, db1)
    ∧ rollbackLastCheckIn userId db1 = (Ok true, db2)
    ∧ getUserStats userId db2 = (Ok (Some s2), db2)
    ∧ totalCheckIns s2 = totalCheckIns s
    ∧ totalImages s2 = totalImages s
    ∧ cloudTypeStats s2 = cloudTypeStats s
    ∧ checkInRecords s2 = checkInRecords s.
Proof.
  intros Hs Hlen Hown Hsound.
  destruct (append_then_rollback userId newName record db (Some s) Hs)
    as (db1 & db2 & Happ & Hroll & Hget & _).
  exists db1, db2, (applyRollback record (applyCheckIn newName record s)).
  split; [done|]. split; [done|]. split; [exact Hget|].
  split; [cbn [applyRollback applyCheckIn totalCheckIns]; lia|].
  split; [cbn [applyRollback applyCheckIn totalImages]; lia|].
  split; [by apply rollback_checkIn_histogram|].
  cbn [applyRollback applyCheckIn checkInRecords].
  rewrite pushRecord_snoc, removelast_last.
  replace (_ - 99)%nat with 0%nat by lia. done.
Qed.

(** C2 (amended). For statistics that the aggregator has built and that
    hold fewer than 100 records, and for a record whose labels name no
    member of [Object.prototype], [recordCheckIn] followed at once by
    [rollbackLastCheckIn] answers [true] and restores [totalCheckIns],
    [totalImages], [cloudTypeStats] and [checkInRecords]. And
    [rollbackLastCheckIn] answers [false] exactly when the user has no
    statistics or no records. *)
Theorem C2_append_rollback_restores :
  (∀ userId newName record ops (db0 : gmap string value) s,
     db0 !! userKey userId = None →
     runOps ops db0 !! userKey userId = Some (VUser s) →
     (length (checkInRecords s) < 100)%nat →
     ownLabels record →
     ∃ db1 db2 s2,
       recordCheckIn userId newName record (runOps ops db0) = (Ok tt, db1)
       ∧ rollbackLastCheckIn userId db1 = (Ok true, db2)
       ∧ getUserStats userId db2 = (Ok (Some s2), db2)
       ∧ totalCheckIns s2 = totalCheckIns s
       ∧ totalImages s2 = totalImages s
       ∧ cloudTypeStats s2 = cloudTypeStats s
       ∧ checkInRecords s2 = checkInRecords s)
  ∧ (∀ userId (db : gmap string value),
       ∃ b db',
         rollbackLastCheckIn userId db = (Ok b, db')
         ∧ (b = false ↔
            (getUserStats userId db = (Ok None, db)
             ∨ ∃ s, getUserStats userId db = (Ok (Some s), db)
                    ∧ checkInRecords s = []))).
Proof.
  split; [|apply rollbackLastCheckIn_total].
  intros userId newName record ops db0 s Habsent Hs Hlen Hown.
  apply append_rollback_restores; [done..|].
  apply (runOps_preserves userId ops db0); [|done].
  intros s0. by rewrite Habsent.
Qed.

Lemma C2_witness :
  (∅ : gmap string value) !! userKey "U1" = None
  ∧ runOps (checkIns 3) ∅ !! userKey "U1" = Some (VUser (statsWith 3))
  ∧ (length (checkInRecords (statsWith 3)) < 100)%nat
  ∧ ownLabels (sampleRecord 2)
  ∧ ∃ db1 db2 s2,
      recordCheckIn "U1" "new" (sampleRecord 2) (runOps (checkIns 3) ∅)
      = (Ok tt, db1)
      ∧ rollbackLastCheckIn "U1" db1 = (Ok true, db2)
      ∧ getUserStats "U1" db2 = (Ok (Some s2), db2)
      ∧ totalCheckIns s2 = totalCheckIns (statsWith 3)
      ∧ totalImages s2 = totalImages (statsWith 3)
      ∧ cloudTypeStats s2 = cloudTypeStats (statsWith 3)
      ∧ checkInRecords s2 = checkInRecords (statsWith 3).
Proof.
  assert ((∅ : gmap string value) !! userKey "U1" = None) as H1
    by reflexivity.
  assert (runOps (checkIns 3) ∅ !! userKey "U1" = Some (VUser (statsWith 3)))
    as H2 by (vm_compute; reflexivity).
  assert (length (checkInRecords (statsWith 3)) < 100)%nat as H3
    by (simpl; lia).
  assert (ownLabels (sampleRecord 2)) as H4.
  { intros cloud Hcloud. apply list_elem_of_singleton in Hcloud as ->.
    reflexivity. }
  split; [exact H1|]. split; [exact H2|]. split; [exact H3|].
  split; [exact H4|].
  exact (proj1 C2_append_rollback_restores "U1" "new" (sampleRecord 2)
           (checkIns 3) ∅ (statsWith 3) H1 H2 H3 H4).
Defined.

End RollbackCorrectness.

(** ** The event ledger: [deleteProcessedAtMessage] *)

Section Ledger.
Lemma isAtMessageProcessed_lookup atMessageId (db : gmap string value) :
  isAtMessageProcessed atMessageId db
  = (Ok (bool_decide (is_Some (db !! processedKey atMessageId))), db).
Proof.
  unfold isAtMessageProcessed. unfold_monad.
  destruct (db !! processedKey atMessageId) as [v|] eqn:Hv.
  - by rewrite bool_decide_eq_true_2.
  - rewrite bool_decide_eq_false_2; [done|]. by intros [? ?].
Qed.

(** C7, as stated, fails on the empty store: nothing is recorded for the
    message 42, and [deleteProcessedAtMessage 42] answers [true]. *)
Lemma C7_counterexample_absent_record :
  ¬ (∀ atMessageId (db : gmap string value),
       fst (deleteProcessedAtMessage atMessageId db) = Ok true
       ↔ is_Some (db !! processedKey atMessageId)
         ∧ snd (deleteProcessedAtMessage atMessageId db)
             !! processedKey atMessageId = None).
Proof.
  intros Hclaim.
  destruct (proj1 (Hclaim 42%Z ∅) eq_refl) as [[v Hv] _].
  by rewrite lookup_empty in Hv.
Qed.

(** C7 (amended). [deleteProcessedAtMessage] answers [true] whether or not
    a record exists for the message; afterwards the message is not
    processed, and no other key of the store has changed. *)
Theorem C7_deleteProcessedAtMessage_spec atMessageId (db : gmap string value) :
  ∃ db',
    deleteProcessedAtMessage atMessageId db = (Ok true, db')
    ∧ isAtMessageProcessed atMessageId db' = (Ok false, db')
    ∧ ∀ key, key ≠ processedKey atMessageId → db' !! key = db !! key.
Proof.
  exists (delete (processedKey atMessageId) db).
  split; [done|]. split.
  - rewrite isAtMessageProcessed_lookup, lookup_delete_eq.
    rewrite bool_decide_eq_false_2; [done|]. by intros [? ?].
  - intros key Hkey. by rewrite lookup_delete_ne.
Qed.

End Ledger.

(** ** Recent records: [getRecentCheckIns] *)

Section Recent.
Lemma getRecentCheckIns_run userId limit (db : gmap string value) s :
  db !! userKey userId = Some (VUser s) →
  getRecentCheckIns userId limit db
  = (Ok (reverse (Js.slice_from (- limit) (checkInRecords s))), db).
Proof.
  intros Hs. unfold getRecentCheckIns.
  unfold try_catch, bind. rewrite getUserStats_lookup, Hs. done.
Qed.

Lemma getRecentCheckIns_absent userId limit (db : gmap string value) :
  db !! userKey userId = None →
  getRecentCheckIns userId limit db = (Ok [], db).
Proof.
  intros Hs. unfold getRecentCheckIns.
  unfold try_catch, bind. rewrite getUserStats_lookup, Hs. done.
Qed.

(** For a positive limit the answer is the last [limit] records, the most
    recent one first. *)
Lemma getRecentCheckIns_positive userId limit (db : gmap string value) s :
  db !! userKey userId = Some (VUser s) →
  (0 < limit)%Z →
  ∃ out,
    getRecentCheckIns userId limit db = (Ok out, db)
    ∧ out = reverse (drop (length (checkInRecords s) - Z.to_nat limit)
                          (checkInRecords s))
    ∧ (Z.of_nat (length out) ≤ limit)%Z.
Proof.
  intros Hs Hlimit. eexists. split; [by apply getRecentCheckIns_run|].
  replace (- limit)%Z with (- Z.of_nat (Z.to_nat limit))%Z by lia.
  rewrite slice_from_neg_drop by lia. split; [done|].
  rewrite length_reverse, length_drop. lia.
Qed.

(** C8 at the failing input: with [limit = 0] the three records of the
    user all come back, the most recent one first, since [slice(-0)] is
    [slice(0)]; a limit of 0 allows none. *)
Theorem C8_getRecentCheckIns_limit_zero :
  getRecentCheckIns "U1" 0 (runOps threeCheckIns ∅)
  = (Ok [sampleRecord 3; sampleRecord 2; sampleRecord 1],
     runOps threeCheckIns ∅).
Proof. vm_compute. reflexivity. Qed.

End Recent.

(** ** The rate limiter: the daily key *)

Section DailyGate.
Lemma string_length_app (s1 s2 : string) :
  String.length (s1 +:+ s2) = (String.length s1 + String.length s2)%nat.
Proof. induction s1 as [|c s1 IH]; simpl; [done|by rewrite IH]. Qed.

(** Two concatenations with tails of equal length agree part by part. *)
Lemma string_app_inj_tail (s1 s2 t1 t2 : string) :
  String.length t1 = String.length t2 →
  s1 +:+ t1 = s2 +:+ t2 → s1 = s2 ∧ t1 = t2.
Proof.
  intros Hlen. revert s2.
  induction s1 as [|c s1 IH]; intros [|c' s2] Heq; simpl in Heq.
  - done.
  - apply (f_equal String.length) in Heq.
    rewrite ?string_length_app in Heq. simpl in Heq.
    rewrite ?string_length_app in Heq. lia.
  - apply (f_equal String.length) in Heq.
    rewrite ?string_length_app in Heq. simpl in Heq.
    rewrite ?string_length_app in Heq. lia.
  - injection Heq as -> Heq. destruct (IH _ Heq) as [-> ->]. done.
Qed.

Lemma twoDigits_table :
  forallb (λ i : nat,
    Nat.eqb (String.length (twoDigits (Z.of_nat i))) 2
    && forallb (λ j : nat,
         implb (String.eqb (twoDigits (Z.of_nat i)) (twoDigits (Z.of_nat j)))
               (Nat.eqb i j))
         (seq 0 100))
    (seq 0 100) = true.
Proof. vm_compute. reflexivity. Qed.

Lemma twoDigits_length n :
  (0 ≤ n < 100)%Z → String.length (twoDigits n) = 2%nat.
Proof.
  intros Hn. pose proof twoDigits_table as Htable.
  rewrite forallb_forall in Htable.
  specialize (Htable (Z.to_nat n)). rewrite Z2Nat.id in Htable by lia.
  apply andb_prop in Htable as [Hlen _].
  - by apply Nat.eqb_eq.
  - apply in_seq. lia.
Qed.

Lemma twoDigits_inj n m :
  (0 ≤ n < 100)%Z → (0 ≤ m < 100)%Z → twoDigits n = twoDigits m → n = m.
Proof.
  intros Hn Hm Heq. pose proof twoDigits_table as Htable.
  rewrite forallb_forall in Htable.
  specialize (Htable (Z.to_nat n)). rewrite Z2Nat.id in Htable by lia.
  apply andb_prop in Htable as [_ Hrow]; [|apply in_seq; lia].
  rewrite forallb_forall in Hrow.
  assert (In (Z.to_nat m) (seq 0 100)) as Hin by (apply in_seq; lia).
  specialize (Hrow _ Hin). rewrite Z2Nat.id in Hrow by lia.
  rewrite Heq, String.eqb_refl in Hrow. cbn [implb] in Hrow.
  apply Nat.eqb_eq in Hrow. lia.
Qed.

Lemma dateKey_inj d1 d2 :
  validDate d1 → validDate d2 → dateKey d1 = dateKey d2 → d1 = d2.
Proof.
  intros [Hm1 Hd1] [Hm2 Hd2]. unfold dateKey.
  fold (twoDigits (getMonth d1 + 1)). fold (twoDigits (getDate d1)).
  fold (twoDigits (getMonth d2 + 1)). fold (twoDigits (getDate d2)).
  intros Heq.
  apply string_app_inj_tail in Heq as [Hyear Heq].
  2:{ rewrite !string_length_app, !twoDigits_length by lia. done. }
  apply String.app_inj in Heq.
  apply string_app_inj_tail in Heq as [Hmonth Heq].
  2:{ rewrite !string_length_app, !twoDigits_length by lia. done. }
  apply String.app_inj in Heq as Hday.
  apply (inj pretty) in Hyear.
  apply twoDigits_inj in Hmonth; [|lia..].
  apply twoDigits_inj in Hday; [|lia..].
  destruct d1, d2; simpl in *. f_equal; lia.
Qed.

Lemma dailyKey_inj_date authorId d1 d2 :
  validDate d1 → validDate d2 →
  dailyKey authorId d1 = dailyKey authorId d2 → d1 = d2.
Proof.
  intros Hv1 Hv2. unfold dailyKey. intros Heq.
  do 3 apply String.app_inj in Heq. by apply dateKey_inj.
Qed.

Lemma hasUserCommentedToday_lookup today authorId (db : gmap string value) :
  hasUserCommentedToday today authorId db
  = (Ok (bool_decide (is_Some (db !! dailyKey authorId today))), db).
Proof.
  unfold hasUserCommentedToday. unfold_monad.
  destruct (db !! dailyKey authorId today) as [v|] eqn:Hv.
  - by rewrite bool_decide_eq_true_2.
  - rewrite bool_decide_eq_false_2; [done|]. by intros [? ?].
Qed.

(** C5. After [recordDailyComment] on day [D], [hasUserCommentedToday]
    answers [true] on day [D], and [false] on any other calendar day [D']
    (the next one among them) for which no mark was written. *)
Theorem C5_daily_gate authorId (D D' : LocalDate) now (db : gmap string value) :
  validDate D → validDate D' → D' ≠ D →
  db !! dailyKey authorId D' = None →
  ∃ db1,
    recordDailyComment D now authorId db = (Ok tt, db1)
    ∧ hasUserCommentedToday D authorId db1 = (Ok true, db1)
    ∧ hasUserCommentedToday D' authorId db1 = (Ok false, db1).
Proof.
  intros HD HD' Hne Hfree. eexists. split; [done|].
  rewrite !hasUserCommentedToday_lookup. split.
  - rewrite lookup_insert_eq. by rewrite bool_decide_eq_true_2.
  - rewrite lookup_insert_ne, Hfree.
    + rewrite bool_decide_eq_false_2; [done|]. by intros [? ?].
    + intros Heq. apply Hne. symmetry. by apply (dailyKey_inj_date authorId).
Qed.

Lemma C5_witness :
  validDate dayD ∧ validDate dayAfterD ∧ dayAfterD ≠ dayD
  ∧ (∅ : gmap string value) !! dailyKey "U1" dayAfterD = None
  ∧ ∃ db1,
      recordDailyComment dayD 1738300000000 "U1" ∅ = (Ok tt, db1)
      ∧ hasUserCommentedToday dayD "U1" db1 = (Ok true, db1)
      ∧ hasUserCommentedToday dayAfterD "U1" db1 = (Ok false, db1).
Proof.
  assert (validDate dayD) as H1 by (unfold validDate; simpl; lia).
  assert (validDate dayAfterD) as H2 by (unfold validDate; simpl; lia).
  assert (dayAfterD ≠ dayD) as H3 by discriminate.
  assert ((∅ : gmap string value) !! dailyKey "U1" dayAfterD = None) as H4
    by reflexivity.
  split; [exact H1|]. split; [exact H2|]. split; [exact H3|].
  split; [exact H4|].
  exact (C5_daily_gate "U1" dayD dayAfterD 1738300000000 ∅ H1 H2 H3 H4).
Defined.

End DailyGate.


Section Frames.

Lemma afterCalls_refl w : afterCalls w w [].
Proof. split; [by rewrite app_nil_r|done]. Qed.

Lemma afterCalls_trans w1 w2 w3 evs1 evs2 :
  afterCalls w1 w2 evs1 → afterCalls w2 w3 evs2 →
  afterCalls w1 w3 (evs1 ++ evs2).
Proof.
  intros [Hc1 Hp1] [Hc2 Hp2]. split.
  - by rewrite Hc2, Hc1, app_assoc.
  - congruence.
Qed.

Lemma afterCalls_inj w w' evs1 evs2 :
  afterCalls w w' evs1 → afterCalls w w' evs2 → evs1 = evs2.
Proof. intros [H1 _] [H2 _]. rewrite H1 in H2. by apply app_inv_head in H2. Qed.

Lemma totalActionsOf_lookup u (db : gmap string value) :
  totalActionsOf u db
  = match db !! userKey u with
    | Some (VUser s) => totalCheckIns s
    | _ => 0%Z
    end.
Proof.
  unfold totalActionsOf. rewrite getUserStats_lookup. simpl.
  by destruct (db !! userKey u) as [[]|].
Qed.

(** A check-in that is rolled back at once leaves the ledger, the daily
    marks and every user's total as they were. *)
Lemma append_rollback_neutral a newName record (db : gmap string value) prior :
  db !! userKey a = VUser <$> prior →
  ∃ db2,
    rollbackLastCheckIn a (snd (recordCheckIn a newName record db))
    = (Ok true, db2)
    ∧ sameLedger db db2 ∧ sameDaily db db2 ∧ sameTotals db db2.
Proof.
  intros Hprior.
  destruct (append_then_rollback a newName record db prior Hprior)
    as (db1 & db2 & Happ & Hroll & Hget & Hframe).
  exists db2. rewrite Happ. simpl. split; [done|].
  split; [|split].
  - intros n. apply Hframe.
    + symmetry. apply userKey_processedKey.
    + symmetry. apply recordKey_processedKey.
  - intros a' d. apply Hframe.
    + symmetry. apply userKey_dailyKey.
    + symmetry. apply recordKey_dailyKey.
  - intros u. destruct (decide (u = a)) as [->|Hne].
    + unfold totalActionsOf at 1. rewrite Hget. simpl.
      rewrite totalActionsOf_lookup, Hprior.
      destruct prior; simpl; lia.
    + rewrite !totalActionsOf_lookup. rewrite Hframe; [done| |].
      * intros ?%userKey_inj. done.
      * apply userKey_recordKey.
Qed.

End Frames.

Section PostComment.

Lemma recordCheckIn_cases u newName record (db : gmap string value) :
  (∃ prior, db !! userKey u = VUser <$> prior
            ∧ recordCheckIn u newName record db
              = (Ok tt,
                 <[recordKey u (timestamp record) := VRecord record]>
                   (<[userKey u :=
                        VUser (applyCheckIn newName record
                                 (default (initialStats newName record) prior))]>
                      db)))
  ∨ recordCheckIn u newName record db = (Throw TypeError, db).
Proof.
  destruct (db !! userKey u) as [v|] eqn:Hv.
  - destruct v as [d|m|s|r];
      try (right; unfold recordCheckIn; unfold_monad; by rewrite Hv).
    left. exists (Some s). split; [done|]. by apply recordCheckIn_run.
  - left. exists None. split; [done|]. by apply recordCheckIn_run.
Qed.

Lemma saveCheckIn_spec remote card dd a0 cts text w :
  ∃ r w' saved evs,
    saveCheckIn remote card dd a0 cts text (w, mkLocals a0 false)
    = (Ok r, (w', mkLocals a0 saved))
    ∧ afterCalls w w' evs
    ∧ (∀ c, c ∈ evs → ∃ a n rec, c = RecordCheckIn a n rec ∧ truthyStr a0 = Some a)
    ∧ (if saved
       then ∃ a newName record prior,
              truthyStr a0 = Some a
              ∧ db w !! userKey a = VUser <$> prior
              ∧ db w' = snd (recordCheckIn a newName record (db w))
       else db w' = db w).
Proof.
  unfold saveCheckIn.
  destruct (truthyStr a0) as [a|] eqn:Ha.
  2:{ exists None, w, false, []. split; [done|].
      split; [apply afterCalls_refl|]. split; [|done].
      intros c Hc. by apply elem_of_nil in Hc. }
  destruct (0 <? length cts)%nat.
  2:{ exists None, w, false, []. split; [done|].
      split; [apply afterCalls_refl|]. split; [|done].
      intros c Hc. by apply elem_of_nil in Hc. }
  set (authorName := match dd ≫= extractAuthorName with
                     | Some n => n | None => "用户" +:+ a end).
  set (record := mkCheckInRecord _ _ _ _ _).
  unfold try_catch, bind, ret. unfold_world. simpl.
  destruct (recordCheckIn_cases a authorName record (db w))
    as [(prior & Hprior & Hrun)|Hrun]; rewrite Hrun; simpl.
  - rewrite getUserStats_lookup. simpl.
    eexists _, _, true, [_]. split; [done|]. split; [done|].
    split.
    + intros c ->%list_elem_of_singleton. eauto.
    + exists a, authorName, record, prior. by rewrite Hrun.
  - eexists None, _, false, [_]. split; [done|]. split; [done|].
    split; [|done].
    intros c ->%list_elem_of_singleton. eauto.
Qed.

End PostComment.

Section PostComment2.

Lemma analyseClouds_spec cfg remote card w l :
  ∃ r w' evs,
    analyseClouds cfg remote card (w, l) = (Ok r, (w', l))
    ∧ afterCalls w w' evs
    ∧ db w' = db w
    ∧ ∀ c, c ∈ evs → ∃ urls, c = AnalyzeImages urls.
Proof.
  unfold analyseClouds.
  destruct (enableCloudAnalysis cfg).
  2:{ eexists _, w, []. split; [done|]. split; [apply afterCalls_refl|].
      split; [done|]. intros c Hc. by apply elem_of_nil in Hc. }
  destruct (0 <? length (checkImagesInDynamicCard card))%nat.
  2:{ eexists _, w, []. split; [done|]. split; [apply afterCalls_refl|].
      split; [done|]. intros c Hc. by apply elem_of_nil in Hc. }
  unfold try_catch, bind, ret. unfold_world. simpl.
  destruct (analysisResult remote) as [res|e]; simpl.
  - eexists _, _, [_]. split; [done|]. split; [done|]. split; [done|].
    intros c ->%list_elem_of_singleton. eauto.
  - eexists _, _, [_]. split; [done|]. split; [done|]. split; [done|].
    intros c ->%list_elem_of_singleton. eauto.
Qed.

Lemma renderCheckInImage_spec cfg remote stats w l :
  ∃ r w' evs,
    renderCheckInImage cfg remote stats (w, l) = (Ok r, (w', l))
    ∧ afterCalls w w' evs
    ∧ db w' = db w
    ∧ ∀ c, c ∈ evs → ∃ s, c = GenerateCheckInImage s.
Proof.
  unfold renderCheckInImage.
  destruct stats as [s|].
  2:{ eexists _, w, []. split; [done|]. split; [apply afterCalls_refl|].
      split; [done|]. intros c Hc. by apply elem_of_nil in Hc. }
  destruct (enableCheckInImage cfg).
  2:{ eexists _, w, []. split; [done|]. split; [apply afterCalls_refl|].
      split; [done|]. intros c Hc. by apply elem_of_nil in Hc. }
  unfold bind, ret. unfold_world. simpl.
  eexists _, _, [_]. split; [done|]. split; [done|]. split; [done|].
  intros c ->%list_elem_of_singleton. eauto.
Qed.

Lemma rollbackIfSaved_spec w a0 saved :
  ∃ w' evs,
    rollbackIfSaved (w, mkLocals a0 saved) = (Ok tt, (w', mkLocals a0 saved))
    ∧ afterCalls w w' evs
    ∧ (∀ c, c ∈ evs → ∃ a, c = RollbackLastCheckIn a)
    ∧ match saved, truthyStr a0 with
      | true, Some a => db w' = snd (rollbackLastCheckIn a (db w))
      | _, _ => db w' = db w
      end.
Proof.
  unfold rollbackIfSaved. unfold bind at 1. unfold getLocals. simpl.
  destruct saved, (truthyStr a0) as [a|];
    try (exists w, []; split; [done|]; split; [apply afterCalls_refl|];
         split; [|done]; intros c Hc; by apply elem_of_nil in Hc).
  unfold try_catch, bind, ret. unfold_world. simpl.
  destruct (rollbackLastCheckIn_total a (db w)) as (b & db' & Hrun & _).
  rewrite Hrun. simpl.
  eexists _, [_]. split; [done|]. split; [done|]. split; [|done].
  intros c ->%list_elem_of_singleton. eauto.
Qed.

Lemma markCommentedToday_spec remote a0 w l :
  ∃ w' evs,
    markCommentedToday remote a0 (w, l) = (Ok tt, (w', l))
    ∧ afterCalls w w' evs
    ∧ (∀ c, c ∈ evs → ∃ a, c = RecordDailyComment a)
    ∧ sameLedger (db w) (db w').
Proof.
  unfold markCommentedToday.
  destruct (truthyStr a0) as [a|].
  2:{ exists w, []. split; [done|]. split; [apply afterCalls_refl|].
      split; [|done]. intros c Hc. by apply elem_of_nil in Hc. }
  unfold try_catch, bind, ret. unfold_world. simpl.
  eexists _, [_]. split; [done|]. split; [done|]. split.
  - intros c ->%list_elem_of_singleton. eauto.
  - intros n. simpl. apply lookup_insert_ne. symmetry. apply processedKey_dailyKey.
Qed.

End PostComment2.

Section PostComment3.

Lemma recordCheckIn_sameLedger u newName record (db : gmap string value) :
  sameLedger db (snd (recordCheckIn u newName record db)).
Proof.
  destruct (recordCheckIn_cases u newName record db)
    as [(prior & _ & Hrun)|Hrun]; rewrite Hrun; simpl; [|done].
  intros n.
  rewrite lookup_insert_ne by apply recordKey_processedKey.
  by rewrite lookup_insert_ne by apply userKey_processedKey.
Qed.

Lemma sameLedger_trans db1 db2 db3 :
  sameLedger db1 db2 → sameLedger db2 db3 → sameLedger db1 db3.
Proof. intros H1 H2 n. by rewrite H2, H1. Qed.

Lemma postComment_spec cfg remote ty rid card dd w :
  ∃ b w' evs,
    postComment cfg remote ty rid card dd w = (Ok b, w')
    ∧ afterCalls w w' evs
    ∧ sameLedger (db w) (db w')
    ∧ (∀ a n rec, RecordCheckIn a n rec ∈ evs →
         truthyStr (dd ≫= extractAuthorId) = Some a)
    ∧ (postCode remote ≠ Ok 0%Z →
         b = false ∧ sameDaily (db w) (db w') ∧ sameTotals (db w) (db w')).
Proof.
  unfold postComment, withLocals.
  unfold try_catch at 1. unfold bind at 1. unfold answer at 1.
  destruct (getCsrfToken (cookie cfg)) as [csrf|e].
  2:{ unfold bind at 1.
      destruct (rollbackIfSaved_spec w None false)
        as (w' & evs & Hrun & Hafter & Hevs & Hdb).
      rewrite Hrun. simpl in Hdb. unfold ret.
      exists false, w', evs. split; [done|]. split; [done|].
      rewrite Hdb. split; [done|]. split; [|done].
      intros a n rec Hin. destruct (Hevs _ Hin) as [? [=]]. }
  set (a0 := dd ≫= extractAuthorId).
  unfold bind at 1. unfold setAuthorId at 1. cbn [recordSaved].
  unfold bind at 1.
  destruct (analyseClouds_spec cfg remote card w (mkLocals a0 false))
    as (analysed & w1 & evs1 & Hrun1 & Hafter1 & Hdb1 & Hevs1).
  rewrite Hrun1. destruct analysed as [[cloudTypes commentText]|].
  2:{ unfold ret. exists false, w1, evs1. split; [done|]. split; [done|].
      rewrite Hdb1. split; [done|]. split; [|done].
      intros a n rec Hin. destruct (Hevs1 _ Hin) as [? [=]]. }
  unfold bind at 1.
  destruct (saveCheckIn_spec remote card dd a0 cloudTypes commentText w1)
    as (stats & w2 & saved & evs2 & Hrun2 & Hafter2 & Hevs2 & Hdb2).
  rewrite Hrun2. unfold bind at 1.
  destruct (renderCheckInImage_spec cfg remote stats w2 (mkLocals a0 saved))
    as (imageInfo & w3 & evs3 & Hrun3 & Hafter3 & Hdb3 & Hevs3).
  rewrite Hrun3. unfold bind at 1. unfold inWorld at 1, call at 1.
  set (w4 := mkWorld (db w3) (calls w3 ++ [AddComment rid ty commentText imageInfo])
                     (isProcessing w3)).
  assert (afterCalls w w4
            (evs1 ++ evs2 ++ evs3 ++ [AddComment rid ty commentText imageInfo]))
    as Hafter4.
  { apply (afterCalls_trans _ w1); [done|].
    apply (afterCalls_trans _ w2); [done|].
    apply (afterCalls_trans _ w3); [done|]. done. }
  assert (∀ a n rec,
            RecordCheckIn a n rec
              ∈ evs1 ++ evs2 ++ evs3 ++ [AddComment rid ty commentText imageInfo]
            → truthyStr a0 = Some a) as Hauthor4.
  { intros a n rec.
    rewrite !elem_of_app, list_elem_of_singleton.
    intros [Hin|[Hin|[Hin|Hin]]].
    - destruct (Hevs1 _ Hin) as [? [=]].
    - destruct (Hevs2 _ Hin) as (a' & n' & rec' & [= -> -> ->] & ?). done.
    - destruct (Hevs3 _ Hin) as [? [=]].
    - done. }
  assert (db w4 = db w2) as Hdb4 by done.
  assert (sameLedger (db w) (db w2)) as Hledger2.
  { rewrite <- Hdb1. destruct saved; [|by rewrite Hdb2].
    destruct Hdb2 as (a & newName & record & prior & _ & _ & ->).
    apply recordCheckIn_sameLedger. }
  (* the two failure branches end in the same way *)
  destruct (rollbackIfSaved_spec w4 a0 saved)
    as (w5 & evs5 & Hrun5 & Hafter5 & Hevs5 & Hdb5).
  assert (sameLedger (db w) (db w5) ∧ sameDaily (db w) (db w5)
          ∧ sameTotals (db w) (db w5)) as (Hl5 & Hd5 & Ht5).
  { rewrite <- Hdb1. destruct saved.
    - destruct Hdb2 as (a & newName & record & prior & Ha & Hprior & Hdb2).
      rewrite Ha in Hdb5. rewrite Hdb4, Hdb2 in Hdb5.
      destruct (append_rollback_neutral a newName record (db w1) prior Hprior)
        as (db2 & Hroll & ? & ? & ?).
      rewrite Hroll in Hdb5. simpl in Hdb5. by rewrite Hdb5.
    - rewrite Hdb5, Hdb4, Hdb2. done. }
  assert (∀ a n rec,
            RecordCheckIn a n rec
              ∈ (evs1 ++ evs2 ++ evs3
                 ++ [AddComment rid ty commentText imageInfo]) ++ evs5
            → truthyStr a0 = Some a) as Hauthor5.
  { intros a n rec. rewrite elem_of_app. intros [Hin|Hin]; [by eapply Hauthor4|].
    destruct (Hevs5 _ Hin) as [? [=]]. }
  unfold answer at 1.
  destruct (postCode remote) as [code|e] eqn:Hcode;
    unfold bind at 1; cbv beta iota.
  2:{ unfold bind at 1. rewrite Hrun5. unfold ret.
      eexists false, w5, _. split; [done|].
      split; [by eapply afterCalls_trans|]. done. }
  destruct (Z.eqb_spec code 0) as [->|Hne].
  - unfold bind at 1.
    destruct (markCommentedToday_spec remote a0 w4 (mkLocals a0 saved))
      as (w6 & evs6 & Hrun6 & Hafter6 & Hevs6 & Hl6).
    rewrite Hrun6. unfold ret.
    eexists true, w6, _. split; [done|].
    split; [by eapply afterCalls_trans|].
    split; [|split; [|done]].
    + eapply sameLedger_trans; [exact Hledger2|]. by rewrite <- Hdb4.
    + intros a n rec. rewrite elem_of_app.
      intros [Hin|Hin]; [by eapply Hauthor4|].
      destruct (Hevs6 _ Hin) as [? [=]].
  - unfold bind at 1. rewrite Hrun5. unfold ret.
    eexists false, w5, _. split; [done|].
    split; [by eapply afterCalls_trans|]. done.
Qed.

End PostComment3.

Section Workflow.

Lemma fetchDynamicData_spec remote uri dynamicId w :
  ∃ fetched w' evs,
    fetchDynamicData remote uri dynamicId w = (Ok fetched, w')
    ∧ afterCalls w w' evs
    ∧ db w' = db w
    ∧ ∀ c, c ∈ evs → c = GetOpusDetail dynamicId ∨ c = GetDynamicDetails dynamicId.
Proof.
  unfold fetchDynamicData, try_catch, bind, ret. unfold_world.
  destruct (includes "/opus/" uri);
    [destruct (opusDetail remote) as [[dd1|]|e1]|];
    try destruct (generalDetail remote) as [[dd2|]|e2]; simpl;
    eexists _, _, _; (split; [reflexivity|]);
    (split; [split; [simpl; rewrite <- ?app_assoc; reflexivity|reflexivity]|]);
    (split; [reflexivity|]);
    intros c Hc; simpl in Hc;
    repeat (apply elem_of_cons in Hc as [->|Hc]; [by auto|]);
    by apply elem_of_nil in Hc.
Qed.

Lemma recordProcessed_run atMessage dynamicId t w :
  recordProcessed atMessage dynamicId t w
  = (Ok tt,
     let pm := mkProcessedAtMessage (at_id atMessage) dynamicId t
                 (nickname (user atMessage)) (uri (item atMessage)) in
     {| db := <[processedKey (at_id atMessage) := VProcessed pm]> (db w);
        calls := calls w ++ [RecordProcessedAtMessage pm];
        isProcessing := isProcessing w |}).
Proof. done. Qed.

Lemma checkIfUserCommentedAndPost_spec cfg remote ty rid card dd w :
  ∃ b w' evs,
    checkIfUserCommentedAndPost cfg remote ty rid card dd w = (Ok b, w')
    ∧ afterCalls w w' evs
    ∧ sameLedger (db w) (db w')
    ∧ (∀ a n rec, RecordCheckIn a n rec ∈ evs →
         truthyStr (dd ≫= extractAuthorId) = Some a)
    ∧ (∀ oid t msg pic, AddComment oid t msg pic ∈ evs →
         (∀ a, truthyStr (dd ≫= extractAuthorId) = Some a →
               hasUserCommentedToday (clockToday remote) a (db w)
               = (Ok false, db w))
         ∧ (postCode remote ≠ Ok 0%Z →
              b = false ∧ sameDaily (db w) (db w') ∧ sameTotals (db w) (db w')))
    ∧ (checkImagesInDynamicCard card = [] → b = true ∧ w' = w).
Proof.
  unfold checkIfUserCommentedAndPost.
  destruct (checkImagesInDynamicCard card) as [|image images] eqn:Himages.
  { exists true, w, []. simpl. split; [done|]. split; [apply afterCalls_refl|].
    split; [done|].
    split; [intros a n rec Hin; by apply elem_of_nil in Hin|].
    split; [intros oid t msg pic Hin; by apply elem_of_nil in Hin|done]. }
  cbn [length Nat.eqb]. unfold bind at 1.
  assert (∃ gate,
    match truthyStr (dd ≫= extractAuthorId) with
    | Some a => liftDB (hasUserCommentedToday (clockToday remote) a)
    | None => ret false
    end w = (Ok gate, w)
    ∧ (gate = false →
       ∀ a, truthyStr (dd ≫= extractAuthorId) = Some a →
            hasUserCommentedToday (clockToday remote) a (db w)
            = (Ok false, db w))) as (gate & Hrun & Hgate).
  { destruct (truthyStr (dd ≫= extractAuthorId)) as [a|].
    - unfold liftDB. rewrite hasUserCommentedToday_lookup.
      eexists. split; [by destruct w|].
      intros Hfalse a' [= <-]. by rewrite hasUserCommentedToday_lookup, Hfalse.
    - exists false. split; [done|]. by intros _ a'. }
  rewrite Hrun. destruct gate.
  { exists true, w, []. split; [done|]. split; [apply afterCalls_refl|].
    split; [done|].
    split; [intros a n rec Hin; by apply elem_of_nil in Hin|].
    split; [intros oid t msg pic Hin; by apply elem_of_nil in Hin|done]. }
  specialize (Hgate eq_refl).
  unfold try_catch at 1. unfold bind at 1. unfold call at 1.
  set (w1 := mkWorld (db w) (calls w ++ [GetComments rid ty]) (isProcessing w)).
  unfold bind at 1. unfold answer at 1.
  assert (afterCalls w w1 [GetComments rid ty]) as Hafter1 by done.
  destruct (commentReplies remote) as [comments|e].
  2:{ exists false, w1, [GetComments rid ty]. split; [done|]. split; [done|].
      split; [done|].
      split; [by intros a n rec [=]%list_elem_of_singleton|].
      split; [by intros oid t msg pic [=]%list_elem_of_singleton|done]. }
  destruct (match comments with
            | Some rs => alreadyCommented (uidToMonitor cfg) rs
            | None => false
            end).
  { exists true, w1, [GetComments rid ty]. split; [done|]. split; [done|].
    split; [done|].
    split; [by intros a n rec [=]%list_elem_of_singleton|].
    split; [by intros oid t msg pic [=]%list_elem_of_singleton|done]. }
  destruct (postComment_spec cfg remote ty rid card dd w1)
    as (b & w' & evs & Hpost & Hafter & Hledger & Hauthor & Hfail).
  rewrite Hpost.
  exists b, w', ([GetComments rid ty] ++ evs). split; [done|].
  split; [by eapply afterCalls_trans|]. split; [done|].
  split.
  { intros a n rec [[=]%list_elem_of_singleton|Hin]%elem_of_app.
    by eapply Hauthor. }
  split; [|done].
  intros oid t msg pic _. split; [done|]. exact Hfail.
Qed.

End Workflow.

Section Workflow2.

Lemma processAtMessage_spec cfg remote atMessage w :
  ∃ w' evs,
    processAtMessage cfg remote atMessage w = (Ok tt, w')
    ∧ afterCalls w w' evs
    ∧ (∀ n, n ≠ at_id atMessage →
            db w' !! processedKey n = db w !! processedKey n)
    ∧ (is_Some (db w !! processedKey (at_id atMessage)) →
       is_Some (db w' !! processedKey (at_id atMessage)))
    ∧ (∀ oid t msg pic, AddComment oid t msg pic ∈ evs →
         postCode remote ≠ Ok 0%Z →
         sameLedger (db w) (db w') ∧ sameDaily (db w) (db w')
         ∧ sameTotals (db w) (db w')
         ∧ ∀ a n rec, RecordCheckIn a n rec ∈ evs →
             hasUserCommentedToday (clockToday remote) a (db w)
             = (Ok false, db w)).
Proof.
  assert (∀ w0 dynamicId t,
    ∃ w' pm,
      recordProcessed atMessage dynamicId t w0 = (Ok tt, w')
      ∧ afterCalls w0 w' [RecordProcessedAtMessage pm]
      ∧ (∀ n, n ≠ at_id atMessage →
              db w' !! processedKey n = db w0 !! processedKey n)
      ∧ is_Some (db w' !! processedKey (at_id atMessage))) as Hmark.
  { intros w0 dynamicId t. rewrite recordProcessed_run. cbv zeta.
    eexists _, _. split; [done|]. split; [done|]. simpl. split.
    - intros n Hn. apply lookup_insert_ne. intros ?%processedKey_inj. done.
    - rewrite lookup_insert_eq. eauto. }
  unfold processAtMessage. unfold try_catch at 1.
  destruct (resolveUri (uri (item atMessage))) as [dynamicId|sentinel].
  2:{ destruct (Hmark w sentinel (clockNow remote))
        as (w' & pm & Hrun & Hafter & Hothers & Hown).
      rewrite Hrun. exists w', [RecordProcessedAtMessage pm].
      split; [done|]. split; [done|]. split; [done|]. split; [done|].
      by intros oid t msg pic [=]%list_elem_of_singleton. }
  unfold bind at 1.
  destruct (fetchDynamicData_spec remote (uri (item atMessage)) dynamicId w)
    as (fetched & w1 & evs1 & Hrun1 & Hafter1 & Hdb1 & Hevs1).
  rewrite Hrun1.
  assert (∀ oid t msg pic, AddComment oid t msg pic ∉ evs1) as Hno1.
  { intros oid t msg pic Hin. by destruct (Hevs1 _ Hin). }
  assert (∀ a n rec, RecordCheckIn a n rec ∉ evs1) as Hno1'.
  { intros a n rec Hin. by destruct (Hevs1 _ Hin). }
  destruct fetched as [dynamicData|].
  2:{ exists w1, evs1. unfold ret. split; [done|]. split; [done|].
      rewrite Hdb1. split; [done|]. split; [done|].
      intros oid t msg pic Hin. by destruct (Hno1 _ _ _ _ Hin). }
  destruct (isStale remote dynamicData).
  { destruct (Hmark w1 dynamicId (clockNow remote))
      as (w' & pm & Hrun & Hafter & Hothers & Hown).
    rewrite Hrun. exists w', (evs1 ++ [RecordProcessedAtMessage pm]).
    split; [done|]. split; [by eapply afterCalls_trans|].
    rewrite <- Hdb1. split; [done|]. split; [done|].
    intros oid t msg pic [Hin|[=]%list_elem_of_singleton]%elem_of_app.
    by destruct (Hno1 _ _ _ _ Hin). }
  cbv zeta. unfold bind at 1.
  set (card := dynamicCardOf atMessage dynamicId dynamicData).
  set (commentType := default _ _). set (commentRid := default _ _).
  destruct (checkIfUserCommentedAndPost_spec cfg remote commentType commentRid
              card (Some dynamicData) w1)
    as (b & w2 & evs2 & Hrun2 & Hafter2 & Hledger2 & Hauthor2 & Hpost2 & _).
  rewrite Hrun2. destruct b.
  - destruct (Hmark w2 dynamicId (clockNow remote))
      as (w' & pm & Hrun & Hafter & Hothers & Hown).
    rewrite Hrun. exists w', (evs1 ++ evs2 ++ [RecordProcessedAtMessage pm]).
    split; [done|].
    split; [eapply afterCalls_trans; [done|]; by eapply afterCalls_trans|].
    split; [|split; [done|]].
    + intros n Hn. rewrite Hothers by done. rewrite Hledger2. by rewrite Hdb1.
    + intros oid t msg pic
        [Hin|[Hin|[=]%list_elem_of_singleton]%elem_of_app]%elem_of_app Hfail.
      * by destruct (Hno1 _ _ _ _ Hin).
      * by destruct (Hpost2 _ _ _ _ Hin) as [_ [[=] _]].
  - unfold ret. exists w2, (evs1 ++ evs2). split; [done|].
    split; [by eapply afterCalls_trans|].
    rewrite <- Hdb1.
    split; [intros n _; apply Hledger2|].
    split; [intros [v Hv]; exists v; by rewrite Hledger2|].
    intros oid t msg pic [Hin|Hin]%elem_of_app Hfail.
    { by destruct (Hno1 _ _ _ _ Hin). }
    destruct (Hpost2 _ _ _ _ Hin) as [Hgate Hrest].
    destruct (Hrest Hfail) as (_ & Hdaily & Htotals).
    split; [done|]. split; [done|]. split; [done|].
    intros a n rec [Hin'|Hin']%elem_of_app.
    { by destruct (Hno1' _ _ _ Hin'). }
    apply Hgate. by eapply Hauthor2.
Qed.

End Workflow2.

(** ** The workflow: statements of the specification *)

Section WorkflowSpec.

Lemma handleAtMessage_skip cfg counts atMessage remote w :
  is_Some (db w !! processedKey (at_id atMessage)) →
  handleAtMessage cfg counts (atMessage, remote) w
  = (Ok (counts.1, S counts.2), w).
Proof.
  intros Hprocessed. destruct counts as [processedCount skippedCount].
  unfold handleAtMessage, bind, liftDB.
  rewrite isAtMessageProcessed_lookup, bool_decide_eq_true_2 by done.
  by destruct w.
Qed.

Lemma handleAtMessage_fresh cfg counts atMessage remote w :
  db w !! processedKey (at_id atMessage) = None →
  handleAtMessage cfg counts (atMessage, remote) w
  = (Ok (S counts.1, counts.2), snd (processAtMessage cfg remote atMessage w)).
Proof.
  intros Hfresh. destruct counts as [processedCount skippedCount].
  unfold handleAtMessage, bind at 1, liftDB.
  rewrite isAtMessageProcessed_lookup, bool_decide_eq_false_2
    by (rewrite Hfresh; by intros [? ?]).
  destruct (processAtMessage_spec cfg remote atMessage w)
    as (w' & evs & Hrun & _).
  destruct w as [d c p]. cbn [db calls isProcessing].
  unfold bind. rewrite Hrun. done.
Qed.

(** C1. When the handling of a notification has recorded a check-in for
    the author [a] and has attempted the post, and the post answers a
    non-zero code or rejects, then afterwards the notification is not
    processed, the author's [totalCheckIns] is what it was before, and the
    author is not marked for the day. *)
Theorem C1_failed_post_is_compensated cfg counts atMessage remote w
    counts' w' evs a newName record oid t msg pic :
  handleAtMessage cfg counts (atMessage, remote) w = (Ok counts', w') →
  afterCalls w w' evs →
  RecordCheckIn a newName record ∈ evs →
  AddComment oid t msg pic ∈ evs →
  postCode remote ≠ Ok 0%Z →
  isAtMessageProcessed (at_id atMessage) (db w') = (Ok false, db w')
  ∧ totalActionsOf a (db w') = totalActionsOf a (db w)
  ∧ hasUserCommentedToday (clockToday remote) a (db w') = (Ok false, db w').
Proof.
  intros Hrun Hafter Hrecord Hpost Hfail.
  destruct (db w !! processedKey (at_id atMessage)) as [v|] eqn:Hledger.
  { rewrite handleAtMessage_skip in Hrun by eauto.
    injection Hrun as _ <-.
    rewrite (afterCalls_inj _ _ _ _ Hafter (afterCalls_refl w)) in Hpost.
    by apply elem_of_nil in Hpost. }
  rewrite handleAtMessage_fresh in Hrun by done.
  destruct (processAtMessage_spec cfg remote atMessage w)
    as (w2 & evs2 & Hrun2 & Hafter2 & _ & _ & Hcomp).
  rewrite Hrun2 in Hrun. injection Hrun as _ <-.
  rewrite (afterCalls_inj _ _ _ _ Hafter Hafter2) in Hpost, Hrecord.
  destruct (Hcomp _ _ _ _ Hpost Hfail) as (Hl & Hd & Ht & Hgate).
  split; [|split].
  - rewrite isAtMessageProcessed_lookup, Hl, Hledger.
    rewrite bool_decide_eq_false_2; [done|]. by intros [? ?].
  - apply Ht.
  - specialize (Hgate _ _ _ Hrecord).
    rewrite hasUserCommentedToday_lookup in Hgate |- *.
    rewrite Hd. by injection Hgate as ->.
Qed.

End WorkflowSpec.


Section WorkflowSpec2.

Lemma C1_witness :
  let remote := sampleRemote onePic (Ok 12002%Z) in
  let w' := snd (handleAtMessage sampleConfig (0, 0)%nat
                   (sampleMessage, remote) emptyWorld) in
  let record := mkCheckInRecord "9" 1738300000000 [sampleCloud] 1 "..." in
  handleAtMessage sampleConfig (0, 0)%nat (sampleMessage, remote) emptyWorld
  = (Ok (1, 0)%nat, w')
  ∧ afterCalls emptyWorld w' (calls w')
  ∧ RecordCheckIn "1001" "bob" record ∈ calls w'
  ∧ AddComment "9" 11 "..." None ∈ calls w'
  ∧ postCode remote ≠ Ok 0%Z
  ∧ isAtMessageProcessed 42 (db w') = (Ok false, db w')
  ∧ totalActionsOf "1001" (db w') = totalActionsOf "1001" (db emptyWorld)
  ∧ hasUserCommentedToday dayD "1001" (db w') = (Ok false, db w').
Proof.
  intros remote w' record.
  assert (handleAtMessage sampleConfig (0, 0)%nat (sampleMessage, remote)
            emptyWorld = (Ok (1, 0)%nat, w')) as H1
    by (vm_compute; reflexivity).
  assert (afterCalls emptyWorld w' (calls w')) as H2
    by (split; reflexivity).
  assert (RecordCheckIn "1001" "bob" record ∈ calls w') as H3
    by (vm_compute; do 3 apply list_elem_of_further; apply list_elem_of_here).
  assert (AddComment "9" 11 "..." None ∈ calls w') as H4
    by (vm_compute; do 4 apply list_elem_of_further; apply list_elem_of_here).
  assert (postCode remote ≠ Ok 0%Z) as H5 by discriminate.
  split; [exact H1|]. split; [exact H2|]. split; [exact H3|].
  split; [exact H4|]. split; [exact H5|].
  exact (C1_failed_post_is_compensated sampleConfig (0, 0)%nat sampleMessage
           remote emptyWorld (1, 0)%nat w' (calls w') "1001" "bob" record
           "9" 11%Z "..." None H1 H2 H3 H4 H5).
Defined.

(** C6. When the notification resolves to a dynamic whose image list is
    empty, [processAtMessage] marks the notification as processed; it
    leaves every other key of the store alone, and besides the detail
    requests its only call is the write to the ledger: no check-in is
    recorded and no comment is posted. *)
Theorem C6_no_image_is_processed cfg remote atMessage dynamicId dd w :
  resolveUri (uri (item atMessage)) = Resolved dynamicId →
  fst (fetchDynamicData remote (uri (item atMessage)) dynamicId w)
  = Ok (Some dd) →
  checkImagesInDynamicCard (dynamicCardOf atMessage dynamicId dd) = [] →
  ∃ w' evs,
    processAtMessage cfg remote atMessage w = (Ok tt, w')
    ∧ isAtMessageProcessed (at_id atMessage) (db w') = (Ok true, db w')
    ∧ (∀ key, key ≠ processedKey (at_id atMessage) →
              db w' !! key = db w !! key)
    ∧ afterCalls w w' evs
    ∧ ∀ c, c ∈ evs →
           c = GetOpusDetail dynamicId ∨ c = GetDynamicDetails dynamicId
           ∨ ∃ pm, c = RecordProcessedAtMessage pm.
Proof.
  intros Hresolve Hfetch Himages.
  destruct (fetchDynamicData_spec remote (uri (item atMessage)) dynamicId w)
    as (fetched & w1 & evs1 & Hrun1 & Hafter1 & Hdb1 & Hevs1).
  rewrite Hrun1 in Hfetch. simpl in Hfetch. injection Hfetch as ->.
  assert (∃ pm,
    processAtMessage cfg remote atMessage w
    = (Ok tt,
       {| db := <[processedKey (at_id atMessage) := VProcessed pm]> (db w1);
          calls := calls w1 ++ [RecordProcessedAtMessage pm];
          isProcessing := isProcessing w1 |})) as [pm Hrun].
  { unfold processAtMessage. rewrite Hresolve.
    unfold try_catch at 1. unfold bind at 1. rewrite Hrun1.
    destruct (isStale remote dd).
    - rewrite recordProcessed_run. eauto.
    - cbv zeta. unfold bind at 1.
      destruct (checkIfUserCommentedAndPost_spec cfg remote
                  (default (business_id (item atMessage))
                     (truthyNum (basic (dynamicCardOf atMessage dynamicId dd)
                                 ≫= comment_type)))
                  (default dynamicId
                     (truthyStr (basic (dynamicCardOf atMessage dynamicId dd)
                                 ≫= rid_str)))
                  (dynamicCardOf atMessage dynamicId dd) (Some dd) w1)
        as (b & w2 & evs2 & Hrun2 & _ & _ & _ & _ & Hempty).
      destruct (Hempty Himages) as [-> ->]. rewrite Hrun2.
      rewrite recordProcessed_run. eauto. }
  eexists _, (evs1 ++ [RecordProcessedAtMessage pm]).
  split; [exact Hrun|]. cbn [db]. split; [|split; [|split]].
  - rewrite isAtMessageProcessed_lookup, lookup_insert_eq.
    by rewrite bool_decide_eq_true_2 by eauto.
  - intros key Hkey. rewrite lookup_insert_ne by done. by rewrite Hdb1.
  - eapply afterCalls_trans; [done|]. done.
  - intros c [Hin|Hin%list_elem_of_singleton]%elem_of_app; [|subst; eauto].
    destruct (Hevs1 _ Hin); auto.
Qed.

Lemma C6_witness :
  let remote := sampleRemote [] (Ok 0%Z) in
  resolveUri (uri (item sampleMessage)) = Resolved "9"
  ∧ fst (fetchDynamicData remote (uri (item sampleMessage)) "9" emptyWorld)
    = Ok (Some (sampleData []))
  ∧ checkImagesInDynamicCard (dynamicCardOf sampleMessage "9" (sampleData []))
    = []
  ∧ ∃ w' evs,
      processAtMessage sampleConfig remote sampleMessage emptyWorld
      = (Ok tt, w')
      ∧ isAtMessageProcessed 42 (db w') = (Ok true, db w')
      ∧ (∀ key, key ≠ processedKey 42 → db w' !! key = db emptyWorld !! key)
      ∧ afterCalls emptyWorld w' evs
      ∧ ∀ c, c ∈ evs →
             c = GetOpusDetail "9" ∨ c = GetDynamicDetails "9"
             ∨ ∃ pm, c = RecordProcessedAtMessage pm.
Proof.
  intros remote.
  assert (resolveUri (uri (item sampleMessage)) = Resolved "9") as H1
    by (vm_compute; reflexivity).
  assert (fst (fetchDynamicData remote (uri (item sampleMessage)) "9"
                 emptyWorld) = Ok (Some (sampleData []))) as H2
    by (vm_compute; reflexivity).
  assert (checkImagesInDynamicCard
            (dynamicCardOf sampleMessage "9" (sampleData [])) = []) as H3
    by (vm_compute; reflexivity).
  split; [exact H1|]. split; [exact H2|]. split; [exact H3|].
  exact (C6_no_image_is_processed sampleConfig remote sampleMessage "9"
           (sampleData []) emptyWorld H1 H2 H3).
Defined.

End WorkflowSpec2.

Section Cycle.

Lemma handleAtMessage_total cfg counts entry w :
  ∃ counts' w',
    handleAtMessage cfg counts entry w = (Ok counts', w')
    ∧ (∀ counts2, snd (handleAtMessage cfg counts2 entry w) = w')
    ∧ ∀ n, is_Some (db w !! processedKey n) →
           db w' !! processedKey n = db w !! processedKey n.
Proof.
  destruct entry as [atMessage remote].
  destruct (db w !! processedKey (at_id atMessage)) as [v|] eqn:Hledger.
  - eexists _, w. split; [apply handleAtMessage_skip; eauto|].
    split; [|done]. intros counts2. rewrite handleAtMessage_skip; eauto.
  - eexists _, _. split; [by apply handleAtMessage_fresh|].
    split; [intros counts2; by rewrite handleAtMessage_fresh|].
    destruct (processAtMessage_spec cfg remote atMessage w)
      as (w' & evs & Hrun & _ & Hothers & _).
    rewrite Hrun. simpl. intros n [v Hv]. apply Hothers.
    intros ->. by rewrite Hledger in Hv.
Qed.

Lemma handleAtMessages_drop cfg n entries : ∀ counts1 counts2 w,
  is_Some (db w !! processedKey n) →
  ∃ c1 c2 w',
    handleAtMessages cfg counts1 entries w = (Ok c1, w')
    ∧ handleAtMessages cfg counts2
        (filter (λ entry, at_id entry.1 ≠ n) entries) w = (Ok c2, w')
    ∧ db w' !! processedKey n = db w !! processedKey n.
Proof.
  induction entries as [|entry entries IH]; intros counts1 counts2 w Hn.
  { by exists counts1, counts2, w. }
  rewrite filter_cons. cbn [handleAtMessages]. unfold bind at 1.
  destruct (decide (at_id entry.1 ≠ n)) as [Hne|Heq].
  - cbn [handleAtMessages]. unfold bind.
    destruct (handleAtMessage_total cfg counts1 entry w)
      as (c1 & w1 & Hrun1 & Hworld & Hkeep).
    pose proof (Hworld counts2) as Hrun2.
    destruct (handleAtMessage_total cfg counts2 entry w)
      as (c2 & w2 & Hrun2' & _ & _).
    rewrite Hrun2' in Hrun2. simpl in Hrun2. subst w2.
    rewrite Hrun1, Hrun2'.
    destruct (IH c1 c2 w1) as (c1' & c2' & w' & H1 & H2 & H3).
    { rewrite Hkeep by done. done. }
    exists c1', c2', w'. split; [done|]. split; [done|].
    rewrite H3. by apply Hkeep.
  - apply dec_stable in Heq. destruct entry as [atMessage remote].
    simpl in Heq. subst n.
    rewrite handleAtMessage_skip by done.
    apply IH. done.
Qed.

Lemma checkAndComment_run cfg entries w :
  isProcessing w = false →
  ∀ counts w',
    handleAtMessages cfg (0, 0)%nat entries
      {| db := db w; calls := calls w ++ [GetAtFeed]; isProcessing := true |}
    = (Ok counts, w') →
    ∃ r,
      checkAndComment cfg (Ok (Some entries)) w
      = (Ok r, {| db := db w'; calls := calls w'; isProcessing := false |}).
Proof.
  intros Hidle counts w' Hloop.
  unfold checkAndComment. rewrite Hidle.
  unfold bind at 1, setProcessing at 1, try_finally, try_catch.
  unfold bind at 1, call at 1. cbn [db calls isProcessing].
  unfold bind at 1, answer at 1.
  destruct entries as [|entry entries].
  - injection Hloop as _ <-. by eexists.
  - unfold bind at 1. rewrite Hloop. by eexists.
Qed.

(** C4. A notification [n] that is in the ledger is skipped: handling it
    changes neither the store nor the list of calls, and counts one more
    skipped message. A whole cycle leaves the ledger record of [n] as it
    is, and ends in the very state, store and calls alike, of the cycle
    whose feed does not mention [n] at all. *)
Theorem C4_processed_notification_is_skipped cfg n w :
  is_Some (db w !! processedKey n) →
  (∀ counts atMessage remote,
     at_id atMessage = n →
     handleAtMessage cfg counts (atMessage, remote) w
     = (Ok (counts.1, S counts.2), w))
  ∧ (∀ entries,
       ∃ r w',
         checkAndComment cfg (Ok (Some entries)) w = (Ok r, w')
         ∧ db w' !! processedKey n = db w !! processedKey n
         ∧ snd (checkAndComment cfg
                  (Ok (Some (filter (λ entry, at_id entry.1 ≠ n) entries))) w)
           = w').
Proof.
  intros Hn. split.
  { intros counts atMessage remote <-. by apply handleAtMessage_skip. }
  intros entries.
  destruct (isProcessing w) eqn:Hbusy.
  { exists None, w. unfold checkAndComment. rewrite Hbusy. done. }
  set (w1 := {| db := db w; calls := calls w ++ [GetAtFeed];
                isProcessing := true |}).
  destruct (handleAtMessages_drop cfg n entries (0, 0)%nat (0, 0)%nat w1 Hn)
    as (c1 & c2 & w' & Hloop1 & Hloop2 & Hkeep).
  destruct (checkAndComment_run cfg entries w Hbusy c1 w' Hloop1) as [r1 Hrun1].
  destruct (checkAndComment_run cfg _ w Hbusy c2 w' Hloop2) as [r2 Hrun2].
  eexists _, _. split; [exact Hrun1|]. split; [exact Hkeep|].
  by rewrite Hrun2.
Qed.

Lemma C4_witness :
  is_Some (db processedWorld !! processedKey 42)
  ∧ (∀ counts atMessage remote,
       at_id atMessage = 42%Z →
       handleAtMessage sampleConfig counts (atMessage, remote) processedWorld
       = (Ok (counts.1, S counts.2), processedWorld))
  ∧ (∀ entries,
       ∃ r w',
         checkAndComment sampleConfig (Ok (Some entries)) processedWorld
         = (Ok r, w')
         ∧ db w' !! processedKey 42 = db processedWorld !! processedKey 42
         ∧ snd (checkAndComment sampleConfig
                  (Ok (Some (filter (λ entry, at_id entry.1 ≠ 42%Z) entries)))
                  processedWorld)
           = w').
Proof.
  assert (is_Some (db processedWorld !! processedKey 42)) as H1
    by (vm_compute; eauto).
  split; [exact H1|].
  exact (C4_processed_notification_is_skipped sampleConfig 42 processedWorld H1).
Defined.

End Cycle.

(** ** The scenarios of the specification, run on the model *)

Section Scenarios.

Example resolveUri_opus :
  resolveUri "https://www.bilibili.com/opus/1093350140720185351"
  = Resolved "1093350140720185351".
Proof. vm_compute. reflexivity. Qed.

Example resolveUri_dynamic :
  resolveUri "https://t.bilibili.com/1017882063465873410"
  = Resolved "1017882063465873410".
Proof. vm_compute. reflexivity. Qed.

Example resolveUri_unparseable :
  resolveUri "https://www.bilibili.com/opus/abc"
  = Unresolved "unparseable_opus_uri"
  ∧ resolveUri "https://www.bilibili.com/video/BV1" = Unresolved "invalid_uri".
Proof. vm_compute. done. Qed.

(** The post succeeds: the notification is processed, the author has one
    check-in and is marked for the day. *)
Example scenario_post_succeeds :
  let w' := snd (handleAtMessage sampleConfig (0, 0)%nat
                   (sampleMessage, sampleRemote onePic (Ok 0%Z)) emptyWorld) in
  fst (isAtMessageProcessed 42 (db w')) = Ok true
  ∧ totalActionsOf "1001" (db w') = 1%Z
  ∧ fst (hasUserCommentedToday dayD "1001" (db w')) = Ok true.
Proof. vm_compute. done. Qed.

(** The post rejects: the check-in is recorded, the post is attempted, and
    the rollback is the last call. *)
Example scenario_post_raises :
  let w' := snd (handleAtMessage sampleConfig (0, 0)%nat
                   (sampleMessage,
                    sampleRemote onePic (Throw (Failure "network error")))
                   emptyWorld) in
  calls w'
  = [ GetOpusDetail "9"; GetComments "9" 11;
      AnalyzeImages ["https://i0.hdslb.com/1.jpg"];
      RecordCheckIn "1001" "bob"
        (mkCheckInRecord "9" 1738300000000 [sampleCloud] 1 "...");
      AddComment "9" 11 "..." None;
      RollbackLastCheckIn "1001" ]
  ∧ fst (isAtMessageProcessed 42 (db w')) = Ok false
  ∧ totalActionsOf "1001" (db w') = 0%Z
  ∧ fst (hasUserCommentedToday dayD "1001" (db w')) = Ok false.
Proof. vm_compute. done. Qed.

(** The dynamic is thirty hours old: the notification is processed at once,
    without a check-in and without a post. *)
Example scenario_stale :
  let remote :=
    {| clockNow := 1738400800000; clockToday := dayAfterD;
       opusDetail := Ok (Some (sampleData onePic));
       generalDetail := Throw (Failure "not asked");
       commentReplies := Ok (Some []);
       analysisResult := Ok ([sampleCloud], "...");
       checkInImage := None;
       postCode := Ok 0%Z |} in
  let w' := snd (handleAtMessage sampleConfig (0, 0)%nat
                   (sampleMessage, remote) emptyWorld) in
  calls w'
  = [ GetOpusDetail "9";
      RecordProcessedAtMessage
        (mkProcessedAtMessage 42 "9" 1738400800000 "alice"
           "https://www.bilibili.com/opus/9") ]
  ∧ fst (isAtMessageProcessed 42 (db w')) = Ok true
  ∧ totalActionsOf "1001" (db w') = 0%Z.
Proof. vm_compute. done. Qed.

End Scenarios.

(** ** Keys never collide *)

Section KeyInjectivity.

Lemma string_all_app p s1 s2 :
  string_all p (s1 +:+ s2) = string_all p s1 && string_all p s2.
Proof.
  induction s1 as [|c s1 IH]; simpl; [done|].
  by rewrite IH, andb_assoc.
Qed.

Lemma string_all_impl (p q : ascii → bool) s :
  (∀ c, p c = true → q c = true) → string_all p s = true → string_all q s = true.
Proof.
  intros Hpq. induction s as [|c s IH]; simpl; [done|].
  intros [Hc Hs]%andb_prop. by rewrite (Hpq _ Hc), IH.
Qed.

Lemma pretty_N_char_numeral x : isNumeral (pretty_N_char x) = true.
Proof. unfold pretty_N_char. by repeat case_match. Qed.

Lemma pretty_N_go_numeral x : ∀ s,
  string_all isNumeral s = true → string_all isNumeral (pretty_N_go x s) = true.
Proof.
  induction (N.lt_wf_0 x) as [x _ IH]; intros s Hs.
  assert (x = 0 ∨ 0 < x)%N as [->|Hpos] by lia.
  - by rewrite pretty_N_go_0.
  - rewrite pretty_N_go_step by done. apply IH.
    + by apply N.div_lt.
    + simpl. by rewrite pretty_N_char_numeral.
Qed.

Lemma pretty_N_go_length x : ∀ s,
  (String.length s ≤ String.length (pretty_N_go x s))%nat.
Proof.
  induction (N.lt_wf_0 x) as [x _ IH]; intros s.
  assert (x = 0 ∨ 0 < x)%N as [->|Hpos] by lia.
  - by rewrite pretty_N_go_0.
  - rewrite pretty_N_go_step by done.
    etrans; [|apply IH; by apply N.div_lt]. simpl. lia.
Qed.

Lemma toString_numeral (n : Z) : string_all isNumeral (Js.toString n) = true.
Proof.
  unfold Js.toString, pretty, pretty_Z.
  destruct n as [|p|p]; [done| |].
  - unfold pretty, pretty_positive, pretty, pretty_N.
    case_decide; [done|]. by apply pretty_N_go_numeral.
  - simpl. unfold pretty, pretty_positive, pretty, pretty_N.
    case_decide; [done|]. by apply pretty_N_go_numeral.
Qed.

Lemma toString_nonempty (n : Z) : Js.toString n ≠ "".
Proof.
  unfold Js.toString, pretty, pretty_Z.
  destruct n as [|p|p]; [done| |done].
  unfold pretty, pretty_positive, pretty, pretty_N.
  case_decide; [done|].
  intros Heq. apply (f_equal String.length) in Heq.
  rewrite pretty_N_go_step in Heq by lia.
  pose proof (pretty_N_go_length (N.pos p `div` 10)
                (String (pretty_N_char (N.pos p `mod` 10)) "")) as Hlen.
  rewrite Heq in Hlen. simpl in Hlen. lia.
Qed.

Lemma isNumeral_notColon c : isNumeral c = true → notColon c = true.
Proof.
  unfold isNumeral, notColon, Main.isDigit.
  destruct (Ascii.eqb_spec c ":") as [->|]; [done|done].
Qed.

Lemma toString_no_colon (n : Z) : string_all notColon (Js.toString n) = true.
Proof.
  eapply string_all_impl; [apply isNumeral_notColon|apply toString_numeral].
Qed.

(** Two texts that end in a colon and a colon-free tail agree part by
    part. *)
Lemma split_at_last_colon (u1 u2 t1 t2 : string) :
  string_all notColon t1 = true → string_all notColon t2 = true →
  u1 +:+ String ":" t1 = u2 +:+ String ":" t2 → u1 = u2 ∧ t1 = t2.
Proof.
  intros H1 H2. revert u2.
  induction u1 as [|c u1 IH]; intros [|c' u2] Heq; simpl in Heq.
  - by injection Heq as Heq; subst.
  - injection Heq as Hc Heq; subst.
    rewrite string_all_app in H1; simpl in H1.
    by rewrite andb_false_r in H1.
  - injection Heq as Hc Heq; subst.
    rewrite string_all_app in H2; simpl in H2.
    by rewrite andb_false_r in H2.
  - injection Heq as Hc Heq; subst. by destruct (IH _ Heq) as [-> ->].
Qed.

Lemma repeat_char_all p c n : p c = true → string_all p (Js.repeat_char c n) = true.
Proof. intros Hc. induction n; simpl; [done|]. by rewrite Hc. Qed.

Lemma dateKey_no_colon d : string_all notColon (dateKey d) = true.
Proof.
  unfold dateKey, Js.padStart.
  rewrite !string_all_app, !toString_no_colon.
  rewrite !repeat_char_all by done. done.
Qed.

Lemma recordKey_inj u1 ts1 u2 ts2 :
  recordKey u1 ts1 = recordKey u2 ts2 → u1 = u2 ∧ ts1 = ts2.
Proof.
  unfold recordKey. intros Heq. apply String.app_inj in Heq.
  change (u1 +:+ String ":" (Js.toString ts1)
          = u2 +:+ String ":" (Js.toString ts2)) in Heq.
  apply split_at_last_colon in Heq as [-> Hts]; [|apply toString_no_colon..].
  split; [done|]. by apply (inj pretty).
Qed.

Lemma dailyKey_inj a1 d1 a2 d2 :
  dailyKey a1 d1 = dailyKey a2 d2 → a1 = a2 ∧ dateKey d1 = dateKey d2.
Proof.
  unfold dailyKey. intros Heq. apply String.app_inj in Heq.
  change (a1 +:+ String ":" (dateKey d1) = a2 +:+ String ":" (dateKey d2)) in Heq.
  by apply split_at_last_colon in Heq; [|apply dateKey_no_colon..].
Qed.

End KeyInjectivity.

(** ** The event ledger: round trips *)

Section LedgerRoundTrip.

Lemma getProcessedAtMessage_lookup n (db : gmap string value) :
  getProcessedAtMessage n db
  = (Ok (match db !! processedKey n with
         | Some (VProcessed m) => Some m
         | _ => None
         end), db).
Proof.
  unfold getProcessedAtMessage. unfold_monad.
  by destruct (db !! processedKey n) as [[]|].
Qed.

(** X1. A notification that [recordProcessedAtMessage] has written is
    found by [isAtMessageProcessed] and read back unchanged by
    [getProcessedAtMessage]; for every other id the two lookups answer as
    they did before the write. *)
Theorem ledger_record_then_lookup m (db : gmap string value) :
  ∃ db',
    recordProcessedAtMessage m db = (Ok tt, db')
    ∧ isAtMessageProcessed (atMessageId m) db' = (Ok true, db')
    ∧ getProcessedAtMessage (atMessageId m) db' = (Ok (Some m), db')
    ∧ ∀ n, n ≠ atMessageId m →
        fst (isAtMessageProcessed n db') = fst (isAtMessageProcessed n db)
        ∧ fst (getProcessedAtMessage n db') = fst (getProcessedAtMessage n db).
Proof.
  eexists. split; [reflexivity|].
  rewrite isAtMessageProcessed_lookup, getProcessedAtMessage_lookup.
  rewrite lookup_insert_eq.
  split; [by rewrite bool_decide_eq_true_2|]. split; [done|].
  intros n Hn.
  rewrite !isAtMessageProcessed_lookup, !getProcessedAtMessage_lookup. simpl.
  rewrite lookup_insert_ne; [done|]. by intros Heq%processedKey_inj.
Qed.

(** X2. Writing a ledger record for an id that the ledger does not hold
    and deleting it again gives back the store as it was, key for key. *)
Theorem ledger_record_then_delete m (db : gmap string value) :
  db !! processedKey (atMessageId m) = None →
  ∃ db1,
    recordProcessedAtMessage m db = (Ok tt, db1)
    ∧ deleteProcessedAtMessage (atMessageId m) db1 = (Ok true, db).
Proof.
  intros Hfree. eexists. split; [reflexivity|].
  unfold deleteProcessedAtMessage. unfold_monad.
  by rewrite delete_insert_id.
Qed.

Lemma ledger_record_then_delete_witness :
  let m := mkProcessedAtMessage 42 "9" 1738300000000 "alice"
             "https://www.bilibili.com/opus/9" in
  (∅ : gmap string value) !! processedKey (atMessageId m) = None
  ∧ ∃ db1,
      recordProcessedAtMessage m ∅ = (Ok tt, db1)
      ∧ deleteProcessedAtMessage (atMessageId m) db1 = (Ok true, ∅).
Proof.
  split; [reflexivity|].
  exact (ledger_record_then_delete
           (mkProcessedAtMessage 42 "9" 1738300000000 "alice"
              "https://www.bilibili.com/opus/9") ∅ eq_refl).
Defined.

End LedgerRoundTrip.

(** ** Invariants of the statistics aggregator *)

Section StatsInvariants.

(** What one operation does to the statistics of [userId]. *)
Lemma runOp_user_cases op userId (db : gmap string value) :
  snd (runOp op db) !! userKey userId = db !! userKey userId
  ∨ (∃ newName record prior,
       op = Append userId newName record
       ∧ db !! userKey userId = VUser <$> prior
       ∧ snd (runOp op db) !! userKey userId
         = Some (VUser (applyCheckIn newName record
                          (default (initialStats newName record) prior))))
  ∨ (∃ s lastRecord,
       op = RollbackLast userId
       ∧ db !! userKey userId = Some (VUser s)
       ∧ last (checkInRecords s) = Some lastRecord
       ∧ snd (runOp op db) !! userKey userId
         = Some (VUser (applyRollback lastRecord s))).
Proof.
  destruct op as [u newName record|u]; simpl.
  - destruct (recordCheckIn_cases u newName record db)
      as [(prior & Hprior & ->) | ->]; [|by left]. simpl.
    rewrite lookup_insert_ne by (symmetry; apply userKey_recordKey).
    destruct (decide (u = userId)) as [->|Hne].
    + right; left. exists newName, record, prior.
      by rewrite lookup_insert_eq.
    + left. rewrite lookup_insert_ne; [done|]. by intros ?%userKey_inj.
  - unfold bind.
    destruct (rollbackLastCheckIn_total u db) as (b & db' & Hrun & Hb).
    rewrite Hrun. simpl. destruct b.
    + apply rollbackLastCheckIn_true_inv in Hrun
        as (s & lastRecord & Hs & Hlast & ->).
      destruct (decide (u = userId)) as [->|Hne].
      * right; right. exists s, lastRecord. by rewrite lookup_insert_eq.
      * left. rewrite lookup_insert_ne by (by intros ?%userKey_inj).
        rewrite lookup_delete_ne; [done|]. symmetry. apply userKey_recordKey.
    + left. destruct (proj1 Hb eq_refl) as [Hnone|(s & Hs & Hnil)].
      * rewrite rollbackLastCheckIn_nothing in Hrun; [by injection Hrun as <-|].
        intros s Hs. rewrite getUserStats_lookup, Hs in Hnone. done.
      * rewrite rollbackLastCheckIn_nothing in Hrun; [by injection Hrun as <-|].
        intros s' Hs'. rewrite getUserStats_lookup, Hs' in Hs. congruence.
Qed.

(** A property of the statistics that both operations keep holds after
    every run from a store without statistics of the user. *)
Lemma runOps_invariant (P : UserStats → Prop) userId :
  (∀ newName record, P (applyCheckIn newName record (initialStats newName record))) →
  (∀ newName record s, P s → P (applyCheckIn newName record s)) →
  (∀ lastRecord s,
     P s → last (checkInRecords s) = Some lastRecord →
     P (applyRollback lastRecord s)) →
  ∀ ops (db : gmap string value),
    (∀ s, db !! userKey userId = Some (VUser s) → P s) →
    ∀ s, runOps ops db !! userKey userId = Some (VUser s) → P s.
Proof.
  intros Hinit Happend Hrollback ops.
  induction ops as [|op ops IH]; intros db Hdb; [done|].
  simpl. apply IH. intros s Hs.
  destruct (runOp_user_cases op userId db)
    as [Hsame|[(newName & record & prior & _ & Hprior & Hnew)
              |(s0 & lastRecord & _ & Hs0 & Hlast & Hnew)]].
  - apply Hdb. by rewrite <- Hsame.
  - rewrite Hnew in Hs. injection Hs as <-.
    destruct prior as [s0|]; simpl; [|apply Hinit].
    apply Happend, Hdb, Hprior.
  - rewrite Hnew in Hs. injection Hs as <-.
    apply Hrollback; [|done]. by apply Hdb.
Qed.

Lemma removelast_length {A} (l : list A) :
  length (removelast l) = (length l - 1)%nat.
Proof.
  destruct (last l) as [x|] eqn:Hlast.
  - apply last_Some in Hlast as [l' ->].
    rewrite removelast_last, length_app. simpl. lia.
  - apply last_None in Hlast as ->. done.
Qed.

(** X3. Whatever sequence of check-ins and rollbacks has run, for whatever
    users, the statistics of a user hold at most 100 records, never more
    records than [totalCheckIns] counts, and [lastCheckIn] is the time of
    the newest stored record ([firstCheckIn] when none is left). *)
Theorem stats_window_invariant userId ops (db0 : gmap string value) s :
  db0 !! userKey userId = None →
  runOps ops db0 !! userKey userId = Some (VUser s) →
  (length (checkInRecords s) ≤ 100)%nat
  ∧ (Z.of_nat (length (checkInRecords s)) ≤ totalCheckIns s)%Z
  ∧ lastIsNewest s.
Proof.
  intros Hfree.
  apply (runOps_invariant
           (λ s, (length (checkInRecords s) ≤ 100)%nat
                 ∧ (Z.of_nat (length (checkInRecords s)) ≤ totalCheckIns s)%Z
                 ∧ lastIsNewest s) userId).
  - intros newName record. unfold lastIsNewest. cbn.
    split; [lia|]. split; [lia|done].
  - intros newName record s0 (Hlen & Htot & _). unfold lastIsNewest. cbn.
    split; [apply pushRecord_length|].
    rewrite pushRecord_snoc, last_snoc. split; [|done].
    rewrite length_app, length_drop. simpl. lia.
  - intros lastRecord s0 (Hlen & Htot & _) Hlast. unfold lastIsNewest. cbn.
    rewrite removelast_length.
    assert (0 < length (checkInRecords s0))%nat.
    { destruct (checkInRecords s0); [done|simpl; lia]. }
    split; [lia|]. split; [lia|done].
  - intros s0. by rewrite Hfree.
Qed.

Lemma stats_window_invariant_witness :
  let s := applyRollback (sampleRecord 2)
             (applyCheckIn "b" (sampleRecord 2)
                (applyCheckIn "a" (sampleRecord 1)
                   (initialStats "a" (sampleRecord 1)))) in
  (∅ : gmap string value) !! userKey "U1" = None
  ∧ runOps sampleOps ∅ !! userKey "U1" = Some (VUser s)
  ∧ (length (checkInRecords s) ≤ 100)%nat
  ∧ (Z.of_nat (length (checkInRecords s)) ≤ totalCheckIns s)%Z
  ∧ lastIsNewest s.
Proof.
  split; [reflexivity|]. split; [by vm_compute|].
  exact (stats_window_invariant "U1" sampleOps ∅ _ eq_refl
           ltac:(by vm_compute)).
Defined.

End StatsInvariants.

(** ** The statistics aggregate the stored records *)

Section Aggregates.

Lemma sumImages_snoc records record :
  sumImages (records ++ [record]) = (sumImages records + imageCount record)%Z.
Proof.
  unfold sumImages. induction records as [|r records IH]; simpl; [lia|].
  rewrite IH. lia.
Qed.

Lemma labelTotal_snoc label records record :
  labelTotal label (records ++ [record])
  = (labelTotal label records + countLabel label (cloudTypes record))%nat.
Proof.
  unfold labelTotal. induction records as [|r records IH]; simpl; [lia|].
  rewrite IH. lia.
Qed.

Lemma entryOf_positive k : positiveEntry (entryOf k).
Proof. destruct k; cbn; [done|lia]. Qed.

Lemma iter_incrementEntry_entryOf label n k :
  ownLabel label →
  Nat.iter n (incrementEntry label) (entryOf k) = entryOf (k + n).
Proof.
  intros Hown.
  rewrite iter_incrementEntry_own by (done || apply entryOf_positive).
  destruct n as [|n]; [by rewrite Nat.add_0_r|].
  replace (k + S n)%nat with (S (k + n)) by lia. cbn [entryOf].
  do 2 f_equal. destruct k as [|k]; cbn [entryOf numberOf]; lia.
Qed.

Lemma iter_decrementEntry_entryOf label n k :
  ownLabel label →
  Nat.iter n (decrementEntry label) (entryOf (k + n)) = entryOf k.
Proof.
  intros Hown. destruct (k + n)%nat as [|m] eqn:Hm.
  - assert (k = 0%nat) as -> by lia.
    by rewrite iter_decrementEntry_own_None.
  - cbn [entryOf]. rewrite iter_decrementEntry_own by (done || lia).
    unfold decreased. destruct k as [|k].
    + destruct (Z.leb_spec (Z.of_nat (S m) - Z.of_nat n) 0); [done|lia].
    + destruct (Z.leb_spec (Z.of_nat (S m) - Z.of_nat n) 0); [lia|].
      cbn [entryOf]. do 2 f_equal. lia.
Qed.

Lemma applyCheckIn_aggregates newName record s :
  (length (checkInRecords s) < 100)%nat →
  aggregatesRecords s → aggregatesRecords (applyCheckIn newName record s).
Proof.
  intros Hlen (Htot & Himg & Hhist). unfold aggregatesRecords, applyCheckIn.
  cbn [totalCheckIns totalImages cloudTypeStats checkInRecords].
  rewrite pushRecord_snoc.
  replace (length (checkInRecords s) - 99)%nat with 0%nat by lia.
  rewrite drop_0, length_app, sumImages_snoc. simpl.
  split; [lia|]. split; [lia|]. intros label Hown.
  rewrite lookup_fmap, foldl_incrementType_entry, Hhist, labelTotal_snoc
    by done.
  rewrite iter_incrementEntry_entryOf by done.
  apply json_count_positive, entryOf_positive.
Qed.

Lemma initialStats_aggregates newName record :
  aggregatesRecords (initialStats newName record).
Proof. unfold aggregatesRecords. cbn. repeat split. Qed.

Lemma applyRollback_aggregates lastRecord s :
  last (checkInRecords s) = Some lastRecord →
  aggregatesRecords s → aggregatesRecords (applyRollback lastRecord s).
Proof.
  intros Hlast (Htot & Himg & Hhist). unfold aggregatesRecords, applyRollback.
  cbn [totalCheckIns totalImages cloudTypeStats checkInRecords].
  apply last_Some in Hlast as [records Hrecords].
  rewrite Hrecords in *. rewrite removelast_last.
  rewrite length_app in Htot. rewrite sumImages_snoc in Himg. simpl in Htot.
  split; [lia|]. split; [lia|]. intros label Hown.
  rewrite lookup_fmap, foldl_decrementType_entry, Hhist, labelTotal_snoc
    by done.
  rewrite iter_decrementEntry_entryOf by done.
  apply json_count_positive, entryOf_positive.
Qed.

(** The invariant behind the theorem: the statistics aggregate the
    records, and the window has room for the check-ins that are to come. *)
Lemma runOps_aggregates userId ops : ∀ (db : gmap string value),
  (∀ s, db !! userKey userId = Some (VUser s) →
        aggregatesRecords s
        ∧ (length (checkInRecords s) + appendsFor userId ops ≤ 100)%nat) →
  (appendsFor userId ops ≤ 100)%nat →
  ∀ s, runOps ops db !! userKey userId = Some (VUser s) → aggregatesRecords s.
Proof.
  induction ops as [|op ops IH]; intros db Hdb Hroom s.
  { simpl. intros Hs. by apply Hdb. }
  simpl. apply IH.
  2:{ destruct op as [u ? ?|]; simpl in Hroom; lia. }
  intros s1 Hs1.
  destruct (runOp_user_cases op userId db)
    as [Hsame|[(newName & record & prior & -> & Hprior & Hnew)
              |(s0 & lastRecord & -> & Hs0 & Hlast & Hnew)]].
  - rewrite Hsame in Hs1. destruct (Hdb _ Hs1) as [Hagg Hlen].
    split; [done|]. destruct op as [u ? ?|]; simpl in Hlen; lia.
  - rewrite Hnew in Hs1. injection Hs1 as <-.
    simpl in Hroom, Hdb. rewrite decide_True in Hroom, Hdb by done.
    destruct prior as [s0|]; simpl.
    + destruct (Hdb _ Hprior) as [Hagg Hlen].
      split; [apply applyCheckIn_aggregates; [lia|done]|].
      rewrite pushRecord_snoc, length_app, length_drop. simpl. lia.
    + split; [apply applyCheckIn_aggregates;
               [simpl; lia|apply initialStats_aggregates]|].
      simpl. lia.
  - rewrite Hnew in Hs1. injection Hs1 as <-.
    destruct (Hdb _ Hs0) as [Hagg Hlen]. simpl in Hlen.
    split; [by apply applyRollback_aggregates|].
    cbn. rewrite removelast_length. lia.
Qed.

(** X4. As long as a user has checked in at most 100 times, so that the
    window of stored records has dropped none, the statistics are the
    aggregates of the stored records after every run of check-ins and
    rollbacks: [totalCheckIns] is their number, [totalImages] the sum of
    their image counts, and for every label that names no member of
    [Object.prototype] the histogram holds the number of entries with this
    label, and no key for a label without entry. *)
Theorem stats_aggregate_records userId ops (db0 : gmap string value) s :
  db0 !! userKey userId = None →
  (appendsFor userId ops ≤ 100)%nat →
  runOps ops db0 !! userKey userId = Some (VUser s) →
  totalCheckIns s = Z.of_nat (length (checkInRecords s))
  ∧ totalImages s = sumImages (checkInRecords s)
  ∧ ∀ label,
      ownLabel label →
      cloudTypeStats s !! label = entryOf (labelTotal label (checkInRecords s)).
Proof.
  intros Hfree Hroom Hs.
  apply (runOps_aggregates userId ops db0); [|done|done].
  intros s0. by rewrite Hfree.
Qed.

Lemma stats_aggregate_records_witness :
  let s := applyRollback (sampleRecord 2)
             (applyCheckIn "b" (sampleRecord 2)
                (applyCheckIn "a" (sampleRecord 1)
                   (initialStats "a" (sampleRecord 1)))) in
  (∅ : gmap string value) !! userKey "U1" = None
  ∧ (appendsFor "U1" sampleOps ≤ 100)%nat
  ∧ runOps sampleOps ∅ !! userKey "U1" = Some (VUser s)
  ∧ totalCheckIns s = Z.of_nat (length (checkInRecords s))
  ∧ totalImages s = sumImages (checkInRecords s)
  ∧ ∀ label,
      ownLabel label →
      cloudTypeStats s !! label = entryOf (labelTotal label (checkInRecords s)).
Proof.
  split; [reflexivity|]. split; [vm_compute; lia|]. split; [by vm_compute|].
  exact (stats_aggregate_records "U1" sampleOps ∅ _ eq_refl
           ltac:(vm_compute; lia) ltac:(by vm_compute)).
Defined.

End Aggregates.

(** ** Separation of the key spaces *)

Section Separation.

Lemma runOp_frame op (db : gmap string value) key :
  (∀ u, key ≠ userKey u) → (∀ u ts, key ≠ recordKey u ts) →
  snd (runOp op db) !! key = db !! key.
Proof.
  intros Huser Hrecord. destruct op as [u newName record|u]; simpl.
  - destruct (recordCheckIn_cases u newName record db)
      as [(prior & Hprior & ->) | ->]; [|done]. simpl.
    by rewrite !lookup_insert_ne.
  - unfold bind.
    destruct (rollbackLastCheckIn_total u db) as (b & db' & Hrun & Hb).
    rewrite Hrun. simpl. destruct b.
    + apply rollbackLastCheckIn_true_inv in Hrun
        as (s & lastRecord & Hs & Hlast & ->).
      by rewrite lookup_insert_ne, lookup_delete_ne.
    + destruct (proj1 Hb eq_refl) as [Hnone|(s & Hs & Hnil)].
      * rewrite rollbackLastCheckIn_nothing in Hrun; [by injection Hrun as <-|].
        intros s Hs. rewrite getUserStats_lookup, Hs in Hnone. done.
      * rewrite rollbackLastCheckIn_nothing in Hrun; [by injection Hrun as <-|].
        intros s' Hs'. rewrite getUserStats_lookup, Hs' in Hs. congruence.
Qed.

Lemma runOps_frame ops key : ∀ (db : gmap string value),
  (∀ u, key ≠ userKey u) → (∀ u ts, key ≠ recordKey u ts) →
  runOps ops db !! key = db !! key.
Proof.
  induction ops as [|op ops IH]; intros db Huser Hrecord; [done|].
  simpl. rewrite IH by done. by apply runOp_frame.
Qed.

Lemma runOps_other_user userId ops : ∀ (db : gmap string value),
  (∀ op, op ∈ ops → opUser op ≠ userId) →
  runOps ops db !! userKey userId = db !! userKey userId.
Proof.
  induction ops as [|op ops IH]; intros db Hother; [done|].
  simpl. rewrite IH by (intros op' Hin; apply Hother; by right).
  pose proof (Hother op ltac:(by left)) as Hop.
  destruct (runOp_user_cases op userId db)
    as [Hsame|[(newName & record & prior & -> & _)
              |(s0 & lastRecord & -> & _)]]; done.
Qed.

(** X5. The check-ins and rollbacks of other users leave what
    [getUserStats] and [getRecentCheckIns] answer for a user as it was. *)
Theorem stats_of_other_users_untouched userId ops (db : gmap string value) :
  (∀ op, op ∈ ops → opUser op ≠ userId) →
  fst (getUserStats userId (runOps ops db)) = fst (getUserStats userId db)
  ∧ ∀ limit,
      fst (getRecentCheckIns userId limit (runOps ops db))
      = fst (getRecentCheckIns userId limit db).
Proof.
  intros Hother.
  pose proof (runOps_other_user userId ops db Hother) as Hsame.
  split.
  - by rewrite !getUserStats_lookup, Hsame.
  - intros limit. unfold getRecentCheckIns, try_catch, bind.
    rewrite !getUserStats_lookup, Hsame.
    by destruct (db !! userKey userId) as [[]|].
Qed.

Lemma stats_of_other_users_untouched_witness :
  let db : gmap string value := {[ userKey "U2" := VUser (statsWith 3) ]} in
  (∀ op, op ∈ sampleOps → opUser op ≠ "U2")
  ∧ fst (getUserStats "U2" (runOps sampleOps db)) = fst (getUserStats "U2" db)
  ∧ ∀ limit,
      fst (getRecentCheckIns "U2" limit (runOps sampleOps db))
      = fst (getRecentCheckIns "U2" limit db).
Proof.
  assert (∀ op, op ∈ sampleOps → opUser op ≠ "U2") as Hother.
  { intros op Hin. unfold sampleOps in Hin.
    repeat (apply elem_of_cons in Hin as [->|Hin]; [done|]).
    by apply elem_of_nil in Hin. }
  split; [exact Hother|].
  exact (stats_of_other_users_untouched "U2" sampleOps _ Hother).
Defined.

(** X6. The statistics aggregator shares the store with the ledger and
    the daily marks and never touches them: after any run of check-ins and
    rollbacks every ledger record and every daily mark is as before. *)
Theorem stats_ops_keep_ledger_and_marks ops (db : gmap string value) :
  sameLedger db (runOps ops db) ∧ sameDaily db (runOps ops db).
Proof.
  split.
  - intros n. apply runOps_frame.
    + intros u. symmetry. apply userKey_processedKey.
    + intros u ts. symmetry. apply recordKey_processedKey.
  - intros a d. apply runOps_frame.
    + intros u. symmetry. apply userKey_dailyKey.
    + intros u ts. symmetry. apply recordKey_dailyKey.
Qed.

(** X7. The daily mark is kept per author: a mark written for one author
    changes the answer of [hasUserCommentedToday] for no other author, on
    whatever day, whatever characters the two ids are made of. *)
Theorem daily_mark_is_per_author a a' (D D' : LocalDate) now
    (db : gmap string value) :
  a' ≠ a →
  ∃ db1,
    recordDailyComment D now a db = (Ok tt, db1)
    ∧ hasUserCommentedToday D' a' db1
      = (fst (hasUserCommentedToday D' a' db), db1).
Proof.
  intros Hne. eexists. split; [reflexivity|].
  rewrite !hasUserCommentedToday_lookup. simpl.
  rewrite lookup_insert_ne; [done|].
  intros [Heq _]%dailyKey_inj. congruence.
Qed.

Lemma daily_mark_is_per_author_witness :
  "1001:2025-01" ≠ "1001"
  ∧ ∃ db1,
      recordDailyComment dayD 1738300000000 "1001" ∅ = (Ok tt, db1)
      ∧ hasUserCommentedToday dayD "1001:2025-01" db1
        = (fst (hasUserCommentedToday dayD "1001:2025-01" ∅), db1).
Proof.
  split; [done|].
  exact (daily_mark_is_per_author "1001" "1001:2025-01" dayD dayD
           1738300000000 ∅ ltac:(done)).
Defined.

(** X8. The standalone copy of a check-in record (key [record:]) is
    written by the check-in and removed by its rollback; the copies of
    every other check-in, of this user and of the others, are untouched by
    both. *)
Theorem record_copy_follows_check_in userId newName record
    (db : gmap string value) prior :
  db !! userKey userId = VUser <$> prior →
  ∃ db1 db2,
    recordCheckIn userId newName record db = (Ok tt, db1)
    ∧ db1 !! recordKey userId (timestamp record) = Some (VRecord record)
    ∧ rollbackLastCheckIn userId db1 = (Ok true, db2)
    ∧ db2 !! recordKey userId (timestamp record) = None
    ∧ ∀ u ts, (u, ts) ≠ (userId, timestamp record) →
        db1 !! recordKey u ts = db !! recordKey u ts
        ∧ db2 !! recordKey u ts = db !! recordKey u ts.
Proof.
  intros Hprior.
  rewrite (recordCheckIn_run _ _ _ _ _ Hprior).
  set (s1 := applyCheckIn newName record
               (default (initialStats newName record) prior)).
  assert (last (checkInRecords s1) = Some record) as Hlast.
  { unfold s1. cbn [applyCheckIn checkInRecords].
    by rewrite pushRecord_snoc, last_snoc. }
  eexists _, _. split; [reflexivity|].
  split; [by rewrite lookup_insert_eq|].
  split.
  { apply (rollbackLastCheckIn_run _ _ s1 record); [|done].
    rewrite lookup_insert_ne by (symmetry; apply userKey_recordKey).
    by rewrite lookup_insert_eq. }
  split.
  { rewrite lookup_insert_ne by apply userKey_recordKey.
    by rewrite lookup_delete_eq. }
  intros u ts Hne.
  assert (recordKey userId (timestamp record) ≠ recordKey u ts) as Hkey.
  { intros [Hu Hts]%recordKey_inj. apply Hne. by rewrite Hu, Hts. }
  split.
  - rewrite lookup_insert_ne by done.
    by rewrite lookup_insert_ne by apply userKey_recordKey.
  - rewrite lookup_insert_ne by apply userKey_recordKey.
    rewrite lookup_delete_ne by done. rewrite lookup_insert_ne by done.
    by rewrite lookup_insert_ne by apply userKey_recordKey.
Qed.

Lemma record_copy_follows_check_in_witness :
  let db : gmap string value := {[ userKey "U1" := VUser (statsWith 3) ]} in
  db !! userKey "U1" = VUser <$> Some (statsWith 3)
  ∧ ∃ db1 db2,
      recordCheckIn "U1" "new" (sampleRecord 2) db = (Ok tt, db1)
      ∧ db1 !! recordKey "U1" 2 = Some (VRecord (sampleRecord 2))
      ∧ rollbackLastCheckIn "U1" db1 = (Ok true, db2)
      ∧ db2 !! recordKey "U1" 2 = None
      ∧ ∀ u ts, (u, ts) ≠ ("U1", 2%Z) →
          db1 !! recordKey u ts = db !! recordKey u ts
          ∧ db2 !! recordKey u ts = db !! recordKey u ts.
Proof.
  split; [reflexivity|].
  exact (record_copy_follows_check_in "U1" "new" (sampleRecord 2)
           {[ userKey "U1" := VUser (statsWith 3) ]} (Some (statsWith 3))
           eq_refl).
Defined.

(** X9. After a check-in, [getRecentCheckIns] with a positive limit
    answers a list that starts with the record just written and holds at
    most [limit] records. *)
Theorem recent_starts_with_new_record userId newName record limit
    (db : gmap string value) prior :
  db !! userKey userId = VUser <$> prior →
  (0 < limit)%Z →
  ∃ db1 rest,
    recordCheckIn userId newName record db = (Ok tt, db1)
    ∧ getRecentCheckIns userId limit db1 = (Ok (record :: rest), db1)
    ∧ (Z.of_nat (length (record :: rest)) ≤ limit)%Z.
Proof.
  intros Hprior Hlimit.
  rewrite (recordCheckIn_run _ _ _ _ _ Hprior).
  set (s1 := applyCheckIn newName record
               (default (initialStats newName record) prior)).
  set (db1 := <[recordKey userId (timestamp record) := VRecord record]> _).
  assert (db1 !! userKey userId = Some (VUser s1)) as Hs1.
  { unfold db1. rewrite lookup_insert_ne by (symmetry; apply userKey_recordKey).
    by rewrite lookup_insert_eq. }
  destruct (getRecentCheckIns_positive userId limit db1 s1 Hs1 Hlimit)
    as (out & Hrun & Hout & Hlen).
  assert (∃ front, checkInRecords s1 = front ++ [record]) as [front Hfront].
  { unfold s1. cbn [applyCheckIn checkInRecords].
    rewrite pushRecord_snoc. eauto. }
  rewrite Hfront, length_app in Hout. simpl in Hout.
  rewrite drop_app_le in Hout by lia.
  rewrite reverse_app in Hout. simpl in Hout.
  exists db1, (reverse (drop (length front + 1 - Z.to_nat limit) front)).
  split; [done|]. rewrite <- Hout. done.
Qed.

Lemma recent_starts_with_new_record_witness :
  let db : gmap string value := {[ userKey "U1" := VUser (statsWith 3) ]} in
  db !! userKey "U1" = VUser <$> Some (statsWith 3)
  ∧ (0 < 2)%Z
  ∧ ∃ db1 rest,
      recordCheckIn "U1" "new" (sampleRecord 2) db = (Ok tt, db1)
      ∧ getRecentCheckIns "U1" 2 db1 = (Ok (sampleRecord 2 :: rest), db1)
      ∧ (Z.of_nat (length (sampleRecord 2 :: rest)) ≤ 2)%Z.
Proof.
  split; [reflexivity|]. split; [lia|].
  exact (recent_starts_with_new_record "U1" "new" (sampleRecord 2) 2
           {[ userKey "U1" := VUser (statsWith 3) ]} (Some (statsWith 3))
           eq_refl ltac:(lia)).
Defined.

End Separation.

(** ** The helper functions of [main.ts] *)

Section Helpers.

Lemma string_app_cons c (s t : string) : String c s +:+ t = String c (s +:+ t).
Proof. reflexivity. Qed.

Lemma string_app_nil (t : string) : "" +:+ t = t.
Proof. reflexivity. Qed.

Lemma prefix_split lit : ∀ s,
  String.prefix lit s = true → s = lit +:+ string_drop (String.length lit) s.
Proof.
  induction lit as [|a lit IH]; intros s Hp; [done|].
  destruct s as [|b s]; [done|]. simpl in Hp.
  destruct (ascii_dec a b) as [->|]; [|done].
  change (String b s = String b (lit +:+ string_drop (String.length lit) s)).
  f_equal. by apply IH.
Qed.

Lemma takeWhile_split p s :
  ∃ post, s = takeWhile p s +:+ post
          ∧ string_all p (takeWhile p s) = true ∧ stopsAt p post.
Proof.
  induction s as [|c s (post & Hs & Hall & Hstop)]; simpl.
  - by exists "".
  - destruct (p c) eqn:Hc.
    + exists post. rewrite string_app_cons, <- Hs. simpl. by rewrite Hc.
    + by exists (String c s).
Qed.

Lemma takeWhile_app p s rest :
  string_all p s = true → stopsAt p rest → takeWhile p (s +:+ rest) = s.
Proof.
  intros Hall Hstop. induction s as [|c s IH]; simpl in *.
  - destruct rest as [|c rest]; [done|]. simpl in *. by rewrite Hstop.
  - apply andb_prop in Hall as [-> Hall]. by rewrite IH.
Qed.

Lemma truthy_str_nonempty s : Js.truthy_str s = true ↔ s ≠ "".
Proof. unfold Js.truthy_str. by destruct s. Qed.

Lemma matchUntilSemicolon_unfold lit s :
  matchUntilSemicolon lit s
  = if String.prefix lit s
    then Some (takeWhile notSemicolon (string_drop (String.length lit) s))
    else match s with
         | EmptyString => None
         | String _ s' => matchUntilSemicolon lit s'
         end.
Proof. by destruct s. Qed.

Lemma matchSomeUntilSemicolon_unfold lit s :
  matchSomeUntilSemicolon lit s
  = match
      (if String.prefix lit s then
         let group := takeWhile notSemicolon
                        (string_drop (String.length lit) s) in
         if Js.truthy_str group then Some group else None
       else None)
    with
    | Some group => Some group
    | None =>
        match s with
        | EmptyString => None
        | String _ s' => matchSomeUntilSemicolon lit s'
        end
    end.
Proof. by destruct s. Qed.

Lemma matchDigitsAfter_unfold lit s :
  matchDigitsAfter lit s
  = match
      (if String.prefix lit s then
         let digits := takeWhile isDigit (string_drop (String.length lit) s) in
         if Js.truthy_str digits then Some digits else None
       else None)
    with
    | Some digits => Some digits
    | None =>
        match s with
        | EmptyString => None
        | String _ s' => matchDigitsAfter lit s'
        end
    end.
Proof. by destruct s. Qed.

Lemma matchUntilSemicolon_sound lit : ∀ s group,
  matchUntilSemicolon lit s = Some group →
  ∃ pre post,
    s = pre +:+ lit +:+ group +:+ post
    ∧ string_all notSemicolon group = true ∧ stopsAt notSemicolon post.
Proof.
  assert (∀ s, String.prefix lit s = true →
            ∃ pre post,
              s = pre +:+ lit
                  +:+ takeWhile notSemicolon (string_drop (String.length lit) s)
                  +:+ post
              ∧ string_all notSemicolon
                  (takeWhile notSemicolon (string_drop (String.length lit) s))
                = true
              ∧ stopsAt notSemicolon post) as Hhere.
  { intros s Hp. apply prefix_split in Hp.
    destruct (takeWhile_split notSemicolon (string_drop (String.length lit) s))
      as (post & Hs & Hall & Hstop).
    exists "", post. rewrite string_app_nil, <- Hs. done. }
  induction s as [|c s IH]; intros group; rewrite matchUntilSemicolon_unfold.
  - destruct (String.prefix lit "") eqn:Hp; [|done].
    intros [= <-]. by apply Hhere.
  - destruct (String.prefix lit (String c s)) eqn:Hp.
    + intros [= <-]. by apply Hhere.
    + intros (pre & post & -> & Hrest)%IH.
      by exists (String c pre), post.
Qed.

Lemma matchDigitsAfter_sound lit : ∀ s digits,
  matchDigitsAfter lit s = Some digits →
  ∃ pre post,
    s = pre +:+ lit +:+ digits +:+ post
    ∧ digits ≠ "" ∧ string_all isDigit digits = true ∧ stopsAt isDigit post.
Proof.
  assert (∀ s digits,
            (if String.prefix lit s
             then let digits := takeWhile isDigit
                                  (string_drop (String.length lit) s) in
                  if Js.truthy_str digits then Some digits else None
             else None) = Some digits →
            ∃ post, s = lit +:+ digits +:+ post
                    ∧ digits ≠ "" ∧ string_all isDigit digits = true
                    ∧ stopsAt isDigit post) as Hhere.
  { intros s digits. destruct (String.prefix lit s) eqn:Hp; [|done].
    cbv zeta.
    destruct (Js.truthy_str _) eqn:Ht; [|done]. intros [= <-].
    apply prefix_split in Hp. apply truthy_str_nonempty in Ht.
    destruct (takeWhile_split isDigit (string_drop (String.length lit) s))
      as (post & Hs & Hall & Hstop).
    exists post. by rewrite <- Hs. }
  induction s as [|c s IH]; intros digits; rewrite matchDigitsAfter_unfold.
  - match goal with |- context [match ?h with Some _ => _ | None => None end] =>
      destruct h as [d|] eqn:Hh end; [|done].
    intros [= <-]. destruct (Hhere _ _ Hh) as (post & Hs & Hrest).
    by exists "", post.
  - match goal with |- context [match ?h with Some _ => _ | None => _ end] =>
      destruct h as [d|] eqn:Hh end.
    + intros [= <-]. destruct (Hhere _ _ Hh) as (post & Hs & Hrest).
      by exists "", post.
    + intros (pre & post & -> & Hrest)%IH.
      by exists (String c pre), post.
Qed.

(** X11. A token that [getCsrfToken] returns is not empty, holds no
    semicolon, and stands in the cookie right after [bili_jct=] and up to
    the next semicolon or the end of the cookie. *)
Theorem getCsrfToken_sound cookie token :
  getCsrfToken cookie = Ok token →
  token ≠ ""
  ∧ string_all notSemicolon token = true
  ∧ ∃ pre post,
      cookie = pre +:+ "bili_jct=" +:+ token +:+ post
      ∧ stopsAt notSemicolon post.
Proof.
  unfold getCsrfToken.
  destruct (matchUntilSemicolon "bili_jct=" cookie) as [t|] eqn:Hm; [|done].
  destruct (Js.truthy_str t) eqn:Ht; [|done]. intros [= <-].
  apply truthy_str_nonempty in Ht.
  apply matchUntilSemicolon_sound in Hm as (pre & post & Hs & Hall & Hstop).
  eauto 10.
Qed.

Lemma getCsrfToken_sound_witness :
  getCsrfToken (cookie sampleConfig) = Ok "0123abcd"
  ∧ "0123abcd" ≠ ""
  ∧ string_all notSemicolon "0123abcd" = true
  ∧ ∃ pre post,
      cookie sampleConfig = pre +:+ "bili_jct=" +:+ "0123abcd" +:+ post
      ∧ stopsAt notSemicolon post.
Proof.
  split; [reflexivity|].
  exact (getCsrfToken_sound (cookie sampleConfig) "0123abcd" eq_refl).
Defined.

Lemma matchers_agree lit : ∀ s group,
  matchUntilSemicolon lit s = Some group → group ≠ "" →
  matchSomeUntilSemicolon lit s = Some group.
Proof.
  induction s as [|c s IH]; intros group;
    rewrite matchUntilSemicolon_unfold, matchSomeUntilSemicolon_unfold.
  - destruct (String.prefix lit ""); [|done].
    intros [= <-] Hne%truthy_str_nonempty. cbv zeta. by rewrite Hne.
  - destruct (String.prefix lit (String c s)).
    + intros [= <-] Hne%truthy_str_nonempty. cbv zeta. by rewrite Hne.
    + apply IH.
Qed.

(** X12. The two readers of the CSRF token agree wherever [getCsrfToken]
    returns: [extractCsrfFromCookie] finds the same token. The converse
    fails, as [extractCsrfFromCookie] passes over an empty [bili_jct=]
    field that makes [getCsrfToken] throw. *)
Theorem csrf_readers_agree :
  (∀ cookie token,
     getCsrfToken cookie = Ok token →
     extractCsrfFromCookie cookie = Some token)
  ∧ (∃ cookie token,
       extractCsrfFromCookie cookie = Some token
       ∧ ∀ t, getCsrfToken cookie ≠ Ok t).
Proof.
  split.
  - intros cookie token. unfold getCsrfToken, extractCsrfFromCookie.
    destruct (matchUntilSemicolon "bili_jct=" cookie) as [t|] eqn:Hm; [|done].
    destruct (Js.truthy_str t) eqn:Ht; [|done]. intros [= <-].
    apply matchers_agree; [done|]. by apply truthy_str_nonempty.
  - exists "bili_jct=; bili_jct=abc", "abc". split; [reflexivity|]. done.
Qed.

(** X13. A dynamic id that [processAtMessage] reads from the link of a
    notification is a non-empty run of decimal digits that stands in the
    link right after [/opus/], or after [t.bilibili.com/] when the link
    holds no [/opus/], and is followed by no further digit. *)
Theorem resolveUri_sound uri dynamicId :
  resolveUri uri = Resolved dynamicId →
  dynamicId ≠ ""
  ∧ string_all isDigit dynamicId = true
  ∧ ∃ lit pre post,
      uri = pre +:+ lit +:+ dynamicId +:+ post
      ∧ stopsAt isDigit post
      ∧ (lit = "/opus/"
         ∨ (lit = "t.bilibili.com/" ∧ includes "/opus/" uri = false)).
Proof.
  unfold resolveUri.
  destruct (includes "/opus/" uri) eqn:Hopus.
  - destruct (matchDigitsAfter "/opus/" uri) as [d|] eqn:Hm; [|done].
    intros [= <-].
    apply matchDigitsAfter_sound in Hm as (pre & post & Hs & Hne & Hall & Hstop).
    split; [done|]. split; [done|]. exists "/opus/", pre, post. auto.
  - destruct (includes "t.bilibili.com/" uri); [|done].
    destruct (matchDigitsAfter "t.bilibili.com/" uri) as [d|] eqn:Hm; [|done].
    intros [= <-].
    apply matchDigitsAfter_sound in Hm as (pre & post & Hs & Hne & Hall & Hstop).
    split; [done|]. split; [done|]. exists "t.bilibili.com/", pre, post. auto.
Qed.

Lemma resolveUri_sound_witness :
  resolveUri (uri (item sampleMessage)) = Resolved "9"
  ∧ "9" ≠ ""
  ∧ string_all isDigit "9" = true
  ∧ ∃ lit pre post,
      uri (item sampleMessage) = pre +:+ lit +:+ "9" +:+ post
      ∧ stopsAt isDigit post
      ∧ (lit = "/opus/"
         ∨ (lit = "t.bilibili.com/"
            ∧ includes "/opus/" (uri (item sampleMessage)) = false)).
Proof.
  split; [reflexivity|].
  exact (resolveUri_sound (uri (item sampleMessage)) "9" eq_refl).
Defined.

End Helpers.

Section Helpers2.

Lemma prefix_app lit rest : String.prefix lit (lit +:+ rest) = true.
Proof.
  induction lit as [|a lit IH]; [by destruct rest|].
  rewrite string_app_cons. simpl.
  destruct (ascii_dec a a); [done|congruence].
Qed.

Lemma string_drop_app lit rest :
  string_drop (String.length lit) (lit +:+ rest) = rest.
Proof. induction lit as [|a lit IH]; [done|]. by rewrite string_app_cons. Qed.

Lemma includes_unfold needle s :
  includes needle s
  = String.prefix needle s
    || match s with
       | EmptyString => false
       | String _ s' => includes needle s'
       end.
Proof. by destruct s. Qed.

(** The text right after the literal is the digits: the match is here. *)
Lemma matchDigitsAfter_here lit digits rest :
  digits ≠ "" → string_all isDigit digits = true → stopsAt isDigit rest →
  matchDigitsAfter lit (lit +:+ digits +:+ rest) = Some digits.
Proof.
  intros Hne Hall Hstop. rewrite matchDigitsAfter_unfold.
  rewrite prefix_app, string_drop_app. cbv zeta.
  rewrite takeWhile_app by done.
  by rewrite (proj2 (truthy_str_nonempty digits) Hne).
Qed.

Lemma includes_here lit rest : includes lit (lit +:+ rest) = true.
Proof. by rewrite includes_unfold, prefix_app. Qed.

(** A literal that starts with a character that is no digit does not occur
    in a text before the end of its leading digits. *)
Lemma includes_after_digits c lit digits rest :
  isDigit c = false → string_all isDigit digits = true →
  includes (String c lit) (digits +:+ rest) = includes (String c lit) rest.
Proof.
  intros Hc Hall. induction digits as [|d digits IH]; [done|].
  simpl in Hall. apply andb_prop in Hall as [Hd Hall].
  rewrite string_app_cons, includes_unfold, IH by done.
  simpl. destruct (ascii_dec c d) as [->|]; [congruence|done].
Qed.

Lemma prefix_before_digits a b c lit digits rest :
  isDigit c = false → digits ≠ "" → string_all isDigit digits = true →
  String.prefix (String a (String c lit)) (String b (digits +:+ rest)) = false.
Proof.
  intros Hc Hne Hall. destruct digits as [|d digits]; [done|].
  simpl in Hall. apply andb_prop in Hall as [Hd _].
  rewrite string_app_cons. simpl.
  destruct (ascii_dec a b); [|done].
  destruct (ascii_dec c d) as [->|]; [congruence|done].
Qed.

(** X14. The two link formats that the source names are read back: the
    id of [https://www.bilibili.com/opus/<id>] and of
    [https://t.bilibili.com/<id>] is [<id>], for every non-empty run of
    digits, also when a text that starts with no digit follows (a query
    string, say). A link of the second format whose tail holds [/opus/]
    is read as one of the first. *)
Theorem resolveUri_reads_both_formats dynamicId rest :
  dynamicId ≠ "" → string_all isDigit dynamicId = true →
  stopsAt isDigit rest →
  resolveUri ("https://www.bilibili.com/opus/" +:+ dynamicId +:+ rest)
  = Resolved dynamicId
  ∧ (includes "/opus/" rest = false →
     resolveUri ("https://t.bilibili.com/" +:+ dynamicId +:+ rest)
     = Resolved dynamicId).
Proof.
  intros Hne Hall Hstop.
  pose proof (matchDigitsAfter_here "/opus/" _ _ Hne Hall Hstop) as Hopus.
  pose proof (matchDigitsAfter_here "t.bilibili.com/" _ _ Hne Hall Hstop)
    as Hdyn.
  pose proof (includes_here "/opus/" (dynamicId +:+ rest)) as Hin1.
  pose proof (includes_here "t.bilibili.com/" (dynamicId +:+ rest)) as Hin2.
  split.
  - unfold resolveUri.
    change ("https://www.bilibili.com/opus/" +:+ dynamicId +:+ rest)
      with ("https://www.bilibili.com" +:+ "/opus/" +:+ dynamicId +:+ rest).
    set (tail := "/opus/" +:+ dynamicId +:+ rest) in *.
    assert (includes "/opus/" ("https://www.bilibili.com" +:+ tail) = true)
      as ->.
    { repeat (rewrite string_app_cons, includes_unfold;
              apply orb_true_iff; right).
      exact Hin1. }
    assert (matchDigitsAfter "/opus/" ("https://www.bilibili.com" +:+ tail)
            = Some dynamicId) as ->; [|done].
    repeat (rewrite string_app_cons, matchDigitsAfter_unfold;
            match goal with
            | |- context [String.prefix "/opus/" (String ?c ?s)] =>
                let b := eval cbv in (Ascii.eqb c "/") in
                match b with
                | false =>
                    replace (String.prefix "/opus/" (String c s)) with false
                      by (simpl; done)
                | true =>
                    replace (String.prefix "/opus/" (String c s)) with false
                      by (simpl; rewrite ?string_app_cons; simpl; done)
                end
            end).
    exact Hopus.
  - intros Hrest. unfold resolveUri.
    change ("https://t.bilibili.com/" +:+ dynamicId +:+ rest)
      with ("https://" +:+ "t.bilibili.com/" +:+ dynamicId +:+ rest).
    set (tail := "t.bilibili.com/" +:+ dynamicId +:+ rest) in *.
    assert (includes "/opus/" ("https://" +:+ tail) = false) as ->.
    { unfold tail.
      change ("https://" +:+ "t.bilibili.com/" +:+ dynamicId +:+ rest)
        with ("https://t.bilibili.com/" +:+ dynamicId +:+ rest).
      repeat (rewrite string_app_cons, includes_unfold;
              apply orb_false_iff; split; [by simpl|]).
      rewrite string_app_cons, includes_unfold. apply orb_false_iff.
      split; [by apply (prefix_before_digits _ _ _ _ dynamicId rest)|].
      change (includes "/opus/" (dynamicId +:+ rest) = false).
      by rewrite includes_after_digits. }
    assert (includes "t.bilibili.com/" ("https://" +:+ tail) = true) as ->.
    { repeat (rewrite string_app_cons, includes_unfold;
              apply orb_true_iff; right).
      exact Hin2. }
    assert (matchDigitsAfter "t.bilibili.com/" ("https://" +:+ tail)
            = Some dynamicId) as ->; [|done].
    repeat (rewrite string_app_cons, matchDigitsAfter_unfold;
            match goal with
            | |- context [String.prefix "t.bilibili.com/" (String ?c ?s)] =>
                replace (String.prefix "t.bilibili.com/" (String c s))
                  with false by (simpl; rewrite ?string_app_cons; simpl; done)
            end).
    exact Hdyn.
Qed.

Lemma resolveUri_reads_both_formats_witness :
  "1017882063465873410" ≠ ""
  ∧ string_all isDigit "1017882063465873410" = true
  ∧ stopsAt isDigit "?from=at"
  ∧ resolveUri ("https://www.bilibili.com/opus/" +:+ "1017882063465873410"
                +:+ "?from=at")
    = Resolved "1017882063465873410"
  ∧ (includes "/opus/" "?from=at" = false →
     resolveUri ("https://t.bilibili.com/" +:+ "1017882063465873410"
                 +:+ "?from=at")
     = Resolved "1017882063465873410").
Proof.
  split; [done|]. split; [reflexivity|]. split; [reflexivity|].
  exact (resolveUri_reads_both_formats "1017882063465873410" "?from=at"
           ltac:(done) eq_refl eq_refl).
Defined.

End Helpers2.

Section Helpers3.

Lemma truthyStr_Some x s : truthyStr x = Some s → x = Some s ∧ s ≠ "".
Proof.
  destruct x as [t|]; simpl; [|done].
  destruct (Js.truthy_str t) eqn:Ht; [|done]. intros [= ->].
  by apply truthy_str_nonempty in Ht.
Qed.

Lemma picImages_elem kind pics img :
  img ∈ picImages kind pics → img_url img ≠ "" ∧ img_type img = kind.
Proof.
  unfold picImages. intros (pic & Hpic & Himg)%list_elem_of_omap.
  destruct (truthyStr (url pic)) as [u|] eqn:Hu; [|done].
  injection Himg as <-. simpl. by apply truthyStr_Some in Hu as [_ Hu].
Qed.

Lemma drawImages_elem items img :
  img ∈ drawImages items → img_url img ≠ "" ∧ img_type img = "draw_pic".
Proof.
  unfold drawImages. intros (it & Hit & Himg)%list_elem_of_omap.
  destruct (truthyStr (src it)) as [u|] eqn:Hu; [|done].
  injection Himg as <-. simpl. by apply truthyStr_Some in Hu as [_ Hu].
Qed.

Lemma moduleImages_elem module img :
  img ∈ moduleImages module → img_url img ≠ "" ∧ img_type img ∈ imageTypes.
Proof.
  unfold moduleImages, imageTypes.
  rewrite !elem_of_app. intros [Htop|[Hcontent|Hmajor]].
  - destruct (module_type module) as [t|]; [|by apply elem_of_nil in Htop].
    destruct (module_top_pics module) as [pics|];
      [|by apply elem_of_nil in Htop].
    destruct (String.eqb t "MODULE_TYPE_TOP"); [|by apply elem_of_nil in Htop].
    apply picImages_elem in Htop as [? ->]. split; [done|set_solver].
  - destruct (module_type module) as [t|]; [|by apply elem_of_nil in Hcontent].
    destruct (module_content_paragraphs module) as [paragraphs|];
      [|by apply elem_of_nil in Hcontent].
    destruct (String.eqb t "MODULE_TYPE_CONTENT");
      [|by apply elem_of_nil in Hcontent].
    apply list_elem_of_In, in_concat in Hcontent as (imgs & Himgs & Himg).
    apply in_map_iff in Himgs as (paragraph & <- & _).
    apply list_elem_of_In in Himg.
    unfold paragraphImages in Himg.
    destruct (pic_pics paragraph) as [pics|]; [|by apply elem_of_nil in Himg].
    destruct (para_type paragraph =? 2)%Z; [|by apply elem_of_nil in Himg].
    apply picImages_elem in Himg as [? ->]. split; [done|set_solver].
  - destruct (module_dynamic_major module) as [major|];
      [|by apply elem_of_nil in Hmajor].
    apply elem_of_app in Hmajor as [Hopus|Hdraw].
    + destruct (opus_pics major) as [pics|]; [|by apply elem_of_nil in Hopus].
      apply picImages_elem in Hopus as [? ->]. split; [done|set_solver].
    + destruct (draw_items major) as [items|]; [|by apply elem_of_nil in Hdraw].
      apply drawImages_elem in Hdraw as [? ->]. split; [done|set_solver].
Qed.

(** X15. Every image that [checkImagesInDynamicCard] returns has a
    non-empty URL and one of the four types [album_pic], [content_pic],
    [opus_pic], [draw_pic]; so the analysis is never asked about an empty
    URL. *)
Theorem checkImagesInDynamicCard_images dynamicCard img :
  img ∈ checkImagesInDynamicCard dynamicCard →
  img_url img ≠ "" ∧ img_type img ∈ imageTypes.
Proof.
  unfold checkImagesInDynamicCard.
  destruct (modules dynamicCard) as [ms|]; [|by intros ?%elem_of_nil].
  intros (imgs & Himgs & Himg)%list_elem_of_In%in_concat.
  apply in_map_iff in Himgs as (module & <- & _).
  by apply list_elem_of_In, moduleImages_elem in Himg.
Qed.

Lemma checkImagesInDynamicCard_images_witness :
  let card := dynamicCardOf sampleMessage "9" (sampleData onePic) in
  let img := mkDynamicCardImage "https://i0.hdslb.com/1.jpg" "album_pic" in
  img ∈ checkImagesInDynamicCard card
  ∧ img_url img ≠ "" ∧ img_type img ∈ imageTypes.
Proof.
  assert (mkDynamicCardImage "https://i0.hdslb.com/1.jpg" "album_pic"
          ∈ checkImagesInDynamicCard
              (dynamicCardOf sampleMessage "9" (sampleData onePic))) as Hin.
  { vm_compute. apply list_elem_of_here. }
  split; [exact Hin|].
  exact (checkImagesInDynamicCard_images _ _ Hin).
Defined.

Lemma truthyId_nonempty x a : truthyId x = Some a → a ≠ "".
Proof.
  destruct x as [[n|s]|]; simpl; [| |done].
  - destruct (Js.truthy n); [|done]. intros [= <-]. apply toString_nonempty.
  - destruct (Js.truthy_str s) eqn:Hs; [|done]. intros [= <-].
    by apply truthy_str_nonempty.
Qed.

Lemma authorIdOfModules_nonempty ms a : authorIdOfModules ms = Some a → a ≠ "".
Proof.
  induction ms as [|module ms IH]; simpl; [done|].
  destruct (module_author module) as [author|]; [|done].
  destruct (truthyId (mid author)) as [a1|] eqn:H1.
  { intros [= <-]. by apply truthyId_nonempty in H1. }
  destruct (truthyId (uid author)) as [a2|] eqn:H2; [|done].
  intros [= <-]. by apply truthyId_nonempty in H2.
Qed.

Lemma authorNameOfModules_nonempty ms n :
  authorNameOfModules ms = Some n → n ≠ "".
Proof.
  induction ms as [|module ms IH]; simpl; [done|].
  destruct (module_author module) as [author|]; [|done].
  destruct (truthyStr (name author)) as [n1|] eqn:H1; [|done].
  intros [= <-]. by apply truthyStr_Some in H1 as [_ H1].
Qed.

Lemma extractAuthorId_nonempty dd a : extractAuthorId dd = Some a → a ≠ "".
Proof.
  unfold extractAuthorId.
  destruct (match dd_modules dd with
            | Some ms => authorIdOfModules (modulesArray ms)
            | None => None
            end) as [a1|] eqn:H1.
  { intros [= <-]. destruct (dd_modules dd); [|done].
    by apply authorIdOfModules_nonempty in H1. }
  destruct (truthyId (dd_uid dd)) as [a2|] eqn:H2.
  { intros [= <-]. by apply truthyId_nonempty in H2. }
  apply truthyId_nonempty.
Qed.

Lemma truthyStr_extractAuthorId dd :
  truthyStr (dd ≫= extractAuthorId) = dd ≫= extractAuthorId.
Proof.
  destruct dd as [dd|]; [|done]. simpl.
  destruct (extractAuthorId dd) as [a|] eqn:Ha; [|done]. simpl.
  apply extractAuthorId_nonempty, truthy_str_nonempty in Ha. by rewrite Ha.
Qed.

(** X16. [extractAuthorId] and [extractAuthorName] answer [null] or a
    non-empty text, never the empty text: the author id of a numeric or
    textual [mid]/[uid] field is written out with at least one character,
    and empty or zero fields are passed over. *)
Theorem extracted_author_is_nonempty dynamicData :
  (∀ a, extractAuthorId dynamicData = Some a → a ≠ "")
  ∧ (∀ n, extractAuthorName dynamicData = Some n → n ≠ "").
Proof.
  split; [apply extractAuthorId_nonempty|].
  intros n. unfold extractAuthorName.
  destruct (match dd_modules dynamicData with
            | Some ms => authorNameOfModules (modulesArray ms)
            | None => None
            end) as [n1|] eqn:H1.
  - intros [= <-]. destruct (dd_modules dynamicData); [|done].
    by apply authorNameOfModules_nonempty in H1.
  - by intros [_ ?]%truthyStr_Some.
Qed.

End Helpers3.

Section RollbackFunctional.

(** X10. [rollbackLastCheckIn] never rejects. When it answers [false]
    the store is untouched. When it answers [true], the newest stored
    record is gone from the statistics, [totalCheckIns] is one less,
    [totalImages] is less by the images of that record, [lastCheckIn] is
    the time of the record that is now the newest, and the only other key
    touched is the standalone copy of the record. Of the histogram, under
    a label that names no member of [Object.prototype]: a missing key
    stays missing, and each entry of the record has taken one off a count
    that was a positive number (a count that reaches zero loses its
    key). *)
Theorem rollbackLastCheckIn_spec userId (db : gmap string value) :
  ∃ b db',
    rollbackLastCheckIn userId db = (Ok b, db')
    ∧ if b then
        ∃ s s' lastRecord,
          db !! userKey userId = Some (VUser s)
          ∧ db' !! userKey userId = Some (VUser s')
          ∧ checkInRecords s = checkInRecords s' ++ [lastRecord]
          ∧ totalCheckIns s' = (totalCheckIns s - 1)%Z
          ∧ totalImages s' = (totalImages s - imageCount lastRecord)%Z
          ∧ (∀ label,
               ownLabel label →
               cloudTypeStats s !! label = None →
               cloudTypeStats s' !! label = None)
          ∧ (∀ label n,
               ownLabel label →
               cloudTypeStats s !! label = Some (CountNumber n) →
               (0 < n)%Z →
               cloudTypeStats s' !! label
               = decreased n (countLabel label (cloudTypes lastRecord)))
          ∧ lastIsNewest s'
          ∧ ∀ key, key ≠ userKey userId →
                   key ≠ recordKey userId (timestamp lastRecord) →
                   db' !! key = db !! key
      else db' = db.
Proof.
  destruct (rollbackLastCheckIn_total userId db) as (b & db' & Hrun & Hb).
  exists b, db'. split; [done|]. destruct b.
  - apply rollbackLastCheckIn_true_inv in Hrun
      as (s & lastRecord & Hs & Hlast & ->).
    exists s, (applyRollback lastRecord s), lastRecord.
    split; [done|]. split; [by rewrite lookup_insert_eq|].
    apply last_Some in Hlast as Hsplit. destruct Hsplit as [records Hrecords].
    split. { cbn. by rewrite Hrecords, removelast_last. }
    split; [done|]. split; [done|].
    split.
    { intros label Hown Hnone. rewrite applyRollback_entry, Hnone.
      by rewrite iter_decrementEntry_own_None. }
    split.
    { intros label n Hown Hn Hpos. rewrite applyRollback_entry, Hn.
      rewrite iter_decrementEntry_own by done.
      apply json_count_positive, decreased_positive. }
    split; [done|].
    intros key Hk1 Hk2. by rewrite lookup_insert_ne, lookup_delete_ne.
  - destruct (proj1 Hb eq_refl) as [Hnone|(s & Hs & Hnil)].
    + rewrite rollbackLastCheckIn_nothing in Hrun; [by injection Hrun as <-|].
      intros s Hs. rewrite getUserStats_lookup, Hs in Hnone. done.
    + rewrite rollbackLastCheckIn_nothing in Hrun; [by injection Hrun as <-|].
      intros s' Hs'. rewrite getUserStats_lookup, Hs' in Hs. congruence.
Qed.

End RollbackFunctional.

(** ** The calls of a run of [postComment] *)

Section PostCommentTrace.

Lemma afterCalls_nil w w' : afterCalls w w' [] → db w' = db w → w' = w.
Proof.
  intros [Hcalls Hflag] Hdb. rewrite app_nil_r in Hcalls.
  destruct w, w'. simpl in *. by subst.
Qed.

Lemma saveCheckIn_trace remote card dd a0 cts text w :
  truthyStr a0 = a0 →
  ∃ r w' saved checkIn,
    saveCheckIn remote card dd a0 cts text (w, mkLocals a0 false)
    = (Ok r, (w', mkLocals a0 saved))
    ∧ afterCalls w w' (checkInCall checkIn)
    ∧ db w' = afterCheckIn checkIn (db w)
    ∧ (∀ a n record, checkIn = Some (a, n, record) →
         a0 = Some a
         ∧ timestamp record = clockNow remote
         ∧ (saved = true ↔ statsReadable a (db w)))
    ∧ (checkIn = None → saved = false).
Proof.
  intros Htruthy. unfold saveCheckIn. rewrite Htruthy.
  destruct a0 as [a|].
  2:{ exists None, w, false, None. split; [done|].
      split; [apply afterCalls_refl|]. done. }
  destruct (0 <? length cts)%nat.
  2:{ exists None, w, false, None. split; [done|].
      split; [apply afterCalls_refl|]. done. }
  set (authorName := match dd ≫= extractAuthorName with
                     | Some n => n | None => "用户" +:+ a end).
  set (record := mkCheckInRecord _ _ _ _ _).
  unfold try_catch, bind, ret. unfold_world. simpl.
  destruct (recordCheckIn_cases a authorName record (db w))
    as [(prior & Hprior & Hrun)|Hrun]; rewrite Hrun; simpl.
  - rewrite getUserStats_lookup. simpl.
    eexists _, _, true, (Some (a, authorName, record)).
    split; [done|]. split; [done|]. split; [simpl; by rewrite Hrun|].
    split; [|done]. intros a' n' record' [= <- <- <-].
    split; [done|]. split; [done|].
    split; [|done]. intros _. by exists prior.
  - eexists None, _, false, (Some (a, authorName, record)).
    split; [done|]. split; [done|]. split; [simpl; by rewrite Hrun|].
    split; [|done]. intros a' n' record' [= <- <- <-].
    split; [done|]. split; [done|].
    split; [done|]. intros [prior Hprior].
    rewrite (recordCheckIn_run _ _ _ _ _ Hprior) in Hrun. done.
Qed.

Lemma rollbackIfSaved_trace w a0 saved :
  truthyStr a0 = a0 →
  ∃ w',
    rollbackIfSaved (w, mkLocals a0 saved) = (Ok tt, (w', mkLocals a0 saved))
    ∧ afterCalls w w' (rollbackCall saved a0)
    ∧ db w' = afterRollback saved a0 (db w).
Proof.
  intros Htruthy.
  unfold rollbackIfSaved. unfold bind at 1. unfold getLocals. simpl.
  rewrite Htruthy. unfold rollbackCall, afterRollback.
  destruct saved, a0 as [a|];
    try (exists w; split; [done|]; split; [apply afterCalls_refl|done]).
  unfold try_catch, bind, ret. unfold_world. simpl.
  destruct (rollbackLastCheckIn_total a (db w)) as (b & db' & Hrun & _).
  rewrite Hrun. simpl. eexists. split; [done|]. done.
Qed.

Lemma markCommentedToday_trace remote a0 w l :
  truthyStr a0 = a0 →
  ∃ w',
    markCommentedToday remote a0 (w, l) = (Ok tt, (w', l))
    ∧ afterCalls w w' (dailyMarkCall a0)
    ∧ db w' = afterDailyMark remote a0 (db w).
Proof.
  intros Htruthy. unfold markCommentedToday. rewrite Htruthy.
  destruct a0 as [a|].
  2:{ exists w. split; [done|]. split; [apply afterCalls_refl|done]. }
  unfold try_catch, bind, ret. unfold_world. simpl.
  eexists. split; [done|]. done.
Qed.

(** What a run of [postComment] does, call by call. Either no post is
    attempted and the store is untouched, or the calls are: the analysis,
    the tentative check-in, the picture, the post, and then the daily
    mark (the post answers 0) or the compensation (otherwise). *)
Lemma postComment_trace cfg remote ty rid card dd w :
  let a0 := dd ≫= extractAuthorId in
  ∃ b w' evs,
    postComment cfg remote ty rid card dd w = (Ok b, w')
    ∧ afterCalls w w' evs
    ∧ ((b = false ∧ db w' = db w ∧ ∀ c, c ∈ evs → ∃ urls, c = AnalyzeImages urls)
       ∨ ∃ evA checkIn evR text pic saved,
           (∀ c, c ∈ evA → ∃ urls, c = AnalyzeImages urls)
           ∧ (∀ c, c ∈ evR → ∃ s, c = GenerateCheckInImage s)
           ∧ (∀ a n record, checkIn = Some (a, n, record) →
                a0 = Some a
                ∧ timestamp record = clockNow remote
                ∧ (saved = true ↔ statsReadable a (db w)))
           ∧ (checkIn = None → saved = false)
           ∧ ((postCode remote = Ok 0%Z ∧ b = true
               ∧ evs = evA ++ checkInCall checkIn ++ evR
                         ++ [AddComment rid ty text pic] ++ dailyMarkCall a0
               ∧ db w' = afterDailyMark remote a0 (afterCheckIn checkIn (db w)))
              ∨ (postCode remote ≠ Ok 0%Z ∧ b = false
                 ∧ evs = evA ++ checkInCall checkIn ++ evR
                           ++ [AddComment rid ty text pic]
                           ++ rollbackCall saved a0
                 ∧ db w' = afterRollback saved a0
                             (afterCheckIn checkIn (db w))))).
Proof.
  intros a0.
  assert (truthyStr a0 = a0) as Htruthy by apply truthyStr_extractAuthorId.
  unfold postComment, withLocals.
  unfold try_catch at 1. unfold bind at 1. unfold answer at 1.
  destruct (getCsrfToken (cookie cfg)) as [csrf|e].
  2:{ unfold bind at 1.
      destruct (rollbackIfSaved_trace w None false eq_refl)
        as (w' & Hrun & Hafter & Hdb).
      rewrite Hrun. unfold ret.
      exists false, w', []. split; [done|]. split; [done|].
      left. split; [done|]. split; [done|].
      intros c Hc. by apply elem_of_nil in Hc. }
  fold a0.
  unfold bind at 1. unfold setAuthorId at 1. cbn [recordSaved].
  unfold bind at 1.
  destruct (analyseClouds_spec cfg remote card w (mkLocals a0 false))
    as (analysed & w1 & evs1 & Hrun1 & Hafter1 & Hdb1 & Hevs1).
  rewrite Hrun1. destruct analysed as [[cloudTypes commentText]|].
  2:{ unfold ret. exists false, w1, evs1. split; [done|]. split; [done|].
      left. done. }
  unfold bind at 1.
  destruct (saveCheckIn_trace remote card dd a0 cloudTypes commentText w1 Htruthy)
    as (stats & w2 & saved & checkIn & Hrun2 & Hafter2 & Hdb2 & Hsome & Hnone).
  rewrite Hrun2. unfold bind at 1.
  destruct (renderCheckInImage_spec cfg remote stats w2 (mkLocals a0 saved))
    as (imageInfo & w3 & evs3 & Hrun3 & Hafter3 & Hdb3 & Hevs3).
  rewrite Hrun3. unfold bind at 1. unfold inWorld at 1, call at 1.
  set (w4 := mkWorld (db w3) (calls w3 ++ [AddComment rid ty commentText imageInfo])
                     (isProcessing w3)).
  assert (afterCalls w w4
            (evs1 ++ checkInCall checkIn ++ evs3
             ++ [AddComment rid ty commentText imageInfo]))
    as Hafter4.
  { apply (afterCalls_trans _ w1); [done|].
    apply (afterCalls_trans _ w2); [done|].
    apply (afterCalls_trans _ w3); [done|]. done. }
  assert (db w4 = afterCheckIn checkIn (db w)) as Hdb4.
  { unfold w4. simpl. by rewrite Hdb3, Hdb2, Hdb1. }
  rewrite Hdb1 in Hsome.
  destruct (rollbackIfSaved_trace w4 a0 saved Htruthy)
    as (w5 & Hrun5 & Hafter5 & Hdb5).
  assert (afterCalls w w5
            (evs1 ++ checkInCall checkIn ++ evs3
             ++ [AddComment rid ty commentText imageInfo]
             ++ rollbackCall saved a0)) as Hafter5'.
  { pose proof (afterCalls_trans _ _ _ _ _ Hafter4 Hafter5) as H.
    by rewrite <- !app_assoc in H. }
  unfold answer at 1.
  destruct (postCode remote) as [code|e] eqn:Hcode;
    unfold bind at 1; cbv beta iota.
  2:{ unfold bind at 1. rewrite Hrun5. unfold ret.
      eexists false, w5, _. split; [done|]. split; [exact Hafter5'|].
      right. exists evs1, checkIn, evs3, commentText, imageInfo, saved.
      split; [done|]. split; [done|]. split; [done|]. split; [done|].
      right. split; [done|]. split; [done|]. split; [done|].
      by rewrite Hdb5, Hdb4. }
  destruct (Z.eqb_spec code 0) as [->|Hne].
  - unfold bind at 1.
    destruct (markCommentedToday_trace remote a0 w4 (mkLocals a0 saved) Htruthy)
      as (w6 & Hrun6 & Hafter6 & Hdb6).
    rewrite Hrun6. unfold ret.
    eexists true, w6, _. split; [done|].
    split.
    { pose proof (afterCalls_trans _ _ _ _ _ Hafter4 Hafter6) as H.
      rewrite <- !app_assoc in H. exact H. }
    right. exists evs1, checkIn, evs3, commentText, imageInfo, saved.
    split; [done|]. split; [done|]. split; [done|]. split; [done|].
    left. split; [done|]. split; [done|]. split; [done|].
    by rewrite Hdb6, Hdb4.
  - unfold bind at 1. rewrite Hrun5. unfold ret.
    eexists false, w5, _. split; [done|]. split; [exact Hafter5'|].
    right. exists evs1, checkIn, evs3, commentText, imageInfo, saved.
    split; [done|]. split; [done|]. split; [done|]. split; [done|].
    right. split; [congruence|]. split; [done|]. split; [done|].
    by rewrite Hdb5, Hdb4.
Qed.

End PostCommentTrace.

(** ** The calls of a run of [processAtMessage] *)

Section ProcessTrace.

Lemma checkIfUserCommentedAndPost_trace cfg remote ty rid card dd w :
  let a0 := dd ≫= extractAuthorId in
  ∃ b w' evs,
    checkIfUserCommentedAndPost cfg remote ty rid card dd w = (Ok b, w')
    ∧ afterCalls w w' evs
    ∧ ((db w' = db w ∧ ∀ c, c ∈ evs → isQuery c = true)
       ∨ ∃ evQ checkIn evR text pic saved,
           (∀ c, c ∈ evQ → isQuery c = true)
           ∧ GetComments rid ty ∈ evQ
           ∧ (∀ c, c ∈ evR → ∃ s, c = GenerateCheckInImage s)
           ∧ (∀ a n record, checkIn = Some (a, n, record) →
                a0 = Some a
                ∧ timestamp record = clockNow remote
                ∧ (saved = true ↔ statsReadable a (db w)))
           ∧ (checkIn = None → saved = false)
           ∧ (∀ a, a0 = Some a →
                db w !! dailyKey a (clockToday remote) = None)
           ∧ checkImagesInDynamicCard card ≠ []
           ∧ ((postCode remote = Ok 0%Z ∧ b = true
               ∧ evs = evQ ++ checkInCall checkIn ++ evR
                         ++ [AddComment rid ty text pic] ++ dailyMarkCall a0
               ∧ db w' = afterDailyMark remote a0 (afterCheckIn checkIn (db w)))
              ∨ (postCode remote ≠ Ok 0%Z ∧ b = false
                 ∧ evs = evQ ++ checkInCall checkIn ++ evR
                           ++ [AddComment rid ty text pic]
                           ++ rollbackCall saved a0
                 ∧ db w' = afterRollback saved a0
                             (afterCheckIn checkIn (db w))))).
Proof.
  intros a0.
  assert (truthyStr a0 = a0) as Htruthy by apply truthyStr_extractAuthorId.
  unfold checkIfUserCommentedAndPost. fold a0. rewrite Htruthy.
  destruct (checkImagesInDynamicCard card) as [|image images] eqn:Himages.
  { exists true, w, []. simpl. split; [done|]. split; [apply afterCalls_refl|].
    left. split; [done|]. intros c Hc. by apply elem_of_nil in Hc. }
  cbn [length Nat.eqb]. unfold bind at 1.
  assert (∃ gate,
    match a0 with
    | Some a => liftDB (hasUserCommentedToday (clockToday remote) a)
    | None => ret false
    end w = (Ok gate, w)
    ∧ (gate = false →
       ∀ a, a0 = Some a → db w !! dailyKey a (clockToday remote) = None))
    as (gate & Hrun & Hgate).
  { destruct a0 as [a|].
    - unfold liftDB. rewrite hasUserCommentedToday_lookup.
      eexists. split; [by destruct w|].
      intros Hfalse a' [= <-].
      apply bool_decide_eq_false in Hfalse.
      by apply eq_None_not_Some.
    - exists false. split; [done|]. by intros _ a'. }
  rewrite Hrun. destruct gate.
  { exists true, w, []. split; [done|]. split; [apply afterCalls_refl|].
    left. split; [done|]. intros c Hc. by apply elem_of_nil in Hc. }
  specialize (Hgate eq_refl).
  unfold try_catch at 1. unfold bind at 1. unfold call at 1.
  set (w1 := mkWorld (db w) (calls w ++ [GetComments rid ty]) (isProcessing w)).
  unfold bind at 1. unfold answer at 1.
  assert (afterCalls w w1 [GetComments rid ty]) as Hafter1 by done.
  destruct (commentReplies remote) as [comments|e].
  2:{ exists false, w1, [GetComments rid ty]. split; [done|]. split; [done|].
      left. split; [done|]. by intros c ->%list_elem_of_singleton. }
  destruct (match comments with
            | Some rs => alreadyCommented (uidToMonitor cfg) rs
            | None => false
            end).
  { exists true, w1, [GetComments rid ty]. split; [done|]. split; [done|].
    left. split; [done|]. by intros c ->%list_elem_of_singleton. }
  destruct (postComment_trace cfg remote ty rid card dd w1)
    as (b & w' & evs & Hpost & Hafter & Hshape).
  rewrite Hpost.
  exists b, w', ([GetComments rid ty] ++ evs). split; [done|].
  split; [by eapply afterCalls_trans|].
  destruct Hshape as [(_ & Hdb & Hevs)
                     |(evA & checkIn & evR & text & pic & saved
                       & HevA & HevR & Hsome & Hnone & Hend)].
  - left. split; [done|].
    intros c [->%list_elem_of_singleton|Hin]%elem_of_app; [done|].
    by destruct (Hevs _ Hin) as [urls ->].
  - right. exists ([GetComments rid ty] ++ evA), checkIn, evR, text, pic, saved.
    split.
    { intros c [->%list_elem_of_singleton|Hin]%elem_of_app; [done|].
      by destruct (HevA _ Hin) as [urls ->]. }
    split; [apply elem_of_app; left; by apply list_elem_of_singleton|].
    split; [done|]. split; [done|]. split; [done|]. split; [done|].
    split; [done|].
    rewrite <- !app_assoc. simpl in Hend.
    destruct Hend as [(? & ? & -> & ?)|(? & ? & -> & ?)]; [left|right]; done.
Qed.

(** What a run of [processAtMessage] does, call by call. *)
Lemma processAtMessage_trace cfg remote atMessage w :
  ∃ w' evs,
    processAtMessage cfg remote atMessage w = (Ok tt, w')
    ∧ afterCalls w w' evs
    ∧ ((db w' = db w ∧ ∀ c, c ∈ evs → isQuery c = true)
       ∨ (∃ evQ dynamicId,
            (∀ c, c ∈ evQ → isQuery c = true)
            ∧ let pm := ledgerRecord atMessage dynamicId (clockNow remote) in
              evs = evQ ++ [RecordProcessedAtMessage pm]
              ∧ db w' = afterLedgerWrite pm (db w))
       ∨ ∃ evQ checkIn evR oid ty text pic saved a0,
           (∀ c, c ∈ evQ → isQuery c = true)
           ∧ GetComments oid ty ∈ evQ
           ∧ (∀ c, c ∈ evR → ∃ s, c = GenerateCheckInImage s)
           ∧ (∀ a n record, checkIn = Some (a, n, record) →
                a0 = Some a
                ∧ timestamp record = clockNow remote
                ∧ (saved = true ↔ statsReadable a (db w)))
           ∧ (checkIn = None → saved = false)
           ∧ (∀ a, a0 = Some a →
                db w !! dailyKey a (clockToday remote) = None)
           ∧ (∃ dynamicId dynamicData,
                resolveUri (uri (item atMessage)) = Resolved dynamicId
                ∧ fst (fetchDynamicData remote (uri (item atMessage))
                         dynamicId w) = Ok (Some dynamicData)
                ∧ a0 = extractAuthorId dynamicData)
           ∧ ((∃ dynamicId,
                 postCode remote = Ok 0%Z
                 ∧ let pm := ledgerRecord atMessage dynamicId (clockNow remote) in
                   evs = evQ ++ checkInCall checkIn ++ evR
                         ++ [AddComment oid ty text pic] ++ dailyMarkCall a0
                         ++ [RecordProcessedAtMessage pm]
                   ∧ db w' = afterLedgerWrite pm
                               (afterDailyMark remote a0
                                  (afterCheckIn checkIn (db w))))
              ∨ (postCode remote ≠ Ok 0%Z
                 ∧ evs = evQ ++ checkInCall checkIn ++ evR
                           ++ [AddComment oid ty text pic]
                           ++ rollbackCall saved a0
                 ∧ db w' = afterRollback saved a0
                             (afterCheckIn checkIn (db w))))).
Proof.
  unfold processAtMessage. unfold try_catch at 1.
  destruct (resolveUri (uri (item atMessage))) as [dynamicId|sentinel]
    eqn:Hresolved.
  2:{ rewrite recordProcessed_run. cbv zeta.
      eexists _, [_]. split; [done|]. split; [done|].
      right; left. exists [], sentinel.
      split; [intros c Hc; by apply elem_of_nil in Hc|]. done. }
  unfold bind at 1.
  destruct (fetchDynamicData_spec remote (uri (item atMessage)) dynamicId w)
    as (fetched & w1 & evs1 & Hrun1 & Hafter1 & Hdb1 & Hevs1).
  rewrite Hrun1.
  assert (∀ c, c ∈ evs1 → isQuery c = true) as Hq1.
  { intros c Hc. by destruct (Hevs1 _ Hc) as [-> | ->]. }
  destruct fetched as [dynamicData|].
  2:{ exists w1, evs1. unfold ret. split; [done|]. split; [done|].
      left. done. }
  destruct (isStale remote dynamicData).
  { rewrite recordProcessed_run. cbv zeta.
    eexists _, (evs1 ++ [_]). split; [done|].
    split.
    { eapply afterCalls_trans; [done|]. done. }
    right; left. exists evs1, dynamicId. split; [done|]. cbv zeta.
    split; [done|]. simpl. by rewrite Hdb1. }
  cbv zeta. unfold bind at 1.
  set (card := dynamicCardOf atMessage dynamicId dynamicData).
  set (commentType := default _ _). set (commentRid := default _ _).
  destruct (checkIfUserCommentedAndPost_trace cfg remote commentType commentRid
              card (Some dynamicData) w1)
    as (b & w2 & evs2 & Hrun2 & Hafter2 & Hshape).
  rewrite Hrun2. rewrite Hdb1 in Hshape.
  destruct Hshape as [(Hdb2 & Hq2)
                     |(evQ & checkIn & evR & text & pic & saved
                       & HevQ & Hasked & HevR & Hsome & Hnone & Hgate & _ & Hend)].
  - destruct b.
    + rewrite recordProcessed_run. cbv zeta.
      eexists _, (evs1 ++ evs2 ++ [_]). split; [done|].
      split.
      { eapply afterCalls_trans; [done|].
        eapply afterCalls_trans; [done|]. done. }
      right; left. exists (evs1 ++ evs2), dynamicId.
      split. { intros c [?|?]%elem_of_app; auto. }
      cbv zeta. rewrite <- app_assoc. split; [done|]. simpl. by rewrite Hdb2.
    + unfold ret. exists w2, (evs1 ++ evs2). split; [done|].
      split; [by eapply afterCalls_trans|].
      left. split; [done|]. intros c [?|?]%elem_of_app; auto.
  - assert (∀ c, c ∈ evs1 ++ evQ → isQuery c = true) as Hq.
    { intros c [?|?]%elem_of_app; auto. }
    assert (∃ dynamicId' dynamicData',
              Resolved dynamicId = Resolved dynamicId'
              ∧ fst (fetchDynamicData remote (uri (item atMessage))
                       dynamicId' w) = Ok (Some dynamicData')
              ∧ Some dynamicData ≫= extractAuthorId
                = extractAuthorId dynamicData') as Hauthor.
    { exists dynamicId, dynamicData. by rewrite Hrun1. }
    assert (GetComments commentRid commentType ∈ evs1 ++ evQ) as Hasked'.
    { apply elem_of_app. by right. }
    destruct Hend as [(Hcode & -> & -> & Hdb2)|(Hcode & -> & -> & Hdb2)].
    + rewrite recordProcessed_run. cbv zeta.
      eexists _, (evs1 ++ (evQ ++ checkInCall checkIn ++ evR
                           ++ [AddComment commentRid commentType text pic]
                           ++ dailyMarkCall (Some dynamicData ≫= extractAuthorId))
                  ++ [_]).
      split; [done|].
      split.
      { eapply afterCalls_trans; [done|].
        eapply afterCalls_trans; [done|]. done. }
      right; right.
      exists (evs1 ++ evQ), checkIn, evR, commentRid, commentType, text, pic,
        saved, (Some dynamicData ≫= extractAuthorId).
      split; [done|]. split; [done|]. split; [done|]. split; [done|].
      split; [done|]. split; [done|]. split; [exact Hauthor|].
      left. exists dynamicId. split; [done|]. cbv zeta.
      split; [by rewrite <- !app_assoc|]. simpl. by rewrite Hdb2.
    + unfold ret.
      eexists w2, (evs1 ++ (evQ ++ checkInCall checkIn ++ evR
                            ++ [AddComment commentRid commentType text pic]
                            ++ rollbackCall saved
                                 (Some dynamicData ≫= extractAuthorId))).
      split; [done|].
      split; [by eapply afterCalls_trans|].
      right; right.
      exists (evs1 ++ evQ), checkIn, evR, commentRid, commentType, text, pic,
        saved, (Some dynamicData ≫= extractAuthorId).
      split; [done|]. split; [done|]. split; [done|]. split; [done|].
      split; [done|]. split; [done|]. split; [exact Hauthor|].
      right. split; [done|]. split; [by rewrite <- !app_assoc|]. done.
Qed.

End ProcessTrace.

(** ** The protocol of a run *)

Section Protocol.








End Protocol.

(** ** What follows from the protocol *)

Section ProtocolConsequences.

Lemma elem_of_checkInCall c checkIn :
  c ∈ checkInCall checkIn →
  ∃ a n record, checkIn = Some (a, n, record) ∧ c = RecordCheckIn a n record.
Proof.
  destruct checkIn as [[[a n] record]|]; simpl.
  - intros ->%list_elem_of_singleton. eauto.
  - by intros ?%elem_of_nil.
Qed.

Lemma elem_of_dailyMarkCall c a0 :
  c ∈ dailyMarkCall a0 → ∃ a, a0 = Some a ∧ c = RecordDailyComment a.
Proof.
  destruct a0 as [a|]; simpl.
  - intros ->%list_elem_of_singleton. eauto.
  - by intros ?%elem_of_nil.
Qed.

Lemma elem_of_rollbackCall c saved a0 :
  c ∈ rollbackCall saved a0 →
  ∃ a, saved = true ∧ a0 = Some a ∧ c = RollbackLastCheckIn a.
Proof.
  destruct saved, a0 as [a|]; simpl; try by intros ?%elem_of_nil.
  intros ->%list_elem_of_singleton. eauto.
Qed.

(** Where a call of a posting run can stand. *)
Lemma elem_of_posting_run c evQ checkIn evR post tail :
  (∀ c', c' ∈ evQ → isQuery c' = true) →
  (∀ c', c' ∈ evR → ∃ s, c' = GenerateCheckInImage s) →
  c ∈ evQ ++ checkInCall checkIn ++ evR ++ [post] ++ tail →
  isQuery c = true
  ∨ (∃ a n record, checkIn = Some (a, n, record) ∧ c = RecordCheckIn a n record)
  ∨ c = post ∨ c ∈ tail.
Proof.
  intros Hq HevR. rewrite !elem_of_app, list_elem_of_singleton.
  intros [Hin|[Hin|[Hin|[Hin|Hin]]]]; auto.
  - right; left. by apply elem_of_checkInCall.
  - left. by destruct (HevR _ Hin) as [s ->].
Qed.

Lemma afterLedgerWrite_other pm (db : gmap string value) key :
  key ≠ processedKey (atMessageId pm) →
  afterLedgerWrite pm db !! key = db !! key.
Proof. intros Hne. unfold afterLedgerWrite. by rewrite lookup_insert_ne. Qed.

Lemma afterDailyMark_own remote a (db : gmap string value) :
  is_Some (afterDailyMark remote (Some a) db !! dailyKey a (clockToday remote)).
Proof.
  unfold afterDailyMark, recordDailyComment, try_catch, level_put. cbn [snd].
  rewrite lookup_insert_eq. eauto.
Qed.

Lemma afterDailyMark_other remote a0 (db : gmap string value) key :
  (∀ a d, key ≠ dailyKey a d) →
  afterDailyMark remote a0 db !! key = db !! key.
Proof.
  intros Hne. destruct a0 as [a|]; [|done].
  unfold afterDailyMark, recordDailyComment, try_catch, level_put. cbn [snd].
  by rewrite lookup_insert_ne.
Qed.

(** X18. The success path, the counterpart of the compensation of a
    failed post: when a run of the loop body has checked the author in
    and the post answers 0, then the notification is in the ledger, the
    author has the mark of the day, [totalCheckIns] of the author is one
    more than before, and the newest stored record of the author is the
    check-in of this run. *)
Theorem successful_post_is_recorded cfg counts atMessage remote w
    counts' w' evs a newName record :
  handleAtMessage cfg counts (atMessage, remote) w = (Ok counts', w') →
  afterCalls w w' evs →
  RecordCheckIn a newName record ∈ evs →
  postCode remote = Ok 0%Z →
  statsReadable a (db w) →
  isAtMessageProcessed (at_id atMessage) (db w') = (Ok true, db w')
  ∧ hasUserCommentedToday (clockToday remote) a (db w') = (Ok true, db w')
  ∧ totalActionsOf a (db w') = (totalActionsOf a (db w) + 1)%Z
  ∧ ∃ s, getUserStats a (db w') = (Ok (Some s), db w')
         ∧ lastCheckIn s = clockNow remote
         ∧ last (checkInRecords s) = Some record.
Proof.
  intros Hrun Hafter Hin Hcode [prior Hprior].
  destruct (db w !! processedKey (at_id atMessage)) as [v|] eqn:Hledger.
  { rewrite handleAtMessage_skip in Hrun by (by rewrite Hledger).
    injection Hrun as _ <-.
    rewrite (afterCalls_inj _ _ _ _ Hafter (afterCalls_refl w)) in Hin.
    by apply elem_of_nil in Hin. }
  rewrite handleAtMessage_fresh in Hrun by done.
  destruct (processAtMessage_trace cfg remote atMessage w)
    as (w1 & evs1 & Hrun1 & Hafter1 & Hshape).
  rewrite Hrun1 in Hrun. simpl in Hrun. injection Hrun as _ <-.
  rewrite (afterCalls_inj _ _ _ _ Hafter Hafter1) in Hin. clear Hafter.
  destruct Hshape as [(Hdb & Hq)
    |[(evQ & dynamicId & Hq & Hevs & Hdb)
     |(evQ & checkIn & evR & oid & ty & text & pic & saved & a0
       & Hq & Hasked & HevR & Hsome & Hnone & Hgate & Hauthor & Hend)]].
  { by apply Hq in Hin. }
  { cbv zeta in Hevs. subst evs1.
    apply elem_of_app in Hin as [Hin|Hin%list_elem_of_singleton]; [|done].
    by apply Hq in Hin. }
  destruct Hend as [(dynamicId & _ & Hevs & Hdb)|(Hfail & _)]; [|done].
  cbv zeta in Hevs, Hdb. subst evs1.
  apply elem_of_posting_run in Hin
    as [Hin|[(a' & n' & record' & Hci & [= <- <- <-])|[Hin|Hin]]];
    [done| |done| |done|done].
  2:{ apply elem_of_app in Hin as [Hin|Hin%list_elem_of_singleton]; [|done].
      by apply elem_of_dailyMarkCall in Hin as (? & _ & ?). }
  destruct (Hsome _ _ _ Hci) as (-> & Hts & _). subst checkIn.
  rewrite Hdb. clear Hdb.
  set (pm := ledgerRecord atMessage dynamicId (clockNow remote)).
  set (s1 := applyCheckIn newName record
               (default (initialStats newName record) prior)).
  split.
  { rewrite isAtMessageProcessed_lookup.
    change (at_id atMessage) with (atMessageId pm).
    unfold afterLedgerWrite. rewrite lookup_insert_eq.
    by rewrite bool_decide_eq_true_2. }
  split.
  { rewrite hasUserCommentedToday_lookup.
    rewrite afterLedgerWrite_other by apply not_eq_sym, processedKey_dailyKey.
    by rewrite bool_decide_eq_true_2 by apply afterDailyMark_own. }
  assert (afterLedgerWrite pm
            (afterDailyMark remote (Some a)
               (afterCheckIn (Some (a, newName, record)) (db w)))
            !! userKey a = Some (VUser s1)) as Hs1.
  { rewrite afterLedgerWrite_other by apply userKey_processedKey.
    rewrite afterDailyMark_other by apply userKey_dailyKey.
    unfold afterCheckIn. rewrite (recordCheckIn_run _ _ _ _ _ Hprior).
    cbn [snd].
    rewrite lookup_insert_ne by (symmetry; apply userKey_recordKey).
    by rewrite lookup_insert_eq. }
  split.
  { rewrite !totalActionsOf_lookup, Hs1, Hprior. by destruct prior. }
  exists s1. rewrite getUserStats_lookup, Hs1.
  split; [done|]. split; [done|].
  unfold s1. cbn [applyCheckIn checkInRecords].
  by rewrite pushRecord_snoc, last_snoc.
Qed.

Lemma successful_post_is_recorded_witness :
  let remote := sampleRemote onePic (Ok 0%Z) in
  let w' := snd (handleAtMessage sampleConfig (0, 0)%nat
                   (sampleMessage, remote) emptyWorld) in
  let record := mkCheckInRecord "9" 1738300000000 [sampleCloud] 1 "..." in
  handleAtMessage sampleConfig (0, 0)%nat (sampleMessage, remote) emptyWorld
  = (Ok (1, 0)%nat, w')
  ∧ afterCalls emptyWorld w' (calls w')
  ∧ RecordCheckIn "1001" "bob" record ∈ calls w'
  ∧ postCode remote = Ok 0%Z
  ∧ statsReadable "1001" (db emptyWorld)
  ∧ isAtMessageProcessed 42 (db w') = (Ok true, db w')
  ∧ hasUserCommentedToday dayD "1001" (db w') = (Ok true, db w')
  ∧ totalActionsOf "1001" (db w') = (totalActionsOf "1001" (db emptyWorld) + 1)%Z
  ∧ ∃ s, getUserStats "1001" (db w') = (Ok (Some s), db w')
         ∧ lastCheckIn s = 1738300000000%Z
         ∧ last (checkInRecords s) = Some record.
Proof.
  set (remote := sampleRemote onePic (Ok 0%Z)).
  set (w' := snd (handleAtMessage sampleConfig (0, 0)%nat
                    (sampleMessage, remote) emptyWorld)).
  set (record := mkCheckInRecord "9" 1738300000000 [sampleCloud] 1 "...").
  assert (handleAtMessage sampleConfig (0, 0)%nat (sampleMessage, remote)
            emptyWorld = (Ok (1, 0)%nat, w')) as Hrun by (by vm_compute).
  assert (afterCalls emptyWorld w' (calls w')) as Hafter by (by vm_compute).
  assert (RecordCheckIn "1001" "bob" record ∈ calls w') as Hin.
  { vm_compute. do 3 apply list_elem_of_further. apply list_elem_of_here. }
  assert (statsReadable "1001" (db emptyWorld)) as Hshape by (by exists None).
  split; [exact Hrun|]. split; [exact Hafter|]. split; [exact Hin|].
  split; [reflexivity|]. split; [exact Hshape|].
  exact (successful_post_is_recorded sampleConfig (0, 0)%nat sampleMessage
           remote emptyWorld (1, 0)%nat w' (calls w') "1001" "bob" record
           Hrun Hafter Hin eq_refl Hshape).
Defined.

(** X19. A run that makes no post has no side effect but the ledger
    write: every key of the store other than the ledger key of the
    notification is as before, and every call of the run is a query to a
    remote service or the ledger write. So no check-in, no daily mark and
    no rollback is made without an attempt to post. *)
Theorem run_without_post_changes_only_ledger cfg remote atMessage w :
  ∃ w' evs,
    processAtMessage cfg remote atMessage w = (Ok tt, w')
    ∧ afterCalls w w' evs
    ∧ ((∀ c, c ∈ evs → isPost c = false) →
       (∀ key, key ≠ processedKey (at_id atMessage) →
               db w' !! key = db w !! key)
       ∧ ∀ c, c ∈ evs → isQuery c = true ∨ isLedgerWrite c = true).
Proof.
  destruct (processAtMessage_trace cfg remote atMessage w)
    as (w' & evs & Hrun & Hafter & Hshape).
  exists w', evs. split; [done|]. split; [done|]. intros Hnopost.
  destruct Hshape as [(Hdb & Hq)
    |[(evQ & dynamicId & Hq & Hevs & Hdb)
     |(evQ & checkIn & evR & oid & ty & text & pic & saved & a0
       & Hq & Hasked & HevR & Hsome & Hnone & Hgate & Hauthor & Hend)]].
  - rewrite Hdb. split; [done|]. intros c Hc. left. by apply Hq.
  - cbv zeta in Hevs, Hdb. subst evs. rewrite Hdb. split.
    + intros key Hkey. by apply afterLedgerWrite_other.
    + intros c [Hc|Hc%list_elem_of_singleton]%elem_of_app.
      * left. by apply Hq.
      * right. by subst c.
  - exfalso.
    assert (AddComment oid ty text pic ∈ evs) as Hin.
    { destruct Hend as [(dynamicId & _ & Hevs & _)|(_ & Hevs & _)];
        cbv zeta in Hevs; subst evs;
        rewrite !elem_of_app, list_elem_of_singleton; auto 10. }
    by apply Hnopost in Hin.
Qed.

(** X20. Check-ins are gated and compensated within the run. A check-in
    is only made for the author that [extractAuthorId] reads from the
    fetched dynamic, when this author is without the mark of the day; it
    carries the time of the run, and a post comes after it in the run. A
    daily mark is only written for this author, after the post of the
    run, and only when the post answers 0. A rollback is only made for
    this author, after a check-in for this author and after the post of
    the run, and only when the post does not answer 0. *)
Theorem check_in_is_gated_and_posted cfg remote atMessage w :
  ∃ w' evs,
    processAtMessage cfg remote atMessage w = (Ok tt, w')
    ∧ afterCalls w w' evs
    ∧ (∀ a n record, RecordCheckIn a n record ∈ evs →
         fetchedAuthor remote atMessage w a
         ∧ hasUserCommentedToday (clockToday remote) a (db w) = (Ok false, db w)
         ∧ timestamp record = clockNow remote
         ∧ ∃ before after oid ty text pic,
             evs = before ++ RecordCheckIn a n record :: after
             ∧ AddComment oid ty text pic ∈ after)
    ∧ (∀ a, RecordDailyComment a ∈ evs →
         fetchedAuthor remote atMessage w a
         ∧ postCode remote = Ok 0%Z
         ∧ hasUserCommentedToday (clockToday remote) a (db w) = (Ok false, db w)
         ∧ ∃ before after oid ty text pic,
             evs = before ++ RecordDailyComment a :: after
             ∧ AddComment oid ty text pic ∈ before)
    ∧ (∀ a, RollbackLastCheckIn a ∈ evs →
         fetchedAuthor remote atMessage w a
         ∧ postCode remote ≠ Ok 0%Z
         ∧ ∃ before after oid ty text pic n record,
             evs = before ++ RollbackLastCheckIn a :: after
             ∧ AddComment oid ty text pic ∈ before
             ∧ RecordCheckIn a n record ∈ before).
Proof.
  destruct (processAtMessage_trace cfg remote atMessage w)
    as (w' & evs & Hrun & Hafter & Hshape).
  exists w', evs. split; [done|]. split; [done|].
  destruct Hshape as [(Hdb & Hq)
    |[(evQ & dynamicId & Hq & Hevs & Hdb)
     |(evQ & checkIn & evR & oid & ty & text & pic & saved & a0
       & Hq & Hasked & HevR & Hsome & Hnone & Hgate & Hauthor & Hend)]].
  - split; [|split]; intros ? **;
      match goal with H : _ ∈ evs |- _ => by apply Hq in H end.
  - cbv zeta in Hevs. subst evs.
    split; [|split]; intros ? **;
      match goal with
      | H : _ ∈ evQ ++ _ |- _ =>
          apply elem_of_app in H as [H|H%list_elem_of_singleton];
          [by apply Hq in H|done]
      end.
  - assert (∀ a, a0 = Some a →
              hasUserCommentedToday (clockToday remote) a (db w)
              = (Ok false, db w)) as Hgate'.
    { intros a Ha. rewrite hasUserCommentedToday_lookup, (Hgate a Ha).
      rewrite bool_decide_eq_false_2; [done|]. by intros [? ?]. }
    assert (∀ a, a0 = Some a → fetchedAuthor remote atMessage w a) as Hfetched.
    { intros a Ha.
      destruct Hauthor as (dynamicId & dynamicData & Hres & Hfetch & Ha0).
      exists dynamicId, dynamicData. by rewrite <- Ha0. }
    set (post := AddComment oid ty text pic).
    assert (∃ tail, evs = evQ ++ checkInCall checkIn ++ evR ++ [post] ++ tail
                    ∧ ((postCode remote = Ok 0%Z
                        ∧ ∃ pm, tail = dailyMarkCall a0
                                       ++ [RecordProcessedAtMessage pm])
                       ∨ (postCode remote ≠ Ok 0%Z
                          ∧ tail = rollbackCall saved a0)))
      as (tail & Hevs & Htail).
    { destruct Hend as [(dynamicId & Hcode & Hevs & _)|(Hcode & Hevs & _)];
        cbv zeta in Hevs; eexists; (split; [exact Hevs|]); eauto. }
    clear Hend. subst evs.
    split; [|split].
    + intros a n record Hin.
      apply elem_of_posting_run in Hin
        as [Hin|[(a' & n' & record' & Hci' & [= <- <- <-])|[Hin|Hin]]];
        [done| |done| |done|done].
      * destruct (Hsome _ _ _ Hci') as (Ha & Hts & _). subst checkIn.
        split; [by apply Hfetched|]. split; [by apply Hgate'|].
        split; [done|].
        exists evQ, (evR ++ [post] ++ tail), oid, ty, text, pic.
        split; [done|].
        rewrite !elem_of_app, list_elem_of_singleton. auto.
      * exfalso.
        destruct Htail as [(_ & pm & ->)|(_ & ->)].
        -- apply elem_of_app in Hin as [Hin|Hin%list_elem_of_singleton];
             [|done].
           by apply elem_of_dailyMarkCall in Hin as (? & _ & ?).
        -- by apply elem_of_rollbackCall in Hin as (? & _ & _ & ?).
    + intros a Hin.
      apply elem_of_posting_run in Hin
        as [Hin|[(a' & n' & record' & _ & [=])|[Hin|Hin]]];
        [done|done| |done|done].
      destruct Htail as [(Hcode & pm & ->)|(_ & ->)].
      * apply elem_of_app in Hin as [Hin|Hin%list_elem_of_singleton]; [|done].
        apply elem_of_dailyMarkCall in Hin as (a' & Ha & [= <-]).
        split; [by apply Hfetched|]. split; [done|]. split; [by apply Hgate'|].
        exists (evQ ++ checkInCall checkIn ++ evR ++ [post]),
          [RecordProcessedAtMessage pm], oid, ty, text, pic.
        split.
        { rewrite Ha. cbn [dailyMarkCall]. by rewrite <- !app_assoc. }
        rewrite !elem_of_app, list_elem_of_singleton. auto 10.
      * by apply elem_of_rollbackCall in Hin as (? & _ & _ & ?).
    + intros a Hin.
      apply elem_of_posting_run in Hin
        as [Hin|[(a' & n' & record' & _ & [=])|[Hin|Hin]]];
        [done|done| |done|done].
      destruct Htail as [(_ & pm & ->)|(Hcode & ->)].
      * apply elem_of_app in Hin as [Hin|Hin%list_elem_of_singleton]; [|done].
        by apply elem_of_dailyMarkCall in Hin as (? & _ & ?).
      * apply elem_of_rollbackCall in Hin as (a' & -> & Ha & [= <-]).
        split; [by apply Hfetched|]. split; [done|].
        destruct checkIn as [[[a1 n1] record1]|];
          [|by specialize (Hnone eq_refl)].
        destruct (Hsome _ _ _ eq_refl) as (Ha1 & _).
        rewrite Ha in Ha1. injection Ha1 as <-.
        exists (evQ ++ checkInCall (Some (a, n1, record1)) ++ evR ++ [post]),
          [], oid, ty, text, pic, n1, record1.
        split.
        { rewrite Ha. cbn [rollbackCall]. by rewrite <- !app_assoc. }
        split.
        { rewrite !elem_of_app, list_elem_of_singleton. auto 10. }
        rewrite !elem_of_app. right; left.
        by apply list_elem_of_singleton.
Qed.

End ProtocolConsequences.

(** ** The paths of [processAtMessage] that end without a post *)

Section Paths.

(** X21. A notification whose link holds no dynamic id is put into the
    ledger at once, with one of three sentinels in the place of the id:
    the run makes no call to a remote service, changes no other key, and
    the notification is not looked at again. *)
Theorem unresolved_link_is_processed cfg remote atMessage sentinel w :
  resolveUri (uri (item atMessage)) = Unresolved sentinel →
  sentinel ∈ sentinels
  ∧ ∃ w',
      let pm := ledgerRecord atMessage sentinel (clockNow remote) in
      processAtMessage cfg remote atMessage w = (Ok tt, w')
      ∧ afterCalls w w' [RecordProcessedAtMessage pm]
      ∧ getProcessedAtMessage (at_id atMessage) (db w') = (Ok (Some pm), db w')
      ∧ ∀ key, key ≠ processedKey (at_id atMessage) →
               db w' !! key = db w !! key.
Proof.
  intros Hresolve. split.
  - unfold resolveUri in Hresolve. unfold sentinels.
    repeat case_match; simplify_eq; set_solver.
  - unfold processAtMessage, try_catch. rewrite Hresolve, recordProcessed_run.
    eexists. cbv zeta. split; [reflexivity|]. split; [done|]. cbn [db].
    split.
    + by rewrite getProcessedAtMessage_lookup, lookup_insert_eq.
    + intros key Hkey. by rewrite lookup_insert_ne.
Qed.

Lemma unresolved_link_is_processed_witness :
  resolveUri (uri (item videoMessage)) = Unresolved "invalid_uri"
  ∧ "invalid_uri" ∈ sentinels
  ∧ ∃ w',
      let pm := ledgerRecord videoMessage "invalid_uri" 1738300000000 in
      processAtMessage sampleConfig (sampleRemote onePic (Ok 0%Z))
        videoMessage emptyWorld = (Ok tt, w')
      ∧ afterCalls emptyWorld w' [RecordProcessedAtMessage pm]
      ∧ getProcessedAtMessage 7 (db w') = (Ok (Some pm), db w')
      ∧ ∀ key, key ≠ processedKey 7 → db w' !! key = db emptyWorld !! key.
Proof.
  split; [reflexivity|].
  exact (unresolved_link_is_processed sampleConfig
           (sampleRemote onePic (Ok 0%Z)) videoMessage "invalid_uri"
           emptyWorld eq_refl).
Defined.

(** [processAtMessage] on a notification whose dynamic has been fetched
    and is not stale: the rest of the run is
    [checkIfUserCommentedAndPost]. *)
Lemma processAtMessage_fetched cfg remote atMessage dynamicId dd w w1 :
  resolveUri (uri (item atMessage)) = Resolved dynamicId →
  fetchDynamicData remote (uri (item atMessage)) dynamicId w
  = (Ok (Some dd), w1) →
  processAtMessage cfg remote atMessage w
  = if isStale remote dd
    then recordProcessed atMessage dynamicId (clockNow remote) w1
    else
      match checkIfUserCommentedAndPost cfg remote
              (commentTypeOf atMessage dynamicId dd)
              (commentRidOf atMessage dynamicId dd)
              (dynamicCardOf atMessage dynamicId dd) (Some dd) w1 with
      | (Ok true, w2) => recordProcessed atMessage dynamicId (clockNow remote) w2
      | (Ok false, w2) => (Ok tt, w2)
      | (Throw _, w2) => (Ok tt, w2)
      end.
Proof.
  intros Hresolve Hfetch.
  unfold processAtMessage. rewrite Hresolve.
  unfold try_catch at 1. unfold bind at 1. rewrite Hfetch.
  destruct (isStale remote dd).
  - by rewrite recordProcessed_run.
  - cbv zeta. unfold bind at 1.
    fold (commentTypeOf atMessage dynamicId dd).
    fold (commentRidOf atMessage dynamicId dd).
    destruct (checkIfUserCommentedAndPost _ _ _ _ _ _ _) as [[[]|e] w2];
      [by rewrite recordProcessed_run|done|done].
Qed.

(** The cases in which [checkIfUserCommentedAndPost] decides without
    [postComment]. *)
Lemma checkIf_gate_closed cfg remote ty rid card dd a w :
  extractAuthorId dd = Some a →
  is_Some (db w !! dailyKey a (clockToday remote)) →
  checkIfUserCommentedAndPost cfg remote ty rid card (Some dd) w = (Ok true, w).
Proof.
  intros Ha Hmark. unfold checkIfUserCommentedAndPost.
  destruct (length (checkImagesInDynamicCard card) =? 0)%nat; [done|].
  rewrite truthyStr_extractAuthorId. cbn [mbind option_bind]. rewrite Ha.
  unfold bind at 1. unfold liftDB. rewrite hasUserCommentedToday_lookup.
  rewrite bool_decide_eq_true_2 by done. by destruct w.
Qed.

Lemma checkIf_gate_open cfg remote ty rid card dd w :
  checkImagesInDynamicCard card ≠ [] →
  gateOpen remote dd (db w) →
  checkIfUserCommentedAndPost cfg remote ty rid card (Some dd) w
  = let w1 := {| db := db w; calls := calls w ++ [GetComments rid ty];
                 isProcessing := isProcessing w |} in
    match commentReplies remote with
    | Throw _ => (Ok false, w1)
    | Ok comments =>
        if match comments with
           | Some rs => alreadyCommented (uidToMonitor cfg) rs
           | None => false
           end
        then (Ok true, w1)
        else match postComment cfg remote ty rid card (Some dd) w1 with
             | (Ok b, w2) => (Ok b, w2)
             | (Throw _, w2) => (Ok false, w2)
             end
    end.
Proof.
  intros Himages Hgate. unfold checkIfUserCommentedAndPost.
  destruct (checkImagesInDynamicCard card) as [|image images]; [done|].
  cbn [length Nat.eqb].
  rewrite truthyStr_extractAuthorId. cbn [mbind option_bind].
  unfold bind at 1.
  assert (match extractAuthorId dd with
          | Some a => liftDB (hasUserCommentedToday (clockToday remote) a)
          | None => ret false
          end w = (Ok false, w)) as ->.
  { destruct (extractAuthorId dd) as [a|] eqn:Ha; [|done].
    unfold liftDB. rewrite hasUserCommentedToday_lookup, (Hgate a Ha).
    rewrite bool_decide_eq_false_2 by (by intros [? ?]). by destruct w. }
  unfold try_catch at 1. unfold bind at 1. unfold call at 1.
  unfold bind at 1. unfold answer at 1. cbv zeta.
  destruct (commentReplies remote) as [comments|e]; [|done].
  destruct (match comments with
            | Some rs => alreadyCommented (uidToMonitor cfg) rs
            | None => false
            end); [done|].
  by destruct (postComment _ _ _ _ _ _ _) as [[b|e] w2].
Qed.

Lemma no_mark_or_mark remote dd (db : gmap string value) :
  gateOpen remote dd db
  ∨ ∃ a, extractAuthorId dd = Some a
         ∧ is_Some (db !! dailyKey a (clockToday remote)).
Proof.
  unfold gateOpen. destruct (extractAuthorId dd) as [a|]; [|by left].
  destruct (db !! dailyKey a (clockToday remote)) as [v|] eqn:Hv.
  - right. exists a. rewrite Hv. eauto.
  - left. by intros a' [= <-].
Qed.

(** X22. A notification that the filters stop is processed without a
    post. When the dynamic is older than a day, or its author has the
    mark of the day, or the monitored account has replied in the thread
    already, the run writes the ledger record, changes no other key, and
    calls nothing but queries and the ledger write. *)
Theorem filtered_notification_is_processed cfg remote atMessage dynamicId
    dd w :
  resolveUri (uri (item atMessage)) = Resolved dynamicId →
  fst (fetchDynamicData remote (uri (item atMessage)) dynamicId w)
  = Ok (Some dd) →
  isStale remote dd = true
  ∨ (∃ a, extractAuthorId dd = Some a
          ∧ is_Some (db w !! dailyKey a (clockToday remote)))
  ∨ (∃ rs, commentReplies remote = Ok (Some rs)
           ∧ alreadyCommented (uidToMonitor cfg) rs = true) →
  ∃ w' evs,
    processAtMessage cfg remote atMessage w = (Ok tt, w')
    ∧ afterCalls w w' evs
    ∧ isAtMessageProcessed (at_id atMessage) (db w') = (Ok true, db w')
    ∧ (∀ key, key ≠ processedKey (at_id atMessage) →
              db w' !! key = db w !! key)
    ∧ ∀ c, c ∈ evs → isQuery c = true ∨ isLedgerWrite c = true.
Proof.
  intros Hresolve Hfetch Hfilter.
  destruct (fetchDynamicData_spec remote (uri (item atMessage)) dynamicId w)
    as (fetched & w1 & evs1 & Hrun1 & Hafter1 & Hdb1 & Hevs1).
  rewrite Hrun1 in Hfetch. simpl in Hfetch. injection Hfetch as ->.
  assert (∀ c, c ∈ evs1 → isQuery c = true) as Hq1.
  { intros c Hc. by destruct (Hevs1 _ Hc) as [-> | ->]. }
  (* the run ends in the ledger write, after the queries [evs2] *)
  assert (∃ w2 evs2,
            processAtMessage cfg remote atMessage w
            = recordProcessed atMessage dynamicId (clockNow remote) w2
            ∧ afterCalls w1 w2 evs2 ∧ db w2 = db w1
            ∧ ∀ c, c ∈ evs2 → isQuery c = true)
    as (w2 & evs2 & Hrun & Hafter2 & Hdb2 & Hq2).
  { rewrite (processAtMessage_fetched _ _ _ _ _ _ _ Hresolve Hrun1).
    destruct (isStale remote dd) eqn:Hstale.
    { exists w1, []. split; [done|]. split; [apply afterCalls_refl|].
      split; [done|]. by intros c ?%elem_of_nil. }
    set (card := dynamicCardOf atMessage dynamicId dd).
    destruct (checkImagesInDynamicCard card) as [|image images] eqn:Himages.
    { destruct (checkIfUserCommentedAndPost_spec cfg remote
                  (commentTypeOf atMessage dynamicId dd)
                  (commentRidOf atMessage dynamicId dd) card (Some dd) w1)
        as (b & w2 & evs2 & Hrun2 & _ & _ & _ & _ & Hempty).
      destruct (Hempty Himages) as [-> ->]. rewrite Hrun2.
      exists w1, []. split; [done|]. split; [apply afterCalls_refl|].
      split; [done|]. by intros c ?%elem_of_nil. }
    destruct (no_mark_or_mark remote dd (db w1)) as [Hopen|(a & Ha & Hmark)].
    2:{ rewrite (checkIf_gate_closed _ _ _ _ _ _ _ _ Ha Hmark).
        exists w1, []. split; [done|]. split; [apply afterCalls_refl|].
        split; [done|]. by intros c ?%elem_of_nil. }
    destruct Hfilter as [?|[(a & Ha & Hmark)|(rs & Hrs & Halready)]]; [done| |].
    { rewrite <- Hdb1 in Hmark. rewrite (Hopen a Ha) in Hmark.
      by destruct Hmark. }
    rewrite checkIf_gate_open by (by rewrite ?Himages). cbv zeta.
    rewrite Hrs, Halready.
    eexists _, [_]. split; [done|]. split; [done|]. split; [done|].
    by intros c ->%list_elem_of_singleton. }
  rewrite Hrun, recordProcessed_run. cbv zeta.
  eexists _, (evs1 ++ evs2 ++ [_]). split; [done|].
  split.
  { eapply afterCalls_trans; [done|].
    eapply afterCalls_trans; [done|]. done. }
  cbn [db]. split; [|split].
  - rewrite isAtMessageProcessed_lookup, lookup_insert_eq.
    by rewrite bool_decide_eq_true_2 by eauto.
  - intros key Hkey. rewrite lookup_insert_ne by done. by rewrite Hdb2, Hdb1.
  - intros c [Hc|[Hc|Hc%list_elem_of_singleton]%elem_of_app]%elem_of_app;
      [left; auto|left; auto|right; by subst c].
Qed.

End Paths.

Section Paths2.

Lemma filtered_notification_is_processed_witness :
  let remote := sampleRemote onePic (Ok 0%Z) in
  resolveUri (uri (item sampleMessage)) = Resolved "9"
  ∧ fst (fetchDynamicData remote (uri (item sampleMessage)) "9" markedWorld)
    = Ok (Some (sampleData onePic))
  ∧ (isStale remote (sampleData onePic) = true
     ∨ (∃ a, extractAuthorId (sampleData onePic) = Some a
             ∧ is_Some (db markedWorld !! dailyKey a (clockToday remote)))
     ∨ (∃ rs, commentReplies remote = Ok (Some rs)
              ∧ alreadyCommented (uidToMonitor sampleConfig) rs = true))
  ∧ ∃ w' evs,
      processAtMessage sampleConfig remote sampleMessage markedWorld
      = (Ok tt, w')
      ∧ afterCalls markedWorld w' evs
      ∧ isAtMessageProcessed 42 (db w') = (Ok true, db w')
      ∧ (∀ key, key ≠ processedKey 42 → db w' !! key = db markedWorld !! key)
      ∧ ∀ c, c ∈ evs → isQuery c = true ∨ isLedgerWrite c = true.
Proof.
  intros remote.
  assert (resolveUri (uri (item sampleMessage)) = Resolved "9") as H1
    by (vm_compute; reflexivity).
  assert (fst (fetchDynamicData remote (uri (item sampleMessage)) "9"
                 markedWorld) = Ok (Some (sampleData onePic))) as H2
    by (vm_compute; reflexivity).
  assert (isStale remote (sampleData onePic) = true
          ∨ (∃ a, extractAuthorId (sampleData onePic) = Some a
                  ∧ is_Some (db markedWorld !! dailyKey a (clockToday remote)))
          ∨ (∃ rs, commentReplies remote = Ok (Some rs)
                   ∧ alreadyCommented (uidToMonitor sampleConfig) rs = true))
    as H3.
  { right; left. exists "1001". split; [by vm_compute|].
    vm_compute. eauto. }
  split; [exact H1|]. split; [exact H2|]. split; [exact H3|].
  exact (filtered_notification_is_processed sampleConfig remote sampleMessage
           "9" (sampleData onePic) markedWorld H1 H2 H3).
Defined.

(** X23. When no detail of the dynamic can be fetched (both requests
    fail or answer nothing), the run gives up without a trace in the
    store: no key is written, the ledger included, so the notification is
    taken up again by the next cycle. The only calls are the detail
    requests. *)
Theorem unavailable_detail_leaves_unprocessed cfg remote atMessage dynamicId w :
  resolveUri (uri (item atMessage)) = Resolved dynamicId →
  fst (fetchDynamicData remote (uri (item atMessage)) dynamicId w) = Ok None →
  ∃ w' evs,
    processAtMessage cfg remote atMessage w = (Ok tt, w')
    ∧ afterCalls w w' evs
    ∧ db w' = db w
    ∧ ∀ c, c ∈ evs →
           c = GetOpusDetail dynamicId ∨ c = GetDynamicDetails dynamicId.
Proof.
  intros Hresolve Hfetch.
  destruct (fetchDynamicData_spec remote (uri (item atMessage)) dynamicId w)
    as (fetched & w1 & evs1 & Hrun1 & Hafter1 & Hdb1 & Hevs1).
  rewrite Hrun1 in Hfetch. simpl in Hfetch. injection Hfetch as ->.
  exists w1, evs1. split; [|done].
  unfold processAtMessage. rewrite Hresolve.
  unfold try_catch at 1. unfold bind at 1. by rewrite Hrun1.
Qed.

Lemma unavailable_detail_leaves_unprocessed_witness :
  resolveUri (uri (item sampleMessage)) = Resolved "9"
  ∧ fst (fetchDynamicData noDetailRemote (uri (item sampleMessage)) "9"
           emptyWorld) = Ok None
  ∧ ∃ w' evs,
      processAtMessage sampleConfig noDetailRemote sampleMessage emptyWorld
      = (Ok tt, w')
      ∧ afterCalls emptyWorld w' evs
      ∧ db w' = db emptyWorld
      ∧ ∀ c, c ∈ evs → c = GetOpusDetail "9" ∨ c = GetDynamicDetails "9".
Proof.
  assert (resolveUri (uri (item sampleMessage)) = Resolved "9") as H1
    by (vm_compute; reflexivity).
  assert (fst (fetchDynamicData noDetailRemote (uri (item sampleMessage)) "9"
                 emptyWorld) = Ok None) as H2
    by (vm_compute; reflexivity).
  split; [exact H1|]. split; [exact H2|].
  exact (unavailable_detail_leaves_unprocessed sampleConfig noDetailRemote
           sampleMessage "9" emptyWorld H1 H2).
Defined.

Lemma postComment_no_csrf cfg remote ty rid card dd w e :
  getCsrfToken (cookie cfg) = Throw e →
  postComment cfg remote ty rid card dd w = (Ok false, w).
Proof.
  intros Hcsrf. unfold postComment, withLocals.
  unfold try_catch at 1. unfold bind at 1. unfold answer at 1.
  rewrite Hcsrf. unfold bind at 1.
  destruct (rollbackIfSaved_trace w None false eq_refl)
    as (w' & Hrun & Hafter & Hdb).
  rewrite Hrun. unfold ret. f_equal. by apply afterCalls_nil.
Qed.

Lemma postComment_analysis_fails cfg remote ty rid card dd w e :
  enableCloudAnalysis cfg = true → analysisResult remote = Throw e →
  ∃ w' evs,
    postComment cfg remote ty rid card dd w = (Ok false, w')
    ∧ afterCalls w w' evs ∧ db w' = db w
    ∧ ∀ c, c ∈ evs → isQuery c = true.
Proof.
  intros Henabled Hanalysis.
  destruct (getCsrfToken (cookie cfg)) as [csrf|e'] eqn:Hcsrf.
  2:{ rewrite (postComment_no_csrf _ _ _ _ _ _ _ _ Hcsrf).
      exists w, []. split; [done|]. split; [apply afterCalls_refl|].
      split; [done|]. by intros c ?%elem_of_nil. }
  unfold postComment, withLocals.
  unfold try_catch at 1. unfold bind at 1. unfold answer at 1.
  rewrite Hcsrf.
  unfold bind at 1. unfold setAuthorId at 1. cbn [recordSaved].
  unfold bind at 1. unfold analyseClouds. rewrite Henabled.
  destruct (0 <? length (checkImagesInDynamicCard card))%nat.
  2:{ unfold ret. exists w, []. split; [done|]. split; [apply afterCalls_refl|].
      split; [done|]. by intros c ?%elem_of_nil. }
  unfold try_catch, bind, ret. unfold_world. simpl. rewrite Hanalysis.
  eexists _, [_]. split; [done|]. split; [done|]. split; [done|].
  by intros c ->%list_elem_of_singleton.
Qed.

(** X24. A failure before the post leaves no trace in the store. When
    the dynamic has passed the filters (it is fresh, has an image, its
    author has no mark of the day), and then the comment list cannot be
    read, or the cookie holds no CSRF token, or the cloud analysis fails,
    no key is written, the ledger included, and every call of the run is
    a query: the notification is taken up again by the next cycle. *)
Theorem failure_before_post_leaves_unprocessed cfg remote atMessage
    dynamicId dd w :
  resolveUri (uri (item atMessage)) = Resolved dynamicId →
  fst (fetchDynamicData remote (uri (item atMessage)) dynamicId w)
  = Ok (Some dd) →
  isStale remote dd = false →
  checkImagesInDynamicCard (dynamicCardOf atMessage dynamicId dd) ≠ [] →
  gateOpen remote dd (db w) →
  (∃ e, commentReplies remote = Throw e)
  ∨ (notYetReplied cfg remote
     ∧ ((∃ e, getCsrfToken (cookie cfg) = Throw e)
        ∨ (enableCloudAnalysis cfg = true
           ∧ ∃ e, analysisResult remote = Throw e))) →
  ∃ w' evs,
    processAtMessage cfg remote atMessage w = (Ok tt, w')
    ∧ afterCalls w w' evs
    ∧ db w' = db w
    ∧ ∀ c, c ∈ evs → isQuery c = true.
Proof.
  intros Hresolve Hfetch Hfresh Himages Hgate Hfail.
  destruct (fetchDynamicData_spec remote (uri (item atMessage)) dynamicId w)
    as (fetched & w1 & evs1 & Hrun1 & Hafter1 & Hdb1 & Hevs1).
  rewrite Hrun1 in Hfetch. simpl in Hfetch. injection Hfetch as ->.
  assert (∀ c, c ∈ evs1 → isQuery c = true) as Hq1.
  { intros c Hc. by destruct (Hevs1 _ Hc) as [-> | ->]. }
  rewrite (processAtMessage_fetched _ _ _ _ _ _ _ Hresolve Hrun1), Hfresh.
  rewrite <- Hdb1 in Hgate.
  rewrite (checkIf_gate_open _ _ _ _ _ _ _ Himages Hgate). cbv zeta.
  set (w2 := mkWorld (db w1) (calls w1 ++ [GetComments _ _]) (isProcessing w1)).
  assert (afterCalls w w2 (evs1 ++ [GetComments
            (commentRidOf atMessage dynamicId dd)
            (commentTypeOf atMessage dynamicId dd)])) as Hafter2.
  { eapply afterCalls_trans; [done|]. done. }
  assert (∀ c, c ∈ evs1 ++ [GetComments
            (commentRidOf atMessage dynamicId dd)
            (commentTypeOf atMessage dynamicId dd)] → isQuery c = true) as Hq2.
  { intros c [Hc|Hc%list_elem_of_singleton]%elem_of_app; [auto|by subst c]. }
  destruct Hfail as [[e He]|[Hnot Hfail]].
  { rewrite He. eexists w2, _. split; [done|]. split; [exact Hafter2|].
    split; [done|]. done. }
  unfold notYetReplied in Hnot.
  destruct (commentReplies remote) as [comments|e]; [|done].
  assert (match comments with
          | Some rs => alreadyCommented (uidToMonitor cfg) rs
          | None => false
          end = false) as ->.
  { by destruct comments. }
  destruct Hfail as [[e He]|[Henabled [e He]]].
  - rewrite (postComment_no_csrf _ _ _ _ _ _ _ _ He).
    eexists w2, _. split; [done|]. split; [exact Hafter2|]. done.
  - destruct (postComment_analysis_fails cfg remote
                (commentTypeOf atMessage dynamicId dd)
                (commentRidOf atMessage dynamicId dd)
                (dynamicCardOf atMessage dynamicId dd) (Some dd) w2 e
                Henabled He)
      as (w3 & evs3 & Hrun3 & Hafter3 & Hdb3 & Hq3).
    rewrite Hrun3. eexists w3, _. split; [done|].
    split; [by eapply afterCalls_trans|].
    split; [by rewrite Hdb3|].
    intros c [Hc|Hc]%elem_of_app; auto.
Qed.

Lemma failure_before_post_leaves_unprocessed_witness :
  let remote := sampleRemote onePic (Ok 0%Z) in
  let dd := sampleData onePic in
  resolveUri (uri (item sampleMessage)) = Resolved "9"
  ∧ fst (fetchDynamicData remote (uri (item sampleMessage)) "9" emptyWorld)
    = Ok (Some dd)
  ∧ isStale remote dd = false
  ∧ checkImagesInDynamicCard (dynamicCardOf sampleMessage "9" dd) ≠ []
  ∧ gateOpen remote dd (db emptyWorld)
  ∧ ((∃ e, commentReplies remote = Throw e)
     ∨ (notYetReplied noCsrfConfig remote
        ∧ ((∃ e, getCsrfToken (cookie noCsrfConfig) = Throw e)
           ∨ (enableCloudAnalysis noCsrfConfig = true
              ∧ ∃ e, analysisResult remote = Throw e))))
  ∧ ∃ w' evs,
      processAtMessage noCsrfConfig remote sampleMessage emptyWorld
      = (Ok tt, w')
      ∧ afterCalls emptyWorld w' evs
      ∧ db w' = db emptyWorld
      ∧ ∀ c, c ∈ evs → isQuery c = true.
Proof.
  intros remote dd.
  assert (resolveUri (uri (item sampleMessage)) = Resolved "9") as H1
    by (vm_compute; reflexivity).
  assert (fst (fetchDynamicData remote (uri (item sampleMessage)) "9"
                 emptyWorld) = Ok (Some dd)) as H2
    by (vm_compute; reflexivity).
  assert (isStale remote dd = false) as H3 by (vm_compute; reflexivity).
  assert (checkImagesInDynamicCard (dynamicCardOf sampleMessage "9" dd) ≠ [])
    as H4 by (vm_compute; discriminate).
  assert (gateOpen remote dd (db emptyWorld)) as H5.
  { intros a _. reflexivity. }
  assert ((∃ e, commentReplies remote = Throw e)
          ∨ (notYetReplied noCsrfConfig remote
             ∧ ((∃ e, getCsrfToken (cookie noCsrfConfig) = Throw e)
                ∨ (enableCloudAnalysis noCsrfConfig = true
                   ∧ ∃ e, analysisResult remote = Throw e)))) as H6.
  { right. split; [reflexivity|]. left. eexists. reflexivity. }
  split; [exact H1|]. split; [exact H2|]. split; [exact H3|].
  split; [exact H4|]. split; [exact H5|]. split; [exact H6|].
  exact (failure_before_post_leaves_unprocessed noCsrfConfig remote
           sampleMessage "9" dd emptyWorld H1 H2 H3 H4 H5 H6).
Defined.

End Paths2.

(** ** The cycle *)

Section CycleExtras.

Lemma handleAtMessage_step cfg counts entry w :
  ∃ counts' w' evs,
    handleAtMessage cfg counts entry w = (Ok counts', w')
    ∧ afterCalls w w' evs
    ∧ (counts'.1 + counts'.2 = S (counts.1 + counts.2))%nat
    ∧ (∀ n, is_Some (db w !! processedKey n) →
            db w' !! processedKey n = db w !! processedKey n)
    ∧ (is_Some (db w !! processedKey (at_id entry.1)) →
       w' = w ∧ counts' = (counts.1, S counts.2)).
Proof.
  destruct entry as [atMessage remote].
  destruct (db w !! processedKey (at_id atMessage)) as [v|] eqn:Hledger.
  - rewrite handleAtMessage_skip by (by rewrite Hledger).
    eexists _, w, []. split; [done|]. split; [apply afterCalls_refl|].
    simpl. split; [lia|]. done.
  - rewrite handleAtMessage_fresh by done.
    destruct (processAtMessage_spec cfg remote atMessage w)
      as (w' & evs & Hrun & Hafter & Hothers & _ & _).
    rewrite Hrun. eexists _, w', evs. split; [done|]. split; [done|].
    simpl. split; [lia|]. split.
    + intros n Hn. apply Hothers. intros ->. rewrite Hledger in Hn.
      by destruct Hn.
    + rewrite Hledger. by intros [? ?].
Qed.

Lemma handleAtMessages_steps cfg entries : ∀ counts w,
  ∃ counts' w' evs,
    handleAtMessages cfg counts entries w = (Ok counts', w')
    ∧ afterCalls w w' evs
    ∧ (counts'.1 + counts'.2 = counts.1 + counts.2 + length entries)%nat
    ∧ (∀ n, is_Some (db w !! processedKey n) →
            db w' !! processedKey n = db w !! processedKey n)
    ∧ ((∀ entry, entry ∈ entries →
                 is_Some (db w !! processedKey (at_id entry.1))) →
       w' = w ∧ counts' = (counts.1, (counts.2 + length entries)%nat)).
Proof.
  induction entries as [|entry entries IH]; intros counts w.
  { exists counts, w, []. split; [done|]. split; [apply afterCalls_refl|].
    simpl. split; [lia|]. split; [done|]. intros _. split; [done|].
    destruct counts. simpl. f_equal. lia. }
  simpl. unfold bind.
  destruct (handleAtMessage_step cfg counts entry w)
    as (counts1 & w1 & evs1 & Hrun1 & Hafter1 & Hsum1 & Hledger1 & Hskip1).
  rewrite Hrun1.
  destruct (IH counts1 w1)
    as (counts2 & w2 & evs2 & Hrun2 & Hafter2 & Hsum2 & Hledger2 & Hskip2).
  rewrite Hrun2. exists counts2, w2, (evs1 ++ evs2).
  split; [done|]. split; [by eapply afterCalls_trans|].
  split; [lia|]. split.
  - intros n Hn. rewrite Hledger2, Hledger1; [done|done|].
    by rewrite Hledger1.
  - intros Hall.
    destruct (Hskip1 (Hall entry ltac:(by left))) as [-> ->].
    destruct Hskip2 as [-> ->].
    { intros entry' Hin. apply Hall. by right. }
    split; [done|]. simpl. f_equal. lia.
Qed.

(** X25. A cycle never rejects and leaves the flag [isProcessing] as it
    found it. A cycle that starts while the flag is up does nothing at
    all. A ledger record that exists when the cycle starts is there,
    unchanged, when it ends. When the loop has run, the two counters of
    the closing log line add up to the length of the feed. *)
Theorem checkAndComment_total cfg feed w :
  ∃ r w',
    checkAndComment cfg feed w = (Ok r, w')
    ∧ isProcessing w' = isProcessing w
    ∧ (isProcessing w = true → r = None ∧ w' = w)
    ∧ (∀ n, is_Some (db w !! processedKey n) →
            db w' !! processedKey n = db w !! processedKey n)
    ∧ ∀ entries processedCount skippedCount,
        feed = Ok (Some entries) → r = Some (processedCount, skippedCount) →
        (processedCount + skippedCount = length entries)%nat.
Proof.
  unfold checkAndComment.
  destruct (isProcessing w) eqn:Hflag.
  { exists None, w. split; [done|]. split; [done|]. split; [done|].
    split; [done|]. done. }
  unfold bind at 1. unfold setProcessing at 1.
  set (w0 := mkWorld (db w) (calls w) true).
  unfold try_finally, try_catch. unfold bind at 1. unfold call at 1.
  set (w1 := mkWorld (db w0) (calls w0 ++ [GetAtFeed]) (isProcessing w0)).
  unfold bind at 1. unfold answer at 1.
  destruct feed as [[entries|]|e].
  2,3: by (eexists None, _; split; [done|]; split; [done|]; split; [done|];
           split; [done|]).
  destruct entries as [|entry entries].
  { eexists None, _. split; [done|]. split; [done|]. split; [done|].
    split; [done|]. done. }
  unfold bind at 1.
  destruct (handleAtMessages_steps cfg (entry :: entries) (0, 0)%nat w1)
    as (counts & w2 & evs & Hrun & Hafter & Hsum & Hledger & _).
  rewrite Hrun. unfold ret, setProcessing.
  eexists (Some counts), _. split; [done|]. split; [done|]. split; [done|].
  split; [exact Hledger|].
  intros entries' p s [= <-] [= ->]. simpl in Hsum. simpl. lia.
Qed.

(** X26. A cycle whose feed request fails, or answers nothing, or
    answers only notifications that the ledger holds already, writes
    nothing to the store and calls no remote service besides the feed
    request. *)
Theorem cycle_without_news_is_idle cfg feed w :
  isProcessing w = false →
  (∀ entries entry, feed = Ok (Some entries) → entry ∈ entries →
     is_Some (db w !! processedKey (at_id entry.1))) →
  ∃ r,
    checkAndComment cfg feed w
    = (Ok r, {| db := db w; calls := calls w ++ [GetAtFeed];
                isProcessing := false |}).
Proof.
  intros Hflag Hknown. unfold checkAndComment. rewrite Hflag.
  unfold bind at 1. unfold setProcessing at 1.
  set (w0 := mkWorld (db w) (calls w) true).
  unfold try_finally, try_catch. unfold bind at 1. unfold call at 1.
  set (w1 := mkWorld (db w0) (calls w0 ++ [GetAtFeed]) (isProcessing w0)).
  unfold bind at 1. unfold answer at 1.
  destruct feed as [[entries|]|e]; [|by eexists..].
  destruct entries as [|entry entries]; [by eexists|].
  unfold bind at 1.
  destruct (handleAtMessages_steps cfg (entry :: entries) (0, 0)%nat w1)
    as (counts & w2 & evs & Hrun & _ & _ & _ & Hskip).
  rewrite Hrun. destruct Hskip as [-> ->].
  { intros entry' Hin. by apply (Hknown (entry :: entries)). }
  by eexists.
Qed.

Lemma cycle_without_news_is_idle_witness :
  let feed := Ok (Some [(sampleMessage, sampleRemote onePic (Ok 0%Z))]) in
  isProcessing processedWorld = false
  ∧ (∀ entries entry, feed = Ok (Some entries) → entry ∈ entries →
       is_Some (db processedWorld !! processedKey (at_id entry.1)))
  ∧ ∃ r,
      checkAndComment sampleConfig feed processedWorld
      = (Ok r, {| db := db processedWorld;
                  calls := calls processedWorld ++ [GetAtFeed];
                  isProcessing := false |}).
Proof.
  intros feed.
  assert (∀ entries entry, feed = Ok (Some entries) → entry ∈ entries →
            is_Some (db processedWorld !! processedKey (at_id entry.1)))
    as Hknown.
  { intros entries entry [= <-] ->%list_elem_of_singleton. vm_compute. eauto. }
  split; [reflexivity|]. split; [exact Hknown|].
  exact (cycle_without_news_is_idle sampleConfig feed processedWorld eq_refl
           Hknown).
Defined.

End CycleExtras.

(** ** The ranking of the users *)

Section Ranking.

Lemma slice_to_take {A} (limit : Z) (arr : list A) :
  ∃ n, Js.slice_to limit arr = take n arr.
Proof. unfold Js.slice_to. by eexists. Qed.

Lemma slice_to_nonneg {A} (limit : Z) (arr : list A) :
  (0 ≤ limit)%Z → Js.slice_to limit arr = take (Z.to_nat limit) arr.
Proof.
  intros Hlimit. unfold Js.slice_to.
  destruct (Z.ltb_spec limit 0); [lia|].
  destruct (Z.min_spec limit (Z.of_nat (length arr))) as [[_ ->]|[? ->]];
    [done|].
  rewrite Nat2Z.id, firstn_all. symmetry. apply take_ge. lia.
Qed.

Lemma sort_insert_Permutation {A} (compare : A → A → Z) x l :
  Js.sort_insert compare x l ≡ₚ x :: l.
Proof.
  induction l as [|y l IH]; simpl; [done|].
  destruct (compare x y <=? 0)%Z; [done|].
  by rewrite IH, Permutation_swap.
Qed.

Lemma sort_Permutation {A} (compare : A → A → Z) (l : list A) :
  Js.sort compare l ≡ₚ l.
Proof.
  unfold Js.sort. induction l as [|x l IH]; simpl; [done|].
  by rewrite sort_insert_Permutation, IH.
Qed.

Lemma sort_insert_ranked x l :
  StronglySorted rankedBefore l →
  StronglySorted rankedBefore
    (Js.sort_insert (λ a b, (rank_checkIns b - rank_checkIns a)%Z) x l).
Proof.
  induction 1 as [|y l Hsorted IH Hy]; simpl.
  { repeat constructor. }
  destruct (Z.leb_spec (rank_checkIns y - rank_checkIns x) 0) as [Hle|Hgt].
  - constructor; [by constructor|].
    constructor; [unfold rankedBefore; lia|].
    eapply Forall_impl; [exact Hy|]. unfold rankedBefore. intros z. lia.
  - constructor; [done|].
    rewrite sort_insert_Permutation. constructor; [|done].
    unfold rankedBefore. lia.
Qed.

Lemma sort_ranked l :
  StronglySorted rankedBefore
    (Js.sort (λ a b, (rank_checkIns b - rank_checkIns a)%Z) l).
Proof.
  unfold Js.sort. induction l as [|x l IH]; simpl; [constructor|].
  by apply sort_insert_ranked.
Qed.

Lemma insertByKey_Permutation entry l : insertByKey entry l ≡ₚ entry :: l.
Proof.
  induction l as [|e l IH]; simpl; [done|].
  destruct (String.leb entry.1 e.1); [done|].
  by rewrite IH, Permutation_swap.
Qed.

Lemma level_iterator_run (db : gmap string value) :
  ∃ entries,
    level_iterator db = (Ok entries, db) ∧ entries ≡ₚ map_to_list db.
Proof.
  unfold level_iterator. eexists. split; [reflexivity|].
  induction (map_to_list db) as [|entry l IH]; simpl; [done|].
  by rewrite insertByKey_Permutation, IH.
Qed.

Lemma remove_first_prefix needle s :
  Js.remove_first needle (needle +:+ s) = s.
Proof.
  destruct needle as [|c needle]; [by destruct s|].
  rewrite string_app_cons. cbn [Js.remove_first].
  rewrite <- string_app_cons, prefix_app.
  induction (String c needle) as [|a lit IH]; [done|].
  by rewrite string_app_cons.
Qed.

Lemma user_key_split key :
  String.prefix "user:" key = true →
  key = userKey (Js.remove_first "user:" key).
Proof.
  intros Hp. apply prefix_split in Hp. rewrite Hp at 2.
  rewrite remove_first_prefix. exact Hp.
Qed.

Lemma userKey_prefix u : String.prefix "user:" (userKey u) = true.
Proof. apply prefix_app. Qed.

Lemma userKey_remove_first u : Js.remove_first "user:" (userKey u) = u.
Proof. apply remove_first_prefix. Qed.

Lemma collectUsers_cons key v rest users :
  collectUsers ((key, v) :: rest) users
  = if String.prefix "user:" key then
      match v with
      | VUser s =>
          collectUsers rest
            (users ++ [rankingEntry (Js.remove_first "user:" key) s])
      | _ => Throw TypeError
      end
    else collectUsers rest users.
Proof. reflexivity. Qed.

Lemma omap_cons {A B} (f : A → option B) x l :
  omap f (x :: l) = match f x with
                    | Some y => y :: omap f l
                    | None => omap f l
                    end.
Proof. reflexivity. Qed.

(** The loop: what it pushes, and when it throws. *)
Lemma collectUsers_Ok entries : ∀ users users',
  collectUsers entries users = Ok users' →
  users' = users ++ omap userEntry entries
  ∧ ∀ key v, (key, v) ∈ entries → String.prefix "user:" key = true →
             ∃ s, v = VUser s.
Proof.
  induction entries as [|[key v] entries IH]; intros users users'.
  { intros [= <-]. rewrite app_nil_r. split; [done|].
    by intros key v ?%elem_of_nil. }
  rewrite collectUsers_cons, omap_cons. unfold userEntry at 1.
  destruct (String.prefix "user:" key) eqn:Hp.
  - destruct v as [d|m|s|r]; try done.
    intros [-> Hshape]%IH. split; [by rewrite <- app_assoc|].
    intros key' v' [[= -> ->]|Hin]%elem_of_cons Hp'; [by eexists|].
    by eapply Hshape.
  - intros [-> Hshape]%IH. split; [by destruct v|].
    intros key' v' [[= -> ->]|Hin]%elem_of_cons Hp'; [congruence|].
    by eapply Hshape.
Qed.

Lemma collectUsers_readable entries : ∀ users,
  (∀ key v, (key, v) ∈ entries → String.prefix "user:" key = true →
            ∃ s, v = VUser s) →
  ∃ users', collectUsers entries users = Ok users'.
Proof.
  induction entries as [|[key v] entries IH]; intros users Hshape.
  { by eexists. }
  rewrite collectUsers_cons.
  destruct (String.prefix "user:" key) eqn:Hp.
  - destruct (Hshape key v ltac:(by left) Hp) as [s ->].
    apply IH. intros key' v' Hin. apply Hshape. by right.
  - apply IH. intros key' v' Hin. apply Hshape. by right.
Qed.

(** The users of a ranking before it is sorted and cut. *)
Lemma getActiveUsersRanking_run limit (db : gmap string value) :
  (getActiveUsersRanking limit db = (Ok [], db) ∧ ¬ usersReadable db)
  ∨ ∃ users,
      getActiveUsersRanking limit db
      = (Ok (Js.slice_to limit
               (Js.sort (λ a b, (rank_checkIns b - rank_checkIns a)%Z) users)),
         db)
      ∧ usersReadable db
      ∧ ∀ e, e ∈ users ↔
             ∃ u s, db !! userKey u = Some (VUser s) ∧ e = rankingEntry u s.
Proof.
  unfold getActiveUsersRanking, try_catch, bind, ret.
  destruct (level_iterator_run db) as (entries & -> & Hperm).
  assert (∀ key v, (key, v) ∈ entries ↔ db !! key = Some v) as Hentries.
  { intros key v. rewrite Hperm. apply elem_of_map_to_list. }
  destruct (collectUsers entries []) as [users|e] eqn:Hloop.
  - right. exists users. split; [done|].
    apply collectUsers_Ok in Hloop as [-> Hshape].
    split.
    { intros key v Hv. apply Hshape. by apply Hentries. }
    intros e. rewrite app_nil_l, list_elem_of_omap. split.
    + intros ([key v] & Hin & He). unfold userEntry in He.
      destruct v as [d|m|s|r]; try done.
      destruct (String.prefix "user:" key) eqn:Hp; [|done].
      injection He as <-. exists (Js.remove_first "user:" key), s.
      split; [|done]. rewrite <- user_key_split by done. by apply Hentries.
    + intros (u & s & Hs & ->). exists (userKey u, VUser s).
      split; [by apply Hentries|]. unfold userEntry.
      by rewrite userKey_prefix, userKey_remove_first.
  - left. split; [done|]. intros Hreadable.
    destruct (collectUsers_readable entries []) as [users Hok]; [|congruence].
    intros key v Hin. apply Hreadable. by apply Hentries.
Qed.

(** X27. The ranking that [getActiveUsersRanking] answers: the call never
    rejects; for a limit that is not negative the ranking holds at most
    [limit] entries; no entry has more check-ins than one listed before
    it; and every entry is that of a user of the store, with
    [totalCheckIns] and the number of keys of the histogram as they are
    stored. *)
Theorem getActiveUsersRanking_sound limit (db : gmap string value) :
  ∃ ranking,
    getActiveUsersRanking limit db = (Ok ranking, db)
    ∧ ((0 ≤ limit)%Z → (Z.of_nat (length ranking) ≤ limit)%Z)
    ∧ StronglySorted rankedBefore ranking
    ∧ ∀ e, e ∈ ranking →
           ∃ s, db !! userKey (rank_userId e) = Some (VUser s)
                ∧ e = rankingEntry (rank_userId e) s.
Proof.
  destruct (getActiveUsersRanking_run limit db)
    as [[-> _]|(users & -> & _ & Husers)].
  { exists []. split; [done|]. split; [simpl; lia|].
    split; [constructor|]. by intros e ?%elem_of_nil. }
  eexists. split; [reflexivity|].
  set (sorted := Js.sort _ users).
  pose proof (sort_ranked users) as Hsorted. fold sorted in Hsorted.
  assert (∀ e, e ∈ sorted ↔ e ∈ users) as Hsame.
  { intros e. unfold sorted. by rewrite sort_Permutation. }
  split; [|split].
  - intros Hlimit. rewrite slice_to_nonneg, length_take by done. lia.
  - destruct (slice_to_take limit sorted) as [n ->].
    rewrite <- (take_drop n sorted) in Hsorted.
    by apply StronglySorted_app_1_l in Hsorted.
  - intros e Hin. destruct (slice_to_take limit sorted) as [n Hn].
    rewrite Hn in Hin. apply elem_of_take in Hin as (i & Hi & _).
    apply list_elem_of_lookup_2, Hsame, Husers in Hi as (u & s & Hs & ->).
    by exists s.
Qed.

(** X28. On a store whose [user:] keys all hold statistics, the ranking
    leaves out nobody without reason: a user with statistics is listed,
    or the ranking is full ([limit] entries) and every listed user has at
    least as many check-ins. In particular every user is listed when the
    limit is not below the number of entries of the store. *)
Theorem getActiveUsersRanking_complete limit (db : gmap string value) u s :
  usersReadable db → (0 ≤ limit)%Z →
  db !! userKey u = Some (VUser s) →
  ∃ ranking,
    getActiveUsersRanking limit db = (Ok ranking, db)
    ∧ (rankingEntry u s ∈ ranking
       ∨ (Z.of_nat (length ranking) = limit
          ∧ ∀ e, e ∈ ranking → (totalCheckIns s ≤ rank_checkIns e)%Z)).
Proof.
  intros Hreadable Hlimit Hs.
  destruct (getActiveUsersRanking_run limit db)
    as [[_ Hnot]|(users & -> & _ & Husers)]; [done|].
  eexists. split; [reflexivity|].
  set (sorted := Js.sort _ users).
  pose proof (sort_ranked users) as Hsorted. fold sorted in Hsorted.
  assert (rankingEntry u s ∈ sorted) as Hin.
  { unfold sorted. rewrite sort_Permutation. apply Husers. eauto. }
  rewrite slice_to_nonneg by done.
  rewrite <- (take_drop (Z.to_nat limit) sorted) in Hin, Hsorted.
  apply elem_of_app in Hin as [Hin|Hin]; [by left|right].
  split.
  - rewrite length_take.
    assert (Z.to_nat limit < length sorted)%nat; [|lia].
    destruct (decide (Z.to_nat limit < length sorted)%nat); [done|].
    rewrite drop_ge in Hin by lia. by apply elem_of_nil in Hin.
  - intros e He.
    pose proof (StronglySorted_app_1_elem_of _ _ _ _ _ Hsorted He Hin) as Hle.
    exact Hle.
Qed.

Lemma getActiveUsersRanking_complete_witness :
  let db : gmap string value := {[ userKey "U1" := VUser (statsWith 3) ]} in
  usersReadable db ∧ (0 ≤ 10)%Z
  ∧ db !! userKey "U1" = Some (VUser (statsWith 3))
  ∧ ∃ ranking,
      getActiveUsersRanking 10 db = (Ok ranking, db)
      ∧ (rankingEntry "U1" (statsWith 3) ∈ ranking
         ∨ (Z.of_nat (length ranking) = 10%Z
            ∧ ∀ e, e ∈ ranking →
                   (totalCheckIns (statsWith 3) ≤ rank_checkIns e)%Z)).
Proof.
  intros db.
  assert (usersReadable db) as Hreadable.
  { intros key v [<- <-]%lookup_singleton_Some _. by eexists. }
  split; [exact Hreadable|]. split; [lia|]. split; [reflexivity|].
  exact (getActiveUsersRanking_complete 10 db "U1" (statsWith 3) Hreadable
           ltac:(lia) eq_refl).
Defined.

End Ranking.

(** ** The shapes of the stored values *)

Section TypedStore.

Lemma wellTyped_insert key v (db : gmap string value) :
  wellTyped db →
  match v with
  | VUser _ => ∃ u, key = userKey u
  | VRecord r => ∃ u, key = recordKey u (timestamp r)
  | VProcessed m => key = processedKey (atMessageId m)
  | VDaily d => ∃ day, key = dailyKey (dc_authorId d) day
                       ∧ dc_date d = dateKey day
  end →
  wellTyped (<[key := v]> db).
Proof.
  intros Hdb Hv key' v'.
  destruct (decide (key = key')) as [<-|Hne].
  - rewrite lookup_insert_eq. by intros [= <-].
  - rewrite lookup_insert_ne by done. apply Hdb.
Qed.

Lemma wellTyped_delete key (db : gmap string value) :
  wellTyped db → wellTyped (delete key db).
Proof.
  intros Hdb key' v'.
  destruct (decide (key = key')) as [<-|Hne].
  - by rewrite lookup_delete_eq.
  - rewrite lookup_delete_ne by done. apply Hdb.
Qed.

Lemma wellTyped_statsReadable a (db : gmap string value) :
  wellTyped db → statsReadable a db.
Proof.
  intros Hdb. unfold statsReadable.
  destruct (db !! userKey a) as [v|] eqn:Hv; [|by exists None].
  specialize (Hdb _ _ Hv). destruct v as [d|m|s|r].
  - destruct Hdb as (day & Hkey & _). by apply userKey_dailyKey in Hkey.
  - by apply userKey_processedKey in Hdb.
  - by exists (Some s).
  - destruct Hdb as [u Hkey]. by apply userKey_recordKey in Hkey.
Qed.

Lemma wellTyped_usersReadable (db : gmap string value) :
  wellTyped db → usersReadable db.
Proof.
  intros Hdb key v Hv Hprefix. specialize (Hdb _ _ Hv).
  destruct v as [d|m|s|r].
  - destruct Hdb as (day & -> & _). done.
  - by subst key.
  - by exists s.
  - destruct Hdb as [u ->]. done.
Qed.

Lemma runWriter_typed op (db : gmap string value) :
  wellTyped db →
  fst (runWriter op db) = Ok tt ∧ wellTyped (snd (runWriter op db)).
Proof.
  intros Hdb. destruct op as [[u newName record|u]|today now a|m|n]; simpl.
  - destruct (wellTyped_statsReadable u db Hdb) as [prior Hprior].
    rewrite (recordCheckIn_run _ _ _ _ _ Hprior). simpl. split; [done|].
    apply wellTyped_insert; [|by exists u].
    apply wellTyped_insert; [done|by exists u].
  - unfold bind.
    destruct (rollbackLastCheckIn_total u db) as (b & db' & Hrun & Hb).
    rewrite Hrun. simpl. split; [done|]. destruct b.
    + apply rollbackLastCheckIn_true_inv in Hrun
        as (s & lastRecord & Hs & Hlast & ->).
      apply wellTyped_insert; [|by exists u]. by apply wellTyped_delete.
    + destruct (proj1 Hb eq_refl) as [Hnone|(s & Hs & Hnil)].
      * rewrite rollbackLastCheckIn_nothing in Hrun; [by injection Hrun as <-|].
        intros s Hs. rewrite getUserStats_lookup, Hs in Hnone. done.
      * rewrite rollbackLastCheckIn_nothing in Hrun; [by injection Hrun as <-|].
        intros s' Hs'. rewrite getUserStats_lookup, Hs' in Hs. congruence.
  - split; [done|]. unfold recordDailyComment, try_catch, level_put. simpl.
    apply wellTyped_insert; [done|]. by exists today.
  - split; [done|]. unfold recordProcessedAtMessage, try_catch, level_put.
    simpl. by apply wellTyped_insert.
  - split; [done|]. unfold deleteProcessedAtMessage. unfold_monad. simpl.
    by apply wellTyped_delete.
Qed.

Lemma runWriters_typed ops : ∀ (db : gmap string value),
  wellTyped db → allReturn ops db ∧ wellTyped (runWriters ops db).
Proof.
  induction ops as [|op ops IH]; intros db Hdb; [done|]. simpl.
  destruct (runWriter_typed op db Hdb) as [Hok Htyped].
  destruct (IH _ Htyped) as [Hall Hend]. done.
Qed.

Lemma afterCheckIn_typed checkIn (db : gmap string value) :
  wellTyped db → wellTyped (afterCheckIn checkIn db).
Proof.
  intros Hdb. destruct checkIn as [[[a n] record]|]; [|done].
  apply (runWriter_typed (StatsWrite (Append a n record)) db Hdb).
Qed.

Lemma afterDailyMark_typed remote a0 (db : gmap string value) :
  wellTyped db → wellTyped (afterDailyMark remote a0 db).
Proof.
  intros Hdb. destruct a0 as [a|]; [|done].
  apply (runWriter_typed (DailyWrite (clockToday remote) (clockNow remote) a)
           db Hdb).
Qed.

Lemma afterRollback_typed saved a0 (db : gmap string value) :
  wellTyped db → wellTyped (afterRollback saved a0 db).
Proof.
  intros Hdb. destruct saved, a0 as [a|]; try done.
  pose proof (runWriter_typed (StatsWrite (RollbackLast a)) db Hdb) as [_ H].
  unfold afterRollback. simpl in H. unfold bind in H.
  destruct (rollbackLastCheckIn_total a db) as (b & db' & Hrun & _).
  by rewrite Hrun in H |- *.
Qed.

Lemma afterLedgerWrite_typed pm (db : gmap string value) :
  wellTyped db → wellTyped (afterLedgerWrite pm db).
Proof. intros Hdb. by apply wellTyped_insert. Qed.

Lemma processAtMessage_typed cfg remote atMessage w :
  wellTyped (db w) →
  wellTyped (db (snd (processAtMessage cfg remote atMessage w))).
Proof.
  intros Hdb.
  destruct (processAtMessage_trace cfg remote atMessage w)
    as (w' & evs & Hrun & Hafter & Hshape).
  rewrite Hrun. cbn [snd].
  destruct Hshape as [(-> & _)
    |[(evQ & dynamicId & _ & _ & ->)
     |(evQ & checkIn & evR & oid & ty & text & pic & saved & a0
       & _ & _ & _ & _ & _ & _ & _ & Hend)]].
  - done.
  - by apply afterLedgerWrite_typed.
  - destruct Hend as [(dynamicId & _ & _ & ->)|(_ & _ & ->)].
    + by apply afterLedgerWrite_typed, afterDailyMark_typed, afterCheckIn_typed.
    + by apply afterRollback_typed, afterCheckIn_typed.
Qed.

Lemma handleAtMessages_typed cfg entries : ∀ counts w,
  wellTyped (db w) →
  wellTyped (db (snd (handleAtMessages cfg counts entries w))).
Proof.
  induction entries as [|entry entries IH]; intros counts w Hdb; [done|].
  simpl. unfold bind at 1.
  destruct (handleAtMessage_step cfg counts entry w)
    as (counts1 & w1 & evs1 & Hrun1 & _).
  rewrite Hrun1. apply IH. destruct entry as [atMessage remote].
  destruct (db w !! processedKey (at_id atMessage)) as [v|] eqn:Hledger.
  - rewrite handleAtMessage_skip in Hrun1 by (by rewrite Hledger).
    by injection Hrun1 as _ <-.
  - rewrite handleAtMessage_fresh in Hrun1 by done.
    injection Hrun1 as _ <-. by apply processAtMessage_typed.
Qed.

Lemma checkAndComment_typed cfg feed w :
  wellTyped (db w) → wellTyped (db (snd (checkAndComment cfg feed w))).
Proof.
  intros Hdb. unfold checkAndComment.
  destruct (isProcessing w) eqn:Hflag; [done|].
  unfold bind at 1. unfold setProcessing at 1.
  set (w0 := mkWorld (db w) (calls w) true).
  unfold try_finally, try_catch. unfold bind at 1. unfold call at 1.
  set (w1 := mkWorld (db w0) (calls w0 ++ [GetAtFeed]) (isProcessing w0)).
  unfold bind at 1. unfold answer at 1.
  destruct feed as [[entries|]|e]; [|done..].
  destruct entries as [|entry entries]; [done|].
  unfold bind at 1.
  pose proof (handleAtMessages_typed cfg (entry :: entries) (0, 0)%nat w1 Hdb)
    as Htyped.
  destruct (handleAtMessages cfg (0, 0)%nat (entry :: entries) w1)
    as [[counts|e] w2]; exact Htyped.
Qed.

(** X29. The store stays typed. On the store reached from the empty
    store by any sequence of check-ins, rollbacks, daily marks, ledger
    writes and ledger deletions, none of these calls has rejected (so
    [recordCheckIn] never meets a value without [checkInRecords]), every
    value has the shape that belongs to its key, and in particular every
    [user:] key holds the statistics of a user. A cycle of
    [checkAndComment], which writes through these calls only, keeps a
    typed store typed. *)
Theorem store_stays_typed :
  (∀ ops,
     allReturn ops ∅
     ∧ wellTyped (runWriters ops ∅)
     ∧ usersReadable (runWriters ops ∅)
     ∧ ∀ a, statsReadable a (runWriters ops ∅))
  ∧ (∀ cfg feed w,
       wellTyped (db w) →
       wellTyped (db (snd (checkAndComment cfg feed w)))).
Proof.
  split; [|apply checkAndComment_typed].
  intros ops.
  destruct (runWriters_typed ops ∅) as [Hall Htyped].
  { by intros key v. }
  split; [done|]. split; [done|].
  split; [by apply wellTyped_usersReadable|].
  intros a. by apply wellTyped_statsReadable.
Qed.

End TypedStore.

(** ** The list of the processed notifications *)

Section ProcessedList.

Lemma pretty_N_char_digit x : isDigit (pretty_N_char x) = true.
Proof. unfold pretty_N_char. by repeat case_match. Qed.

Lemma pretty_N_go_digits x : ∀ s,
  string_all isDigit s = true → string_all isDigit (pretty_N_go x s) = true.
Proof.
  induction (N.lt_wf_0 x) as [x _ IH]; intros s Hs.
  assert (x = 0 ∨ 0 < x)%N as [->|Hpos] by lia.
  - by rewrite pretty_N_go_0.
  - rewrite pretty_N_go_step by done. apply IH.
    + by apply N.div_lt.
    + simpl. by rewrite pretty_N_char_digit.
Qed.

Lemma digit_value_pretty_N_char x :
  (x < 10)%N → Js.digit_value (pretty_N_char x) = Some (Z.of_N x).
Proof.
  intros Hx.
  assert (x = 0 ∨ x = 1 ∨ x = 2 ∨ x = 3 ∨ x = 4 ∨ x = 5 ∨ x = 6 ∨ x = 7
          ∨ x = 8 ∨ x = 9)%N as Hcases by lia.
  repeat (destruct Hcases as [->|Hcases]; [reflexivity|]). by subst.
Qed.

Lemma parse_digits_pretty_N_go x : ∀ s acc,
  (0 < x)%N →
  ∃ k, Js.parse_digits 10 acc (pretty_N_go x s)
       = Js.parse_digits 10 (Some (default 0 acc * 10 ^ k + Z.of_N x)%Z) s
       ∧ (0 ≤ k)%Z.
Proof.
  induction (N.lt_wf_0 x) as [x _ IH]; intros s acc Hpos.
  rewrite pretty_N_go_step by done.
  assert (∀ acc',
            Js.parse_digits 10 acc' (String (pretty_N_char (x `mod` 10)) s)
            = Js.parse_digits 10
                (Some (default 0 acc' * 10 + Z.of_N (x `mod` 10))%Z) s)
    as Hdigit.
  { intros acc'. cbn [Js.parse_digits].
    rewrite digit_value_pretty_N_char by (apply N.mod_lt; lia).
    destruct (Z.ltb_spec (Z.of_N (x `mod` 10)) 10) as [_|Hge]; [done|].
    pose proof (N.mod_lt x 10). lia. }
  destruct (N.eq_0_gt_0_cases (x `div` 10)) as [Hzero|Hmore].
  - rewrite Hzero, pretty_N_go_0, Hdigit. exists 1%Z. split; [|lia].
    assert (x `mod` 10 = x)%N as ->.
    { pose proof (N.div_mod x 10 ltac:(lia)) as Hx. rewrite Hzero in Hx. lia. }
    by rewrite Z.pow_1_r.
  - destruct (IH (x `div` 10)%N ltac:(apply N.div_lt; lia)
                (String (pretty_N_char (x `mod` 10)) s) acc Hmore)
      as (k & -> & Hk).
    rewrite Hdigit. exists (k + 1)%Z. split; [|lia].
    cbn [default]. unfold id. rewrite Z.pow_add_r, Z.pow_1_r by lia.
    pose proof (N.div_mod x 10 ltac:(lia)) as Hx.
    match goal with
    | |- Js.parse_digits _ (Some ?a) _ = Js.parse_digits _ (Some ?b) _ =>
        replace a with b by lia
    end.
    done.
Qed.

Lemma no_hex_prefix c s :
  string_all isDigit s = true →
  String.prefix "0x" (String c s) = false
  ∧ String.prefix "0X" (String c s) = false.
Proof.
  intros Hall. split.
  - destruct (String.prefix "0x" (String c s)) eqn:Hp; [|done].
    apply prefix_split in Hp.
    change (String c s = String "0" (String "x" (string_drop 1 s))) in Hp.
    injection Hp as _ Hs. by rewrite Hs in Hall.
  - destruct (String.prefix "0X" (String c s)) eqn:Hp; [|done].
    apply prefix_split in Hp.
    change (String c s = String "0" (String "X" (string_drop 1 s))) in Hp.
    injection Hp as _ Hs. by rewrite Hs in Hall.
Qed.

(** A text of digits is read as it stands: no white space, no sign and no
    hexadecimal prefix is found in it. *)
Lemma parseInt_digits s :
  s ≠ "" → string_all isDigit s = true →
  Js.parseInt s = Js.parse_digits 10 None s.
Proof.
  intros Hne Hall. destruct s as [|c s]; [done|].
  simpl in Hall. apply andb_prop in Hall as [Hc Hall].
  unfold Js.parseInt.
  assert (Js.is_white_space c = false) as Hwhite.
  { unfold isDigit in Hc. unfold Js.is_white_space.
    apply andb_prop in Hc as [H1%Nat.leb_le H2%Nat.leb_le].
    apply orb_false_iff. split.
    - apply andb_false_iff. right. apply Nat.leb_gt. lia.
    - apply Nat.eqb_neq. lia. }
  cbn [Js.trim_start]. rewrite Hwhite.
  assert (Ascii.eqb c "-" = false ∧ Ascii.eqb c "+" = false) as [-> ->].
  { split; apply Ascii.eqb_neq; intros ->; done. }
  assert (String.prefix "0x" (String c s) = false
          ∧ String.prefix "0X" (String c s) = false) as [-> ->].
  { by apply no_hex_prefix. }
  cbn [orb]. destruct (Js.parse_digits 10 None (String c s)); simpl; [|done].
  f_equal. lia.
Qed.

Lemma parseInt_pretty_N_go p :
  Js.parseInt (pretty_N_go (N.pos p) "") = Some (Z.pos p).
Proof.
  rewrite parseInt_digits.
  - destruct (parse_digits_pretty_N_go (N.pos p) "" None ltac:(lia))
      as (k & -> & _). simpl. f_equal.
  - intros Heq. apply (f_equal String.length) in Heq.
    rewrite pretty_N_go_step in Heq by lia.
    pose proof (pretty_N_go_length (N.pos p `div` 10)
                  (String (pretty_N_char (N.pos p `mod` 10)) "")) as Hlen.
    rewrite Heq in Hlen. simpl in Hlen. lia.
  - by apply pretty_N_go_digits.
Qed.

(** [parseInt] reads back what the key construction has written. *)
Lemma parseInt_toString (n : Z) : Js.parseInt (Js.toString n) = Some n.
Proof.
  unfold Js.toString, pretty, pretty_Z.
  destruct n as [|p|p]; [done| |].
  - unfold pretty, pretty_positive, pretty, pretty_N.
    case_decide; [done|]. apply parseInt_pretty_N_go.
  - unfold pretty, pretty_positive, pretty, pretty_N.
    case_decide; [done|].
    pose proof (parseInt_pretty_N_go p) as Hp.
    assert (pretty_N_go (N.pos p) "" ≠ ""
            ∧ string_all isDigit (pretty_N_go (N.pos p) "") = true)
      as [Hne Hall].
    { split; [|by apply pretty_N_go_digits].
      intros Heq. rewrite Heq in Hp. done. }
    rewrite parseInt_digits in Hp by done.
    unfold Js.parseInt. change ("-" +:+ ?s) with (String "-" s).
    cbn [Js.trim_start]. change (Js.is_white_space "-") with false.
    cbn iota. change (Ascii.eqb "-" "-") with true. cbn iota.
    destruct (pretty_N_go (N.pos p) "") as [|c s] eqn:Hs; [done|].
    simpl in Hall. apply andb_prop in Hall as [Hc Hall].
    assert (String.prefix "0x" (String c s) = false
            ∧ String.prefix "0X" (String c s) = false) as [-> ->].
    { by apply no_hex_prefix. }
    cbn [orb]. rewrite Hp. done.
Qed.

Lemma processedId_processedKey n v : processedId (processedKey n, v) = Some n.
Proof.
  unfold processedId, processedKey. cbn [fst].
  by rewrite prefix_app, remove_first_prefix, parseInt_toString.
Qed.

Lemma processedId_typed (db : gmap string value) key v n :
  wellTyped db → db !! key = Some v →
  processedId (key, v) = Some n → key = processedKey n.
Proof.
  intros Hdb Hv. unfold processedId. cbn [fst].
  destruct (String.prefix "processed_at:" key) eqn:Hp; [|done].
  specialize (Hdb _ _ Hv). destruct v as [d|m|s|r].
  - destruct Hdb as (day & -> & _). done.
  - subst key. unfold processedKey.
    rewrite remove_first_prefix, parseInt_toString. by intros [= <-].
  - destruct Hdb as [u ->]. done.
  - destruct Hdb as [u ->]. done.
Qed.

Lemma sort_insert_newestFirst x l :
  StronglySorted newestFirst l →
  StronglySorted newestFirst (Js.sort_insert (λ a b, (b - a)%Z) x l).
Proof.
  induction 1 as [|y l Hsorted IH Hy]; simpl.
  { repeat constructor. }
  destruct (Z.leb_spec (y - x) 0) as [Hle|Hgt].
  - constructor; [by constructor|].
    constructor; [unfold newestFirst; lia|].
    eapply Forall_impl; [exact Hy|]. unfold newestFirst. intros z. lia.
  - constructor; [done|].
    rewrite sort_insert_Permutation. constructor; [|done].
    unfold newestFirst. lia.
Qed.

Lemma sort_newestFirst l :
  StronglySorted newestFirst (Js.sort (λ a b, (b - a)%Z) l).
Proof.
  unfold Js.sort. induction l as [|x l IH]; simpl; [constructor|].
  by apply sort_insert_newestFirst.
Qed.

Lemma NoDup_omap_keys {A B K} (f : K * A → option B) (g : B → K)
    (l : list (K * A)) :
  NoDup l.*1 →
  (∀ e y, e ∈ l → f e = Some y → e.1 = g y) →
  NoDup (omap f l).
Proof.
  induction l as [|e l IH]; intros Hkeys Hf; [constructor|].
  rewrite fmap_cons in Hkeys. apply NoDup_cons in Hkeys as [Hfresh Hkeys].
  rewrite omap_cons.
  assert (NoDup (omap f l)) as Hrest.
  { apply IH; [done|]. intros e' y Hin. apply Hf. by right. }
  destruct (f e) as [y|] eqn:Hy; [|done].
  apply NoDup_cons. split; [|done].
  intros (e' & Hin & Hy')%list_elem_of_omap.
  apply Hfresh. apply list_elem_of_fmap. exists e'. split; [|done].
  rewrite (Hf e y) by (by left || done).
  symmetry. apply Hf; [by right|done].
Qed.

(** X30. [listProcessedAtMessages] never rejects and answers the ids in
    descending order; every notification with a ledger record is listed;
    and on a typed store the list holds no id twice and nothing but the
    ids with a ledger record, that is, the ids for which
    [isAtMessageProcessed] answers true. *)
Theorem listProcessedAtMessages_spec (db : gmap string value) :
  ∃ ids,
    listProcessedAtMessages db = (Ok ids, db)
    ∧ StronglySorted newestFirst ids
    ∧ (∀ n, isAtMessageProcessed n db = (Ok true, db) → n ∈ ids)
    ∧ (wellTyped db →
       NoDup ids
       ∧ ∀ n, n ∈ ids → isAtMessageProcessed n db = (Ok true, db)).
Proof.
  unfold listProcessedAtMessages, try_catch, bind, ret.
  destruct (level_iterator_run db) as (entries & -> & Hperm).
  fold processedId. change (λ entry : string * value, processedId entry)
    with processedId.
  eexists. split; [reflexivity|].
  split; [apply sort_newestFirst|].
  assert (∀ n, n ∈ Js.sort (λ a b, (b - a)%Z) (omap processedId entries)
               ↔ ∃ key v, db !! key = Some v ∧ processedId (key, v) = Some n)
    as Hids.
  { intros n. rewrite sort_Permutation, list_elem_of_omap. split.
    - intros ([key v] & Hin & Hn). exists key, v. split; [|done].
      rewrite Hperm in Hin. by apply elem_of_map_to_list.
    - intros (key & v & Hv & Hn). exists (key, v). split; [|done].
      rewrite Hperm. by apply elem_of_map_to_list. }
  split.
  - intros n. rewrite isAtMessageProcessed_lookup. intros [= Hn].
    apply bool_decide_eq_true in Hn as [v Hv].
    apply Hids. exists (processedKey n), v. split; [done|].
    apply processedId_processedKey.
  - intros Hdb. split.
    + rewrite sort_Permutation, Hperm.
      apply (NoDup_omap_keys _ processedKey).
      * apply NoDup_fst_map_to_list.
      * intros [key v] n Hin%elem_of_map_to_list Hn. cbn [fst].
        by eapply processedId_typed.
    + intros n (key & v & Hv & Hn)%Hids.
      rewrite isAtMessageProcessed_lookup.
      rewrite <- (processedId_typed db key v n Hdb Hv Hn), Hv.
      by rewrite bool_decide_eq_true_2.
Qed.

End ProcessedList.
